(** * CiaTc: dependency-impact analysis, named locks and change detection

    A shallow embedding of the algorithmic core of the repository:
    - [gilfoyle_agent.py]  (class [BuildHealthMonitor]): signature-change
      detection, impact propagation, circular-dependency detection and risk
      classification over the persisted dependency graph, and the analysis
      loop of [generate_report];
    - [agent_lock.py]      (class [AgentLock], [agent_lock],
      [cleanup_stale_locks]): the flock-based named lock, its probe, and the
      reclamation of stale lock files;
    - [band_orchestrator_stop.py]: the locked workers and the loop that
      skips the workers found locked;
    - [smart_orchestrator.py] (class [SmartOrchestrator]): hash-based change
      detection, project size, adaptive timeouts, light mode, the choice of
      agents and the execution plan;
    - [conductor_agent.py] ([run_conductor]): the suggested timeout tiers.

    Conventions.  Python [str] is [string] (a byte string; case folding is
    ASCII).  A Python [dict] whose iteration order is observable is an
    association list in insertion order ([odict]); the hash cache, whose order
    is never observed, is a [gmap].  A Python [set] of strings is a duplicate
    free list together with an iteration order [set_order] that the code does
    not control.  A Python [float] holding a time is a rational, or one of
    the non-finite values where a parser can produce them; rounding is not
    modelled.  Mutable object state is threaded explicitly. *)

From stdpp Require Import base option gmap strings.
From Stdlib Require Import String Ascii List ZArith QArith Bool Lia Permutation.
Import ListNotations.
Local Open Scope string_scope.
Local Open Scope Z_scope.

(** * Part I: the embedding *)

(** ** Python built-ins used by the sources *)

Module Py.

(** [c.lower()] on one ASCII letter. *)
Definition lower_ascii (c : ascii) : ascii :=
  let n := nat_of_ascii c in
  if ((65 <=? n)%nat && (n <=? 90)%nat)%bool then ascii_of_nat (n + 32) else c.

(** [s.lower()] *)
Fixpoint lower (s : string) : string :=
  match s with
  | EmptyString => EmptyString
  | String c s' => String (lower_ascii c) (lower s')
  end.

(** [s.startswith(p)] *)
Definition startswith (s p : string) : bool := String.prefix p s.

(** [needle in hay] on strings. *)
Fixpoint contains (needle hay : string) : bool :=
  if String.prefix needle hay then true
  else match hay with
       | EmptyString => false
       | String _ hay' => contains needle hay'
       end.

(** [sep.join(l)] *)
Definition join (sep : string) (l : list string) : string := String.concat sep l.

(** [x in l] on a list (or set) of strings. *)
Definition mem (x : string) (l : list string) : bool := existsb (String.eqb x) l.

(** [s.split(c)] for a one-character separator. *)
Fixpoint split (c : ascii) (s : string) : list string :=
  match s with
  | EmptyString => [EmptyString]
  | String a s' =>
      if Ascii.eqb a c then EmptyString :: split c s'
      else match split c s' with
           | [] => [String a EmptyString]
           | w :: ws => String a w :: ws
           end
  end.

(** [s.rfind(c)]: the index of the last occurrence, if any. *)
Fixpoint rfind (c : ascii) (s : string) : option nat :=
  match s with
  | EmptyString => None
  | String a s' =>
      match rfind c s' with
      | Some i => Some (S i)
      | None => if Ascii.eqb a c then Some O else None
      end
  end.

Definition is_space (c : ascii) : bool :=
  let n := nat_of_ascii c in
  (((9 <=? n)%nat && (n <=? 13)%nat) || ((28 <=? n)%nat && (n <=? 32)%nat))%bool.

Fixpoint lstrip (s : string) : string :=
  match s with
  | String c s' => if is_space c then lstrip s' else s
  | EmptyString => EmptyString
  end.

Fixpoint rstrip (s : string) : string :=
  match s with
  | EmptyString => EmptyString
  | String c s' =>
      match rstrip s' with
      | EmptyString => if is_space c then EmptyString else String c EmptyString
      | r => String c r
      end
  end.

(** [s.strip()] *)
Definition strip (s : string) : string := rstrip (lstrip s).

(** [pathlib.PurePosixPath(p).name]: the last component, empty and ["."]
    components being dropped by the path parser. *)
Definition path_parts (p : string) : list string :=
  filter (fun w => negb (String.eqb w "" || String.eqb w ".")) (split "/" p).

Definition path_name (p : string) : string := List.last (path_parts p) "".

(** [pathlib.PurePosixPath(p).stem]: the name without its last suffix; a
    leading or a trailing dot starts no suffix. *)
Definition stem (p : string) : string :=
  let name := path_name p in
  match rfind "." name with
  | Some i =>
      if ((0 <? i)%nat && (i <? String.length name - 1)%nat)%bool
      then String.substring 0 i name else name
  | None => name
  end.

(** [pathlib.PurePosixPath(p).suffix] *)
Definition suffix (p : string) : string :=
  let name := path_name p in
  match rfind "." name with
  | Some i =>
      if ((0 <? i)%nat && (i <? String.length name - 1)%nat)%bool
      then String.substring i (String.length name - i) name else ""
  | None => ""
  end.

(** *** Insertion-ordered dictionaries with string keys *)

Abbreviation odict V := (list (string * V)).

Section Odict.
Context {V : Type}.

(** [d.get(k)] *)
Fixpoint dict_get (k : string) (d : odict V) : option V :=
  match d with
  | [] => None
  | (k', v) :: d' => if String.eqb k k' then Some v else dict_get k d'
  end.

(** [k in d] *)
Definition dict_has (k : string) (d : odict V) : bool :=
  match dict_get k d with Some _ => true | None => false end.

(** [d[k] = v]: an existing key keeps its position, a new key goes last. *)
Fixpoint dict_set (k : string) (v : V) (d : odict V) : odict V :=
  match d with
  | [] => [(k, v)]
  | (k', v') :: d' =>
      if String.eqb k k' then (k, v) :: d' else (k', v') :: dict_set k v d'
  end.

(** [{k: v for (k, v) in kvs}] *)
Definition dict_of (kvs : list (string * V)) : odict V :=
  fold_left (fun d kv => dict_set (fst kv) (snd kv) d) kvs [].

Definition dict_keys (d : odict V) : list string := map fst d.

(** The representation invariant of a [dict]: no key twice. *)
Definition is_dict (d : odict V) : Prop := NoDup (dict_keys d).
End Odict.

(** [a & b] on sets of strings, as a duplicate-free list. *)
Definition set_of (l : list string) : list string := nodup string_dec l.

Definition set_and (a b : list string) : list string :=
  filter (fun x => mem x b) (set_of a).

End Py.


(** ** Text of ASCII characters *)

Module PyText.
Import Py.

(** [s.isascii()].  On such text the byte string of the embedding has one
    byte for each character, [len] counts the bytes, and [s.lower()] folds
    the letters A to Z and nothing else. *)
Fixpoint isascii (s : string) : bool :=
  match s with
  | EmptyString => true
  | String c s' => (nat_of_ascii c <? 128)%nat && isascii s'
  end.

(** The same character, or the same letter of A to Z in its two cases. *)
Definition same_letter (x y : ascii) : bool :=
  let n := nat_of_ascii x in
  let m := nat_of_ascii y in
  (n =? m)%nat
  || ((65 <=? n)%nat && (n <=? 90)%nat && (m =? n + 32)%nat)
  || ((65 <=? m)%nat && (m <=? 90)%nat && (n =? m + 32)%nat).

(** Two texts that differ in the case of letters A to Z at most. *)
Fixpoint caseless_eq (a b : string) : bool :=
  match a, b with
  | EmptyString, EmptyString => true
  | String x a', String y b' => same_letter x y && caseless_eq a' b'
  | _, _ => false
  end.

(** [stem], up to the case of its letters, occurs in [imp]. *)
Definition occurs_caseless (stem imp : string) : Prop :=
  exists pre w post, imp = pre ++ w ++ post /\ caseless_eq w stem = true.
End PyText.
(** ** gilfoyle_agent.py: [BuildHealthMonitor] *)

Module Gilfoyle.
Import Py.

(** One element of an entry's ['definitions'] list.  The fallback parsers
    ([parse_definitions_basic]) emit no ['signature'] key, hence the option;
    readers use [d.get('signature', '')]. *)
Record DefinitionRecord : Type := mkDef {
  def_name : string;
  def_type : string;
  def_signature : option string;
  def_line : Z
}.

Definition signature_of (d : DefinitionRecord) : string :=
  match def_signature d with Some s => s | None => "" end.

(** [{'name': .., 'old': .., 'new': ..}] *)
Record SignatureChange : Type := mkChange {
  sc_name : string;
  sc_old : string;
  sc_new : string
}.

(** The value stored under a file path in [dependency_graph].  A key that a
    reader takes with [.get(key, [])] and that is missing reads as []. *)
Record Entry : Type := mkEntry {
  imports : list string;
  definitions : list DefinitionRecord;
  calls : list string;
  language : string;
  signature_changes : list SignatureChange
}.

Definition empty_entry : Entry := mkEntry [] [] [] "" [].

(** The result of [parse_with_treesitter]. *)
Record Parsed : Type := mkParsed {
  p_imports : list string;
  p_definitions : list DefinitionRecord;
  p_calls : list string
}.

(** [{'reasons': [...], 'severity': ...}] *)
Record Impact : Type := mkImpact {
  reasons : list string;
  severity : string
}.

Definition Graph : Type := odict Entry.

(** [detect_language]: the language tag of a file extension. *)
Definition lang_map : odict string :=
  [ (".py", "python"); (".swift", "swift"); (".ts", "typescript");
    (".tsx", "typescript"); (".js", "javascript"); (".jsx", "javascript");
    (".go", "go"); (".rs", "rust"); (".java", "java"); (".c", "c");
    (".cpp", "cpp"); (".h", "c"); (".hpp", "cpp"); (".rb", "ruby");
    (".php", "php") ].

Definition detect_language (filepath : string) : string :=
  match dict_get (lower (suffix filepath)) lang_map with
  | Some l => l
  | None => "unknown"
  end.

Section Monitor.
(** The file system and the tree-sitter parsers, as seen through
    [parse_with_treesitter]: what a path parses to right now. *)
Variable parse_with_treesitter : string -> Parsed.
(** The order in which Python iterates over a set of strings. *)
Variable set_order : list string -> list string.

(** [{d['name']: d.get('signature', '') for d in defs}] *)
Definition sigs_of (defs : list DefinitionRecord) : odict string :=
  dict_of (map (fun d => (def_name d, signature_of d)) defs).

(** The loop of [detect_signature_changes] over [new_sigs.items()]. *)
Definition changed_sigs (old_sigs new_sigs : odict string) : list SignatureChange :=
  flat_map (fun kv =>
    match dict_get (fst kv) old_sigs with
    | Some old => if String.eqb old (snd kv) then [] else [mkChange (fst kv) old (snd kv)]
    | None => []
    end) new_sigs.

Definition detect_signature_changes (g : Graph) (filepath : string)
  : list SignatureChange :=
  match dict_get filepath g with
  | None => []
  | Some old_data =>
      let old_sigs := sigs_of (definitions old_data) in
      let parsed := parse_with_treesitter filepath in
      let new_sigs := sigs_of (p_definitions parsed) in
      changed_sigs old_sigs new_sigs
  end.

(** [analyze_dependencies]: the entry of [filepath] is replaced by the new
    facts; the second component is the returned pair. *)
Definition analyze_dependencies (g : Graph) (filepath : string)
  : Graph * (list string * list DefinitionRecord) :=
  let parsed := parse_with_treesitter filepath in
  let sig_changes := detect_signature_changes g filepath in
  (dict_set filepath
     (mkEntry (p_imports parsed) (p_definitions parsed) (p_calls parsed)
              (detect_language filepath) sig_changes) g,
   (p_imports parsed, p_definitions parsed)).

(** The body of the loop of [find_impacted_files] for one other file:
    the reasons it collects. *)
Definition impact_reasons (changed_file : string)
    (changed_def_names : list string) (sig_changes : list SignatureChange)
    (data : Entry) : list string :=
  let changed_basename := stem changed_file in
  let r_imports :=
    if existsb (fun imp => contains (lower changed_basename) (lower imp)) (imports data)
    then ["imports"] else [] in
  let called_funcs := set_and changed_def_names (calls data) in
  let r_calls :=
    match called_funcs with
    | [] => []
    | _ :: _ =>
        let sig_changed_funcs := set_of (map sc_name sig_changes) in
        let modified := set_and called_funcs sig_changed_funcs in
        match modified with
        | _ :: _ => ["calls_modified: " ++ join ", " (set_order modified)]
        | [] => ["calls: " ++ join ", " (set_order called_funcs)]
        end
    end in
  r_imports ++ r_calls.

Definition severity_of (rs : list string) : string :=
  if existsb (contains "modified") rs then "high" else "medium".

(** [find_impacted_files]: the graph after the call (the changed file is
    analysed first when it has no entry yet) and the returned dict. *)
Definition find_impacted_files (g : Graph) (changed_file : string)
  : Graph * odict Impact :=
  let g1 := if dict_has changed_file g then g
            else fst (analyze_dependencies g changed_file) in
  let changed_data :=
    match dict_get changed_file g1 with Some e => e | None => empty_entry end in
  let changed_def_names := set_of (map def_name (definitions changed_data)) in
  let sig_changes := signature_changes changed_data in
  (g1,
   fold_left (fun impacted item =>
     let '(filepath, data) := item in
     if String.eqb filepath changed_file then impacted
     else
       match impact_reasons changed_file changed_def_names sig_changes data with
       | [] => impacted
       | rs => dict_set filepath (mkImpact rs (severity_of rs)) impacted
       end) g1 []).
End Monitor.

(** The test of [detect_circular_dependencies] that [filepath] provides
    the import [neighbor]. *)
Definition provides (neighbor filepath : string) : bool :=
  contains neighbor filepath || String.eqb (stem filepath) neighbor.

(** The files the inner loops of [has_cycle] reach from [node], in the order
    in which they are tried: for each import, each graph key providing it. *)
Definition targets (g : Graph) (node : string) : list string :=
  match dict_get node g with
  | Some e =>
      flat_map (fun neighbor => filter (provides neighbor) (dict_keys g)) (imports e)
  | None => []
  end.

(** The two sets shared by all calls of one search: [visited], [rec_stack]. *)
Definition dfs_state : Type := gset string * gset string.

(** The loops of [has_cycle] over the files reached from [node]; [call] is
    the recursive call.  When they end, [node] leaves the recursion stack. *)
Definition visit (call : string -> dfs_state -> option (bool * dfs_state))
    (node : string) : list string -> dfs_state -> option (bool * dfs_state) :=
  fix go (ts : list string) (st : dfs_state) : option (bool * dfs_state) :=
    match ts with
    | [] => Some (false, (st.1, st.2 ∖ {[node]}))
    | filepath :: ts' =>
        if decide (filepath ∈ st.1) then
          if decide (filepath ∈ st.2) then Some (true, st) else go ts' st
        else
          match call filepath st with
          | None => None
          | Some (true, st') => Some (true, st')
          | Some (false, st') => go ts' st'
          end
    end.

(** The nested function [has_cycle].  Each level of [fuel] is one Python
    call frame; [None] is a search cut off by lack of fuel.  The limit that
    the Python interpreter itself puts on the depth of recursion is left
    out here, and taken into account in [Bounded] below. *)
Fixpoint has_cycle (fuel : nat) (g : Graph) (node : string) (st : dfs_state)
  : option (bool * dfs_state) :=
  match fuel with
  | O => None
  | S fuel' =>
      visit (has_cycle fuel' g) node (targets g node)
            ({[node]} ∪ st.1, {[node]} ∪ st.2)
  end.

(** [detect_circular_dependencies]: one search per graph key, each from
    fresh sets (the outer [visited] is never filled, so its test always
    passes).  A search never nests deeper than the number of keys. *)
Definition detect_circular_dependencies (g : Graph) : option bool :=
  (fix each (nodes : list string) : option bool :=
     match nodes with
     | [] => Some false
     | node :: rest =>
         match has_cycle (S (length g)) g node (∅, ∅) with
         | None => None
         | Some (true, _) => Some true
         | Some (false, _) => each rest
         end
     end) (dict_keys g).

(** The fields of a [BuildHealthMonitor] that the risk level reads. *)
Record Monitor : Type := mkMonitor {
  dependency_graph : Graph;
  changed_files : list string;
  file_impacts : odict (odict Impact)
}.

Inductive Emoji : Type := red_circle | yellow_circle | green_circle.

Definition total_impacted (fi : odict (odict Impact)) : nat :=
  fold_left (fun n kv => (n + length (snd kv))%nat) fi O.

Definition high_severity_count (fi : odict (odict Impact)) : nat :=
  fold_left (fun n kv =>
    fold_left (fun n' imp =>
      if String.eqb (severity (snd imp)) "high" then S n' else n') (snd kv) n) fi O.

Definition has_sig_changes (g : Graph) (changed : list string) : bool :=
  existsb (fun f =>
    match dict_get f g with
    | Some e => match signature_changes e with [] => false | _ :: _ => true end
    | None => false
    end) changed.

(** [calculate_risk_level] *)
Definition calculate_risk_level (m : Monitor) : option (string * Emoji) :=
  let total := total_impacted (file_impacts m) in
  let high := high_severity_count (file_impacts m) in
  let sigs := has_sig_changes (dependency_graph m) (changed_files m) in
  match detect_circular_dependencies (dependency_graph m) with
  | None => None
  | Some circular =>
      Some (if circular || (5 <? high)%nat || (15 <? total)%nat
            then ("high", red_circle)
            else if sigs || (0 <? high)%nat || (5 <? total)%nat
            then ("medium", yellow_circle)
            else ("low", green_circle))
  end.

(** *** Vocabulary of the properties *)

(** [defs] records signature text [s] for [f]: the last definition named
    [f] in the list carries [s]. *)
Definition sig_recorded (defs : list DefinitionRecord) (f s : string) : Prop :=
  exists pre d post,
    defs = (pre ++ d :: post)%list /\ def_name d = f /\ signature_of d = s /\
    Forall (fun d' => def_name d' <> f) post.

(** The import edges as [detect_circular_dependencies] follows them: from
    [x] to every graph key that provides one of the imports of [x]. *)
Definition edge (g : Graph) (x y : string) : Prop := In y (targets g x).

(** [x] lies on a cycle of these edges. *)
Definition on_cycle (g : Graph) (x : string) : Prop := tc (edge g) x x.

(** The import edges as [find_impacted_files] reads them: [y] counts as
    imported by [x] when the lower-cased stem of [y] occurs in a lower-cased
    import of [x]. *)
Definition imports_file (g : Graph) (x y : string) : bool :=
  match dict_get x g with
  | Some e => existsb (fun imp => contains (lower (stem y)) (lower imp)) (imports e)
  | None => false
  end.

(** *** The invariant of the search *)

Section SearchInvariant.
Variable g : Graph.

(** The graph keys outside of [V]: what bounds the depth of a search. *)
Definition unvisited (V : gset string) : nat :=
  length (List.filter (fun k => negb (bool_decide (k ∈ V))) (dict_keys g)).

Definition closed (B : gset string) : Prop :=
  forall u v, u ∈ B -> edge g u v -> v ∈ B.

Definition acyclic_on (B : gset string) : Prop :=
  forall u, u ∈ B -> ~ on_cycle g u.

(** What a call [call node (V, R)] owes to its caller: under the invariant
    of the search it returns; [true] only when the graph has a cycle;
    [false] with the stack restored, [node] visited, and the finished files
    still closed under the edges and off every cycle. *)
Definition call_spec (f : nat)
    (call : string -> dfs_state -> option (bool * dfs_state)) : Prop :=
  forall node V R,
    (unvisited ({[node]} ∪ V) < f)%nat -> node ∉ V -> R ⊆ V ->
    closed (V ∖ R) -> acyclic_on (V ∖ R) ->
    (forall r, r ∈ R -> tc (edge g) r node) ->
    exists b st', call node (V, R) = Some (b, st') /\
      if b : bool then exists x, on_cycle g x
      else V ⊆ st'.1 /\ st'.2 = R /\ node ∈ st'.1 /\
           closed (st'.1 ∖ R) /\ acyclic_on (st'.1 ∖ R).
End SearchInvariant.
End Gilfoyle.

(** ** gilfoyle_agent.py: the analysis loop of [generate_report] *)

Module Report.
Import Py Gilfoyle.

Section Loop.
Variable parse_with_treesitter : string -> Parsed.
Variable set_order : list string -> list string.

(** One turn of the loop of [generate_report] over [self.changed_files]:
    a file of unknown language is skipped; any other file is analysed, and
    the files it impacts are stored under its name in [file_impacts]. *)
Definition generate_report_step (st : Graph * odict (odict Impact))
    (changed_file : string) : Graph * odict (odict Impact) :=
  if String.eqb (detect_language changed_file) "unknown" then st
  else
    let g1 := fst (analyze_dependencies parse_with_treesitter st.1 changed_file) in
    let r := find_impacted_files parse_with_treesitter set_order g1 changed_file in
    (fst r, dict_set changed_file (snd r) st.2).

(** The loop: the graph and [file_impacts] when it ends. *)
Definition generate_report_loop (g : Graph) (fi : odict (odict Impact))
    (changed : list string) : Graph * odict (odict Impact) :=
  fold_left generate_report_step changed (g, fi).
End Loop.

(** What one file [item] of the graph adds to the dict returned by
    [find_impacted_files]: the body of its loop, for a result that does not
    hold the file yet. *)
Definition impact_of (set_order : list string -> list string)
    (changed : string) (names : list string)
    (sigs : list SignatureChange) (item : string * Entry) : odict Impact :=
  if String.eqb (fst item) changed then []
  else match impact_reasons set_order changed names sigs (snd item) with
       | [] => []
       | rs => [(fst item, mkImpact rs (severity_of rs))]
       end.

(** The files the loop of [generate_report] does not skip. *)
Definition known (f : string) : Prop := detect_language f <> "unknown".

(** The order of the three risk levels. *)
Definition risk_rank (level : string) : nat :=
  if String.eqb level "high" then 2
  else if String.eqb level "medium" then 1 else 0.
End Report.

(** ** gilfoyle_agent.py under the recursion limit of the interpreter *)

Module Bounded.
Import Py Gilfoyle.

(** [detect_circular_dependencies] when the recursion limit of the
    interpreter leaves room for [limit] nested calls of [has_cycle].  A
    search that nests deeper raises [RecursionError], which neither
    [detect_circular_dependencies] nor any of its callers handles
    ([None]). *)
Definition detect_circular_dependencies_within (limit : nat) (g : Graph) : option bool :=
  (fix each (nodes : list string) : option bool :=
     match nodes with
     | [] => Some false
     | node :: rest =>
         match has_cycle limit g node (∅, ∅) with
         | None => None
         | Some (true, _) => Some true
         | Some (false, _) => each rest
         end
     end) (dict_keys g).

(** [calculate_risk_level] under the same limit. *)
Definition calculate_risk_level_within (limit : nat) (m : Monitor)
  : option (string * Emoji) :=
  let total := total_impacted (file_impacts m) in
  let high := high_severity_count (file_impacts m) in
  let sigs := has_sig_changes (dependency_graph m) (changed_files m) in
  match detect_circular_dependencies_within limit (dependency_graph m) with
  | None => None
  | Some circular =>
      Some (if circular || (5 <? high)%nat || (15 <? total)%nat
            then ("high", red_circle)
            else if sigs || (0 <? high)%nat || (5 <? total)%nat
            then ("medium", yellow_circle)
            else ("low", green_circle))
  end.

(** *** The quantities of the risk rules, counted apart from the code *)

(** All the impact entries collected, over all the changed files. *)
Definition impact_entries (fi : odict (odict Impact)) : list Impact :=
  flat_map (fun kv => map snd (snd kv)) fi.

Definition total_impacted_files (fi : odict (odict Impact)) : nat :=
  length (impact_entries fi).

Definition high_severity_entries (fi : odict (odict Impact)) : nat :=
  length (List.filter (fun imp => String.eqb (severity imp) "high") (impact_entries fi)).

(** A changed file whose graph entry lists a signature change. *)
Definition any_signature_change (g : Graph) (changed : list string) : Prop :=
  exists f e, In f changed /\ dict_get f g = Some e /\ signature_changes e <> [].
End Bounded.

(** ** agent_lock.py: [AgentLock] and [cleanup_stale_locks] *)

Module AgentLock.
Import Py.

(** A value of Python's [float]. *)
Inductive PyFloat : Type := Finite (q : Q) | PosInf | NegInf | NaN.

(** A file of [LOCK_DIR] as the kernel holds it: its text, line by line, and
    the open file description that holds the exclusive [flock] on it, if
    any.  A description belongs to a live process: when a process exits its
    descriptions are closed and their locks dropped, while the file stays. *)
Record Inode : Type := mkInode {
  content : list string;
  flock : option nat
}.

(** The lock directory, the files, and the open file descriptions with the
    file each one refers to. *)
Record Kernel : Type := mkKernel {
  dir : gmap string nat;
  inodes : gmap nat Inode;
  ofds : gmap nat nat
}.

(** [open(lock_file, 'w')]: the file is created or truncated; the result is
    the new description. *)
Definition open_w (k : Kernel) (name : string) : Kernel * nat :=
  let fd := fresh (dom (ofds k)) in
  match dir k !! name with
  | Some i =>
      (mkKernel (dir k)
                (alter (fun ino => mkInode [] (flock ino)) i (inodes k))
                (<[fd := i]> (ofds k)), fd)
  | None =>
      let i := fresh (dom (inodes k)) in
      (mkKernel (<[name := i]> (dir k))
                (<[i := mkInode [] None]> (inodes k))
                (<[fd := i]> (ofds k)), fd)
  end.

(** [open(lock_file, 'r')]: [None] when the file does not exist
    ([FileNotFoundError]). *)
Definition open_r (k : Kernel) (name : string) : option (Kernel * nat) :=
  match dir k !! name with
  | Some i =>
      let fd := fresh (dom (ofds k)) in
      Some (mkKernel (dir k) (inodes k) (<[fd := i]> (ofds k)), fd)
  | None => None
  end.

(** The file a description refers to. *)
Definition file_of (k : Kernel) (fd : nat) : option (nat * Inode) :=
  match ofds k !! fd with
  | Some i => match inodes k !! i with Some ino => Some (i, ino) | None => None end
  | None => None
  end.

Inductive FlockResult : Type :=
| Granted (k : Kernel)
| WouldBlock          (* BlockingIOError *)
| BadDescriptor.      (* any other exception *)

(** [fcntl.flock(fd, LOCK_EX | LOCK_NB)] *)
Definition flock_ex_nb (k : Kernel) (fd : nat) : FlockResult :=
  match file_of k fd with
  | Some (i, ino) =>
      match flock ino with
      | Some owner =>
          if Nat.eqb owner fd then Granted k else WouldBlock
      | None =>
          Granted (mkKernel (dir k) (<[i := mkInode (content ino) (Some fd)]> (inodes k))
                            (ofds k))
      end
  | None => BadDescriptor
  end.

(** [fcntl.flock(fd, LOCK_UN)]; [None] is an exception. *)
Definition flock_un (k : Kernel) (fd : nat) : option Kernel :=
  match file_of k fd with
  | Some (i, ino) =>
      match flock ino with
      | Some owner =>
          if Nat.eqb owner fd
          then Some (mkKernel (dir k) (<[i := mkInode (content ino) None]> (inodes k))
                              (ofds k))
          else Some k
      | None => Some k
      end
  | None => None
  end.

(** [f.close()]: the description goes away, and with it a lock it holds. *)
Definition close (k : Kernel) (fd : nat) : Kernel :=
  let k' := match flock_un k fd with Some k' => k' | None => k end in
  mkKernel (dir k') (inodes k') (delete fd (ofds k')).

(** [f.write(...); f.flush()] through a description that has not written
    yet: the lines go to the start of the file. *)
Definition write_lines (k : Kernel) (fd : nat) (ls : list string) : Kernel :=
  match file_of k fd with
  | Some (i, ino) =>
      mkKernel (dir k)
               (<[i := mkInode (ls ++ skipn (length ls) (content ino)) (flock ino)]> (inodes k))
               (ofds k)
  | None => k
  end.

(** [lock_file.unlink()] *)
Definition unlink (k : Kernel) (name : string) : Kernel :=
  mkKernel (delete name (dir k)) (inodes k) (ofds k).

(** [f.readlines()], each line without its terminator. *)
Definition readlines (k : Kernel) (fd : nat) : list string :=
  match file_of k fd with Some (_, ino) => content ino | None => [] end.

Section Lock.
(** The decimal text of the process identifier and of [time.time()] that
    [acquire] writes, and Python's [float(text)] ([None]: [ValueError]). *)
Variable pid_text : string.
Variable time_text : string.
Variable float_of_text : string -> option PyFloat.

(** Where a call of [acquire] with [timeout == 0] stands.  Between two
    system calls other processes may run. *)
Inductive Acquire : Type :=
| Start                    (* before [open] *)
| Opened (fd : nat)        (* [self.fd] is open, not locked yet *)
| Locked (fd : nat)        (* [flock] granted, record not written yet *)
| Acquired (fd : nat)      (* returned [True]; [self.fd = fd] *)
| Failed.                  (* returned [False]; [self.fd = None] *)

(** One system call of [acquire] on the lock file [name]. *)
Definition acquire_step (name : string) (k : Kernel) (pc : Acquire) : Kernel * Acquire :=
  match pc with
  | Start => let '(k', fd) := open_w k name in (k', Opened fd)
  | Opened fd =>
      match flock_ex_nb k fd with
      | Granted k' => (k', Locked fd)
      | WouldBlock => (close k fd, Failed)
      | BadDescriptor => (close k fd, Failed)
      end
  | Locked fd => (write_lines k fd [pid_text; time_text], Acquired fd)
  | Acquired fd => (k, Acquired fd)
  | Failed => (k, Failed)
  end.

(** [AgentLock(name).acquire()] run without interruption: the kernel
    after the call, the result, and [self.fd]. *)
Definition acquire (name : string) (k : Kernel) : Kernel * bool * option nat :=
  let '(k1, pc1) := acquire_step name k Start in
  let '(k2, pc2) := acquire_step name k1 pc1 in
  let '(k3, pc3) := acquire_step name k2 pc2 in
  match pc3 with
  | Acquired fd => (k3, true, Some fd)
  | _ => (k3, false, None)
  end.

(** [release()] of a lock object whose [self.fd] is [fd]: the kernel after
    the call and the new [self.fd].  When unlocking raises, the handler
    prints and nothing else is done. *)
Definition release (name : string) (k : Kernel) (fd : option nat) : Kernel * option nat :=
  match fd with
  | None => (k, None)
  | Some d =>
      match flock_un k d with
      | Some k1 =>
          let k2 := close k1 d in
          (match dir k2 !! name with Some _ => unlink k2 name | None => k2 end, None)
      | None => (k, Some d)
      end
  end.

(** Two lock objects of one name acquiring at the same time: the kernel and
    where each call stands. *)
Record Race : Type := mkRace {
  kernel : Kernel;
  first : Acquire;
  second : Acquire
}.

(** The next system call is made by the first ([true]) or second caller. *)
Definition race_step (name : string) (r : Race) (who : bool) : Race :=
  if who then
    let '(k, pc) := acquire_step name (kernel r) (first r) in mkRace k pc (second r)
  else
    let '(k, pc) := acquire_step name (kernel r) (second r) in mkRace k (first r) pc.

Definition race (name : string) (k : Kernel) (schedule : list bool) : Race :=
  fold_left (race_step name) schedule (mkRace k Start Start).

(** What [acquire] returned, once it has. *)
Definition result (pc : Acquire) : option bool :=
  match pc with
  | Acquired _ => Some true
  | Failed => Some false
  | _ => None
  end.

(** The caller holds the [flock]. *)
Definition holding (pc : Acquire) : option nat :=
  match pc with
  | Locked fd | Acquired fd => Some fd
  | _ => None
  end.

(** The description holding the lock of the file that [name] names. *)
Definition holder (k : Kernel) (name : string) : option nat :=
  match dir k !! name with
  | Some i => match inodes k !! i with Some ino => flock ino | None => None end
  | None => None
  end.

(** No description holds the lock file of [name], if there is one. *)
Definition free (k : Kernel) (name : string) : Prop :=
  holder k name = None /\
  forall i, dir k !! name = Some i -> is_Some (inodes k !! i).

(** The lock of a file is only ever held by an open description. *)
Definition well_formed (k : Kernel) : Prop :=
  forall i ino owner,
    inodes k !! i = Some ino -> flock ino = Some owner -> is_Some (ofds k !! owner).

(** [now - timestamp > max_age_seconds] *)
Definition age_exceeds (now : Q) (timestamp : PyFloat) (max_age_seconds : Z) : bool :=
  match timestamp with
  | Finite t => negb (Qle_bool (now - t) (inject_Z max_age_seconds))
  | NegInf => true
  | PosInf => false
  | NaN => false
  end.

(** The clock reading when [cleanup_stale_locks] examines a lock file. *)
Variable now : string -> Q.

(** The body of the loop of [cleanup_stale_locks] for one lock file.  A
    missing file and an unparsable timestamp raise, which the outer handler
    reports; the file is then left as it is. *)
Definition cleanup_one (max_age_seconds : Z) (k : Kernel) (name : string) : Kernel :=
  match open_r k name with
  | None => k
  | Some (k1, fd) =>
      match flock_ex_nb k1 fd with
      | Granted k2 =>
          match flock_un k2 fd with
          | Some k3 =>
              match readlines k3 fd with
              | _ :: line1 :: _ =>
                  match float_of_text (strip line1) with
                  | Some timestamp =>
                      if age_exceeds (now name) timestamp max_age_seconds
                      then close (unlink k3 name) fd
                      else close k3 fd
                  | None => close k3 fd
                  end
              | _ => close k3 fd
              end
          | None => close k2 fd
          end
      | WouldBlock => close k1 fd
      | BadDescriptor => close k1 fd
      end
  end.

(** [cleanup_stale_locks(max_age_seconds)], [lock_files] being what
    [LOCK_DIR.glob("*.lock")] yields. *)
Definition cleanup_stale_locks (max_age_seconds : Z) (lock_files : list string)
    (k : Kernel) : Kernel :=
  fold_left (cleanup_one max_age_seconds) lock_files k.

(** The timestamp recorded in a lock file: its second line, parsed. *)
Definition recorded (ino : Inode) : option PyFloat :=
  match content ino with
  | _ :: line1 :: _ => float_of_text (strip line1)
  | _ => None
  end.

(** What reclamation looks for: a lock file that no description holds and
    whose recorded age exceeds the threshold. *)
Definition reclaimable (max_age_seconds : Z) (k : Kernel) (name : string) : bool :=
  match dir k !! name with
  | Some i =>
      match inodes k !! i with
      | Some ino =>
          match flock ino, recorded ino with
          | None, Some timestamp => age_exceeds (now name) timestamp max_age_seconds
          | _, _ => false
          end
      | None => false
      end
  | None => false
  end.
End Lock.

(** *** The invariant of a race *)

Section RaceInvariant.
Variable name : string.

(** [self.fd] while [acquire] runs. *)
Definition fd_of (pc : Acquire) : option nat :=
  match pc with
  | Opened fd | Locked fd | Acquired fd => Some fd
  | _ => None
  end.

(** The invariant of a race from a free lock: the descriptions of the two
    callers are open on the file that [name] names, the lock of that file is
    held by the caller that [holding] says, by one at most, and a caller has
    failed only against the other one holding. *)
Record race_inv (r : Race) : Prop := mkRaceInv {
  inv_files : forall i, dir (kernel r) !! name = Some i ->
                        is_Some (inodes (kernel r) !! i);
  inv_first : forall fd, fd_of (first r) = Some fd ->
      exists i, ofds (kernel r) !! fd = Some i /\ dir (kernel r) !! name = Some i;
  inv_second : forall fd, fd_of (second r) = Some fd ->
      exists i, ofds (kernel r) !! fd = Some i /\ dir (kernel r) !! name = Some i;
  inv_distinct : forall a b, fd_of (first r) = Some a -> fd_of (second r) = Some b -> a <> b;
  inv_holder : holder (kernel r) name =
               match holding (first r) with
               | Some fd => Some fd
               | None => holding (second r)
               end;
  inv_one : holding (first r) = None \/ holding (second r) = None;
  inv_failed_first : first r = Failed -> is_Some (holding (second r));
  inv_failed_second : second r = Failed -> is_Some (holding (first r))
}.

Definition swap (r : Race) : Race := mkRace (kernel r) (second r) (first r).

(** The system calls a call of [acquire] still has to make, at most. *)
Definition remaining (pc : Acquire) : nat :=
  match pc with
  | Start => 3%nat
  | Opened _ => 2%nat
  | Locked _ => 1%nat
  | Acquired _ | Failed => 0%nat
  end.
End RaceInvariant.
End AgentLock.

(** ** agent_lock.py: [is_locked], [agent_lock]; band_orchestrator_stop.py *)

Module LockUse.
Import Py AgentLock.

(** [AgentLock(name).is_locked()]: the kernel after the probe and the
    answer.  The [with] block closes the description on every way out;
    [BlockingIOError] answers [True], any other exception [False]. *)
Definition is_locked (name : string) (k : Kernel) : Kernel * bool :=
  match dir k !! name with
  | None => (k, false)
  | Some _ =>
      match open_r k name with
      | None => (k, false)
      | Some (k1, fd) =>
          match flock_ex_nb k1 fd with
          | Granted k2 =>
              match flock_un k2 fd with
              | Some k3 => (close k3 fd, false)
              | None => (close k2 fd, false)
              end
          | WouldBlock => (close k1 fd, true)
          | BadDescriptor => (close k1 fd, false)
          end
      end
  end.

(** [LOCK_DIR / f"{agent_name}.lock"], as a name in the lock directory. *)
Definition lock_file (agent_name : string) : string := agent_name ++ ".lock".

(** The loop of the stop hook's [main] that collects the workers found
    locked: the kernel after the probes and [skipped]. *)
Definition skipped (agents : list string) (k : Kernel) : Kernel * list string :=
  fold_left (fun (st : Kernel * list string) agent =>
    let '(k', locked) := is_locked (lock_file agent) st.1 in
    (k', if locked then (st.2 ++ [agent])%list else st.2)) agents (k, []).

Section Worker.
Variables (pid_text time_text : string).
Context {A : Type}.

(** [run_john_locked] and its siblings in band_orchestrator_stop.py:
    [with agent_lock(name, skip_if_locked=True) as lock], the work [run]
    being done when the lock was acquired, the lock released when the work
    returns, and [None] returned when the lock was not acquired. *)
Definition run_locked (name : string) (run : Kernel -> Kernel * A) (k : Kernel)
  : Kernel * option A :=
  let '(k1, acquired, fd) := acquire pid_text time_text name k in
  if acquired then
    let '(k2, r) := run k1 in
    (fst (release name k2 fd), Some r)
  else (k1, None).
End Worker.
End LockUse.

(** ** agent_lock.py: [cleanup_stale_locks], system call by system call *)

Module Reclaim.
Import Py AgentLock.

Section Steps.
Variable float_of_text : string -> option PyFloat.
Variable now : string -> Q.

(** Where the body of the loop of [cleanup_stale_locks] stands on one lock
    file.  Between two system calls other processes may run. *)
Inductive Cleanup : Type :=
| Begin                                   (* before [open] *)
| Probing (fd : nat)                      (* open, before the probe *)
| Probed (fd : nat)                       (* probe granted, before [LOCK_UN] *)
| Unlocked (fd : nat)                     (* lock dropped, before [readlines] *)
| Read (fd : nat) (lines : list string)   (* lines read, age test and [unlink] ahead *)
| Closing (fd : nat)                      (* leaving the [with] block *)
| Finished.

(** One system call of the body on the lock file [name]; the age test,
    which makes no system call, goes with the [unlink] it guards. *)
Definition cleanup_step (max_age_seconds : Z) (name : string) (k : Kernel) (pc : Cleanup)
  : Kernel * Cleanup :=
  match pc with
  | Begin =>
      match open_r k name with
      | None => (k, Finished)
      | Some (k1, fd) => (k1, Probing fd)
      end
  | Probing fd =>
      match flock_ex_nb k fd with
      | Granted k2 => (k2, Probed fd)
      | WouldBlock => (k, Closing fd)
      | BadDescriptor => (k, Closing fd)
      end
  | Probed fd =>
      match flock_un k fd with
      | Some k3 => (k3, Unlocked fd)
      | None => (k, Closing fd)
      end
  | Unlocked fd => (k, Read fd (readlines k fd))
  | Read fd lines =>
      match lines with
      | _ :: line1 :: _ =>
          match float_of_text (strip line1) with
          | Some timestamp =>
              if age_exceeds (now name) timestamp max_age_seconds
              then (unlink k name, Closing fd)
              else (k, Closing fd)
          | None => (k, Closing fd)
          end
      | _ => (k, Closing fd)
      end
  | Closing fd => (close k fd, Finished)
  | Finished => (k, Finished)
  end.

(** [n] system calls in a row. *)
Fixpoint cleanup_steps (n : nat) (max_age_seconds : Z) (name : string)
    (k : Kernel) (pc : Cleanup) : Kernel * Cleanup :=
  match n with
  | O => (k, pc)
  | S n' =>
      let '(k', pc') := cleanup_step max_age_seconds name k pc in
      cleanup_steps n' max_age_seconds name k' pc'
  end.
End Steps.
End Reclaim.

(** ** smart_orchestrator.py: [SmartOrchestrator]; conductor_agent.py *)

Module Orchestrator.
Import Py.

Definition TIMEOUT_SMALL : Z := 60.
Definition TIMEOUT_MEDIUM : Z := 120.
Definition TIMEOUT_LARGE : Z := 180.

Definition SKIP_PATTERNS : list string :=
  ["what is"; "how do i"; "explain"; "can you help me understand"; "what does";
   "tell me about"; "show me"; "list"; "where is"; "why does"; "when should"].

Definition FULL_BAND_PATTERNS : list string :=
  ["refactor"; "implement"; "create"; "add feature"; "build"; "design";
   "architect"; "migrate"; "optimize"].

(** [os.stat_result], the two fields read. *)
Record Stat : Type := mkStat {
  st_size : Z;
  st_mtime : Q
}.

(** A path that [project_root.rglob("*")] yields, with what the file
    system answers about it: [stat = None] and [bytes = None] stand for a
    [stat()] and a [read_bytes()] that raise. *)
Record PathEntry : Type := mkPath {
  path : string;              (* str(file_path) *)
  parts : list string;        (* file_path.parts *)
  rel_path : string;          (* str(file_path.relative_to(project_root)) *)
  is_file : bool;
  stat : option Stat;
  bytes : option string
}.

(** The project directory at the time of a call. *)
Record Project : Type := mkProject {
  root_mtime : Q;             (* project_root.stat().st_mtime *)
  tree : list PathEntry       (* project_root.rglob("*") *)
}.

(** The state of a [SmartOrchestrator]: the keys of [self.cache] that the
    modelled methods read or write, and [self.file_hashes]. *)
Record State : Type := mkState {
  last_scan_mtime : option Q;
  last_run : option Q;
  file_hashes : gmap string string
}.

(** The modelled keys of the dict that [get_execution_plan] returns (the
    others, [reason], [agents] and [light_mode], do not bear on them). *)
Record Plan : Type := mkPlan {
  should_run : bool;
  timeout : Z;
  changed_files : nat
}.

(** The test of [get_changed_files] that sends the loop to the next path. *)
Definition scan_ignored (ps : list string) : bool :=
  (existsb (fun part => startswith part ".") ps
   && negb (existsb (fun part => String.eqb part ".claude") ps))
  || mem "node_modules" ps
  || mem "__pycache__" ps.

(** The same test in [get_project_size], which does not know
    [__pycache__]. *)
Definition size_ignored (ps : list string) : bool :=
  (existsb (fun part => startswith part ".") ps
   && negb (existsb (fun part => String.eqb part ".claude") ps))
  || mem "node_modules" ps.

(** [get_project_size()[0]]: the number of files counted. *)
Definition file_count (p : Project) : nat :=
  length (List.filter (fun f => is_file f && negb (size_ignored (parts f))) (tree p)).

(** [get_adaptive_timeout] *)
Definition get_adaptive_timeout (p : Project) : Z :=
  if (file_count p <? 100)%nat then TIMEOUT_SMALL
  else if (file_count p <? 500)%nat then TIMEOUT_MEDIUM
  else TIMEOUT_LARGE.

(** [run_conductor]: the timeout suggested to the conductor for a number of
    changed files. *)
Definition suggested_timeout (changed : Z) : Z :=
  if 100 <? changed then 300
  else if 50 <? changed then 240
  else if 20 <? changed then 180
  else 120.

Section Hashing.
(** [hashlib.md5(content).hexdigest()], [str] of an [int] and of a
    [float]. *)
Variable md5_hexdigest : string -> string.
Variable str_int : Z -> string.
Variable str_float : Q -> string.

(** [_hash_file]: every exception ends in the value ["error"]. *)
Definition _hash_file (f : PathEntry) : string :=
  match stat f with
  | None => "error"
  | Some s =>
      if 1000000 <? st_size s
      then str_int (st_size s) ++ "_" ++ str_float (st_mtime s)
      else match bytes f with
           | None => "error"
           | Some content => md5_hexdigest content
           end
  end.

(** The body of the loop of [get_changed_files] for one path, on the set
    [changed] and on [self.file_hashes].  [_hash_file] and [relative_to]
    never raise here, so the handler of the loop is never entered. *)
Definition scan_path (acc : gset string * gmap string string) (f : PathEntry)
  : gset string * gmap string string :=
  if negb (is_file f) then acc
  else if scan_ignored (parts f) then acc
  else
    let file_hash := _hash_file f in
    if decide (acc.2 !! rel_path f = Some file_hash) then acc
    else ({[path f]} ∪ acc.1, <[rel_path f := file_hash]> acc.2).

(** [get_changed_files]: the returned set and the state after the call. *)
Definition get_changed_files (st : State) (p : Project) : gset string * State :=
  let last_scan_time := match last_scan_mtime st with Some t => t | None => 0%Q end in
  if Qle_bool (root_mtime p) last_scan_time then (∅, st)
  else
    let '(changed, hashes) := fold_left scan_path (tree p) (∅, file_hashes st) in
    (changed, mkState (Some (root_mtime p)) (last_run st) hashes).

(** [has_file_changes] *)
Definition has_file_changes (st : State) (p : Project) : bool * State :=
  let '(changed, st') := get_changed_files st p in
  (bool_decide (0 < size changed)%nat, st').

(** [should_skip_hooks]: the pair it returns and the state after the call. *)
Definition should_skip_hooks (prompt : string) (st : State) (p : Project)
  : (bool * string) * State :=
  let prompt_lower := strip (lower prompt) in
  if (String.length prompt <? 20)%nat then ((true, "prompt too short"), st)
  else
    match List.find (fun pattern => startswith prompt_lower pattern) SKIP_PATTERNS with
    | Some pattern => ((true, "simple question pattern: " ++ pattern), st)
    | None =>
        match List.find (fun pattern => contains pattern prompt_lower) FULL_BAND_PATTERNS with
        | Some pattern => ((false, "complex task detected: " ++ pattern), st)
        | None =>
            if contains "why" prompt_lower || contains "explain" prompt_lower
            then
              let '(has_changes, st') := has_file_changes st p in
              if negb has_changes
              then ((true, "explanatory question without file changes"), st')
              else ((false, "default: run hooks"), st')
            else ((false, "default: run hooks"), st)
        end
    end.

(** [get_execution_plan], [now] being [time.time()]. *)
Definition get_execution_plan (prompt : string) (now : Q) (st : State) (p : Project)
  : Plan * State :=
  let '((should_skip, _), st1) := should_skip_hooks prompt st p in
  if should_skip then (mkPlan false 0 0, st1)
  else
    let '(changed, st2) := get_changed_files st1 p in
    let timeout := get_adaptive_timeout p in
    (mkPlan true timeout (size changed),
     mkState (last_scan_mtime st2) (Some now) (file_hashes st2)).

(** *** Vocabulary of the properties *)

(** The fingerprint of a readable file: size and mtime over 1 MB, the
    content hash otherwise. *)
Definition fingerprint (f : PathEntry) (h : string) : Prop :=
  exists s, stat f = Some s /\
    ((1000000 < st_size s /\ h = str_int (st_size s) ++ "_" ++ str_float (st_mtime s)) \/
     (st_size s <= 1000000 /\ exists content, bytes f = Some content /\
                                              h = md5_hexdigest content)).

(** A file whose [stat()] or [read_bytes()] raises when it is hashed. *)
Definition unreadable (f : PathEntry) : bool :=
  match stat f with
  | None => true
  | Some s =>
      if 1000000 <? st_size s then false
      else match bytes f with None => true | Some _ => false end
  end.

(** The files a scan looks at. *)
Definition scanned (f : PathEntry) : bool :=
  is_file f && negb (scan_ignored (parts f)).

(** The decision of [should_skip_hooks]: what the prompt decides alone, or
    what is left to the presence of changes. *)
Inductive PromptKind : Type := Skip | Run | SkipUnlessChanges.

Definition prompt_kind (prompt : string) : PromptKind :=
  let prompt_lower := strip (lower prompt) in
  if (String.length prompt <? 20)%nat then Skip
  else
    match List.find (fun pattern => startswith prompt_lower pattern) SKIP_PATTERNS with
    | Some _ => Skip
    | None =>
        match List.find (fun pattern => contains pattern prompt_lower) FULL_BAND_PATTERNS with
        | Some _ => Run
        | None =>
            if contains "why" prompt_lower || contains "explain" prompt_lower
            then SkipUnlessChanges else Run
        end
    end.

(** The volume of change of a run: the files a scan finds changed. *)
Definition change_volume (st : State) (p : Project) : nat :=
  size (fst (get_changed_files st p)).
End Hashing.
End Orchestrator.

(** ** smart_orchestrator.py: project size, light mode and the agents *)

Module Selection.
Import Py Orchestrator.

(** The suffixes whose files [get_project_size] reads to count lines. *)
Definition COUNTED_SUFFIXES : list string :=
  [".py"; ".js"; ".ts"; ".tsx"; ".jsx"; ".md"; ".txt"; ".json"; ".yaml"; ".yml"].

(** The words by which a prompt asks for Paul. *)
Definition PAUL_WORDS : list string := ["paul"; "wild idea"; "creative perspective"].

Definition ALL_AGENTS : list string := ["john"; "george"; "pete"; "paul"; "ringo"].

(** The truth value of [self.cache.get("last_run")]: a missing key and the
    number zero are false. *)
Definition truthy (t : option Q) : bool :=
  match t with
  | Some q => negb (Qeq_bool q 0)
  | None => false
  end.

Section Size.
(** [len(file_path.read_text().splitlines())]; [None] when [read_text]
    raises, which [get_project_size] passes over. *)
Variable text_lines : PathEntry -> option nat.

(** [get_project_size()[1]]: the lines counted. *)
Definition total_lines (p : Project) : nat :=
  fold_left (fun n f =>
    if negb (is_file f) then n
    else if size_ignored (parts f) then n
    else if mem (suffix (path f)) COUNTED_SUFFIXES
         then match text_lines f with Some l => (n + l)%nat | None => n end
         else n) (tree p) O.

(** [get_project_size] *)
Definition get_project_size (p : Project) : nat * nat := (file_count p, total_lines p).

(** [should_use_light_mode], [now] being [time.time()]. *)
Definition should_use_light_mode (now : Q) (st : State) (p : Project) : bool :=
  let '(file_count, total_lines) := get_project_size p in
  if (500 <? file_count)%nat || (50000 <? Z.of_nat total_lines) then true
  else if truthy (last_run st)
       then match last_run st with
            | Some t => negb (Qle_bool (300 # 1) (now - t))
            | None => false
            end
       else false.

(** [select_agents] *)
Definition select_agents (prompt : string) (changed_files : gset string) (st : State)
  : list string :=
  let prompt_lower := lower prompt in
  let agents :=
    (["ringo"]
     ++ (if negb (bool_decide (changed_files = ∅)) || contains "structure" prompt_lower
            || contains "files" prompt_lower
         then ["john"] else [])
     ++ (if (100 <? String.length prompt)%nat || contains "previous" prompt_lower
            || contains "we discussed" prompt_lower
         then ["george"] else [])
     ++ (if existsb (fun pattern => contains pattern prompt_lower) FULL_BAND_PATTERNS
         then ["pete"] else [])
     ++ (if existsb (fun word => contains word prompt_lower) PAUL_WORDS
         then ["paul"] else []))%list in
  if (length agents =? 1)%nat
     && (negb (truthy (last_run st)) || (10 <? size changed_files)%nat)
  then ALL_AGENTS
  else agents.

(** The agents of a plan in light mode. *)
Definition light_agents (prompt : string) : list string :=
  "ringo" ::
  (if contains "code" (lower prompt) || contains "implement" (lower prompt) then ["pete"]
   else if contains "structure" (lower prompt) then ["john"]
   else ["george"]).

Section Plan.
Variable md5_hexdigest : string -> string.
Variable str_int : Z -> string.
Variable str_float : Q -> string.

(** The keys [agents] and [light_mode] of the dict that
    [get_execution_plan] returns; [now] is the clock that
    [should_use_light_mode] reads. *)
Definition execution_plan_agents (prompt : string) (now : Q) (st : State) (p : Project)
  : list string * bool :=
  let '((should_skip, _), st1) :=
    should_skip_hooks md5_hexdigest str_int str_float prompt st p in
  if should_skip then ([], true)
  else
    let '(changed, st2) := get_changed_files md5_hexdigest str_int str_float st1 p in
    let light_mode := should_use_light_mode now st2 p in
    (if light_mode then light_agents prompt else select_agents prompt changed st2,
     light_mode).
End Plan.
End Size.

(** The tests of [select_agents] on a prompt. *)
Definition wants_john (prompt : string) : bool :=
  contains "structure" (lower prompt) || contains "files" (lower prompt).
Definition wants_george (prompt : string) : bool :=
  (100 <? String.length prompt)%nat || contains "previous" (lower prompt)
  || contains "we discussed" (lower prompt).
Definition wants_pete (prompt : string) : bool :=
  existsb (fun pattern => contains pattern (lower prompt)) FULL_BAND_PATTERNS.
Definition wants_paul (prompt : string) : bool :=
  existsb (fun word => contains word (lower prompt)) PAUL_WORDS.
End Selection.

(** ** Concrete inputs *)

(** *** Graphs for signature changes and impact *)

Module ImpactExamples.
Import Py Gilfoyle.

(** A file system on which every path parses to [p]. *)
Definition parses_to (p : Parsed) : string -> Parsed := fun _ => p.

Definition fn (name sig : string) (line : Z) : DefinitionRecord :=
  mkDef name "function" (Some sig) line.

(** Two classes with a method [f] each. *)
Definition two_methods_old : Entry :=
  mkEntry [] [mkDef "X" "class" (Some "class X") 1; fn "f" "f(a)" 2;
              mkDef "Y" "class" (Some "class Y") 4; fn "f" "f(a, b)" 5]
          [] "python" [].

Definition two_methods_new : Parsed :=
  mkParsed [] [mkDef "X" "class" (Some "class X") 1; fn "f" "f(a, b)" 2;
               mkDef "Y" "class" (Some "class Y") 4; fn "f" "f(a, b)" 5] [].

Definition one_def_old : Entry := mkEntry [] [fn "f" "f(a)" 1] [] "python" [].
Definition one_def_new : Parsed := mkParsed [] [fn "f" "f(a, b)" 1] [].

(** [A.py] defines [helper] and [other]; [B.py] calls both. *)
Definition eA (changes : list SignatureChange) : Entry :=
  mkEntry [] [fn "helper" "helper(x)" 1; fn "other" "other(x, y)" 3] []
          "python" changes.
Definition eB : Entry := mkEntry [] [] ["helper"; "other"] "python" [].
Definition graph_AB (changes : list SignatureChange) : Graph :=
  [("A.py", eA changes); ("B.py", eB)].
End ImpactExamples.

(** *** Graphs for cycles, monitors *)

Module CycleExamples.
Import Py Gilfoyle.

Definition importing (lang : string) (l : list string) : Entry :=
  mkEntry l [] [] lang [].

(** Python modules importing each other by module name. *)
Definition py_cycle : Graph :=
  [("a.py", importing "python" ["b"]); ("b.py", importing "python" ["c"]);
   ("c.py", importing "python" ["a"])].

Definition py_chain : Graph :=
  [("a.py", importing "python" ["b"]); ("b.py", importing "python" ["c"]);
   ("c.py", importing "python" [])].

(** ECMAScript modules importing each other by relative path. *)
Definition js_cycle : Graph :=
  [("a.js", importing "javascript" ["./b"]);
   ("b.js", importing "javascript" ["./c"]);
   ("c.js", importing "javascript" ["./a"])].

(** A chain inside a package directory; [b.py] imports through the
    package name ([from src import c]). *)
Definition src_chain : Graph :=
  [("src/a.py", importing "python" ["b"]);
   ("src/b.py", importing "python" ["src"]);
   ("src/c.py", importing "python" [])].

(** The adjacency lists of a graph under an edge test. *)
Definition adjacency (test : Graph -> string -> string -> bool) (g : Graph)
  : list (string * list string) :=
  map (fun x => (x, List.filter (test g x) (dict_keys g))) (dict_keys g).

(** [n] impacted files of severity [sev] for one changed file. *)
Definition impacts (n : nat) (sev : string) : odict Impact :=
  map (fun i => (String (ascii_of_nat (97 + i)) ".py", mkImpact ["imports"] sev))
      (seq 0 n).

Definition monitor (n : nat) : Monitor :=
  mkMonitor [("core.py", importing "python" [])] ["core.py"]
            [("core.py", impacts n "medium")].
End CycleExamples.

(** *** Kernels *)

Module LockExamples.
Import Py AgentLock.

Definition pid_text : string := "4242".
Definition time_text : string := "1000.0".
Definition empty_kernel : Kernel := mkKernel ∅ ∅ ∅.

(** Three processes and the lock file of ["john"].  The first process holds
    the lock.  The second one calls [acquire] and has opened the lock file
    when the first one calls [release]; then a third one calls [acquire];
    then the call of the second one goes on.  The result: what the second
    and the third call return, the descriptions they keep, and the lock
    holder of every file the kernel still has. *)
Definition unlink_race
  : option bool * bool * option nat * option nat * list (nat * option nat) :=
  let '(k1, _, fd1) := acquire pid_text time_text "john" empty_kernel in
  let '(k2, second) := acquire_step pid_text time_text "john" k1 Start in
  let '(k3, _) := release "john" k2 fd1 in
  let '(k4, third, fd3) := acquire pid_text time_text "john" k3 in
  let '(k5, second) := acquire_step pid_text time_text "john" k4 second in
  let '(k6, second) := acquire_step pid_text time_text "john" k5 second in
  (result second, third, holding second, fd3,
   map (fun kv => (fst kv, flock (snd kv))) (map_to_list (inodes k6))).

(** A directory with a stale record (written at time 100), a fresh record
    (written at time 950) and a record whose lock is held. *)
Definition float_of_text (s : string) : option PyFloat :=
  if String.eqb s "100.0" then Some (Finite (100 # 1))
  else if String.eqb s "950.0" then Some (Finite (950 # 1))
  else None.

Definition now (_ : string) : Q := 1000 # 1.

Definition three_records : Kernel :=
  mkKernel
    (<["john.lock" := 0%nat]> (<["pete.lock" := 1%nat]> (<["marie.lock" := 2%nat]> ∅)))
    (<[0%nat := mkInode ["11"; "100.0"] None]>
       (<[1%nat := mkInode ["12"; "950.0"] None]>
          (<[2%nat := mkInode ["13"; "100.0"] (Some 7%nat)]> ∅)))
    (<[7%nat := 2%nat]> ∅).

Definition lock_files : list string := ["john.lock"; "pete.lock"; "marie.lock"].
End LockExamples.

(** *** Projects *)

Module ScanExamples.
Import Py Orchestrator.

(** Stand-ins for the library functions; the facts below do not depend on
    the values they give. *)
Definition md5 (content : string) : string := "md5:" ++ content.
Definition str_int (_ : Z) : string := "size".
Definition str_float (_ : Q) : string := "mtime".

Definition file (rel content : string) (mtime : Q) : PathEntry :=
  mkPath ("/proj/" ++ rel) ("/" :: "proj" :: split "/" rel) rel true
         (Some (mkStat (Z.of_nat (String.length content)) mtime)) (Some content).

(** A file whose [read_bytes()] is refused. *)
Definition secret : PathEntry :=
  mkPath "/proj/secret.key" ["/"; "proj"; "secret.key"] "secret.key" true
         (Some (mkStat 64 (3 # 1))) None.

Definition a_py : PathEntry := file "a.py" "print(1)" (5 # 1).
Definition a_py_edited : PathEntry := file "a.py" "print(2)" (15 # 1).
Definition new_py : PathEntry := file "sub/new.py" "x = 1" (16 # 1).

Definition start : State := mkState None None ∅.

(** The project when it is first scanned. *)
Definition project_1 : Project := mkProject (10 # 1) [a_py; secret].

(** Later: a file came and went at the root, nothing else changed. *)
Definition project_2 : Project := mkProject (20 # 1) [a_py; secret].

(** Later, instead: [a.py] was edited and [sub/new.py] created; neither
    touches the mtime of the root directory. *)
Definition project_3 : Project := mkProject (10 # 1) [a_py_edited; secret; new_py].

Definition scan_1 : gset string * State :=
  get_changed_files md5 str_int str_float start project_1.
Definition scan_2 : gset string * State :=
  get_changed_files md5 str_int str_float (snd scan_1) project_2.
Definition scan_3 : gset string * State :=
  get_changed_files md5 str_int str_float (snd scan_1) project_3.

Definition why_prompt : string := "tell me why this test keeps failing".
End ScanExamples.

(** *** Further inputs *)

Module MoreExamples.
Import Py Gilfoyle AgentLock Orchestrator.

(** A module that imports [os] and has [os] in its own path. *)
Definition os_utils : Graph :=
  [("utils/os_utils.py", CycleExamples.importing "python" ["os"])].

(** The one definition of [ImpactExamples.one_def_old], six lines lower. *)
Definition moved_def : Parsed := mkParsed [] [ImpactExamples.fn "f" "f(a)" 7] [].

(** [app.py] imports [core]; [doc.py] has nothing to do with it. *)
Definition graph_import : Graph :=
  [("core.py", mkEntry [] [ImpactExamples.fn "run" "run()" 1] [] "python" []);
   ("app.py", mkEntry ["core"] [] [] "python" []);
   ("doc.py", mkEntry ["os"] [] ["print"] "python" [])].

(** The work of a worker that leaves the kernel alone. *)
Definition work (k : Kernel) : Kernel * string := (k, "done").

(** The workers of the three lock files of [LockExamples.three_records]. *)
Definition workers : list string := ["john"; "pete"; "marie"].

(** One changed file, and eleven. *)
Definition one_changed : gset string := {["/proj/a.py"]}.
Definition many_changed : gset string :=
  list_to_set (map (fun i => String (ascii_of_nat (97 + i)) ".py") (seq 0 11)).

Definition build_prompt : string := "implement the new parser module".

(** No file can be read as text. *)
Definition no_text (_ : PathEntry) : option nat := None.
End MoreExamples.

(** *** Inputs at the edges *)

Module EdgeExamples.
Import Py Gilfoyle AgentLock Orchestrator.

(** A class [X] with a method [f]; then a class [Y] is added, with a method
    of the same name and another signature. *)
Definition added_method_old : Entry :=
  mkEntry [] [mkDef "X" "class" (Some "class X") 1; ImpactExamples.fn "f" "f(a)" 2]
          [] "python" [].
Definition added_method_new : Parsed :=
  mkParsed [] [mkDef "X" "class" (Some "class X") 1; ImpactExamples.fn "f" "f(a)" 2;
               mkDef "Y" "class" (Some "class Y") 4; ImpactExamples.fn "f" "f(a, b)" 5] [].

(** [lib/Core.py] defines [run]; [app.py] imports it in capitals;
    [doc.py] has nothing to do with it. *)
Definition graph_case : Graph :=
  [("lib/Core.py", mkEntry [] [ImpactExamples.fn "run" "run()" 1] [] "python" []);
   ("app.py", mkEntry ["CORE.utils"] [] [] "python" []);
   ("doc.py", mkEntry ["os"] [] ["print"] "python" [])].

Definition idea_prompt : string := "give me a wild idea".

(** One changed file that impacts no file, in a graph where it imports a
    name that occurs in its own path. *)
Definition self_import_monitor : Monitor :=
  mkMonitor MoreExamples.os_utils ["utils/os_utils.py"] [("utils/os_utils.py", [])].

(** Six impacted files of severity medium, no signature change, in a graph
    with an import cycle. *)
Definition cycle_monitor : Monitor :=
  mkMonitor CycleExamples.py_cycle ["a.py"] [("a.py", CycleExamples.impacts 6 "medium")].

(** One changed file that impacts no file and whose entry lists a signature
    change; no cycle. *)
Definition signature_monitor : Monitor :=
  mkMonitor
    [("core.py", mkEntry [] [ImpactExamples.fn "run" "run(x)" 1] [] "python"
                         [mkChange "run" "run()" "run(x)"])]
    ["core.py"] [("core.py", [])].
(** A project of 101 files, and the state after a first scan of it, made
    when the mtime of its root was 10. *)
Definition many_files (root : Q) : Project :=
  mkProject root
    (map (fun i => ScanExamples.file (String.concat "" (repeat "x" (S i)) ++ ".py")
                     "pass" (1 # 1))
         (seq 0 101)).

Definition scanned_before : State :=
  snd (get_changed_files ScanExamples.md5 ScanExamples.str_int ScanExamples.str_float
         ScanExamples.start (many_files (10 # 1))).
(** Reclamation racing with two callers of [acquire].  The lock file of
    [john] in [LockExamples.three_records] is stale and nobody holds it.
    [cleanup_stale_locks], with a threshold of 600 seconds, opens it, probes
    it, drops the probe lock and reads its lines; then a process calls
    [acquire] for [john]; then the reclamation goes on with its age test,
    [unlink] and [close]; then another process calls [acquire] for [john].
    The result: where the reclamation stood when the first caller came;
    what that caller got, the holder and the lines of the lock file when it
    had returned; the directory entry when the reclamation had ended; what
    the second caller got; and the holders, at the end, of the old file
    and of the file that the name then names. *)
Definition reclaim_race
  : Reclaim.Cleanup * (bool * option nat * option nat * list string)
    * (option nat * Reclaim.Cleanup) * (bool * option nat)
    * (option (option nat) * option nat) :=
  let '(k1, pc1) :=
    Reclaim.cleanup_steps LockExamples.float_of_text LockExamples.now 4 600
      "john.lock" LockExamples.three_records Reclaim.Begin in
  let '(k2, second, fd2) :=
    acquire LockExamples.pid_text LockExamples.time_text "john.lock" k1 in
  let '(k3, pc3) :=
    Reclaim.cleanup_steps LockExamples.float_of_text LockExamples.now 2 600
      "john.lock" k2 pc1 in
  let '(k4, third, fd4) :=
    acquire LockExamples.pid_text LockExamples.time_text "john.lock" k3 in
  (pc1,
   (second, fd2, holder k2 "john.lock",
    match inodes k2 !! 0%nat with Some ino => content ino | None => [] end),
   (dir k3 !! "john.lock", pc3),
   (third, fd4),
   (option_map flock (inodes k4 !! 0%nat), holder k4 "john.lock")).
End EdgeExamples.

(** * Part II: properties *)

#[local] Set Warnings "-clear-no-such-hyp".

(** ** Facts about the Python built-ins *)

Section PyFacts.
Import Py.
Context {V : Type}.
Implicit Types (d : odict V) (k : string) (v : V).

Lemma mem_In x (l : list string) : mem x l = true <-> In x l.
Proof.
  unfold mem. rewrite existsb_exists. split.
  - intros (y & Hy & E). apply String.eqb_eq in E. now subst.
  - intros H. exists x. split; [assumption | apply String.eqb_refl].
Qed.

Lemma mem_false x (l : list string) : mem x l = false <-> ~ In x l.
Proof. rewrite <- mem_In. destruct (mem x l); split; congruence. Qed.

Lemma dict_get_In k v d : dict_get k d = Some v -> In (k, v) d.
Proof.
  induction d as [|[k' v'] d IH]; simpl; [discriminate|].
  destruct (String.eqb_spec k k') as [->|Hne].
  - intros [= ->]. now left.
  - intros H. right. auto.
Qed.

Lemma dict_get_None k d : dict_get k d = None <-> ~ In k (dict_keys d).
Proof.
  induction d as [|[k' v'] d IH]; simpl; [tauto|].
  destruct (String.eqb_spec k k') as [->|Hne].
  - split; [discriminate | intros H; exfalso; apply H; now left].
  - rewrite IH. split; [intros H [E|E]; [congruence | tauto] | tauto].
Qed.

Lemma dict_get_Some_key k v d : dict_get k d = Some v -> In k (dict_keys d).
Proof. intros H. apply dict_get_In in H. apply (in_map fst) in H. exact H. Qed.

Lemma In_dict_get k v d : is_dict d -> In (k, v) d -> dict_get k d = Some v.
Proof.
  unfold is_dict, dict_keys.
  induction d as [|[k' v'] d IH]; simpl; [tauto|].
  intros Hnd [E|Hin].
  - injection E as -> ->. now rewrite String.eqb_refl.
  - apply NoDup_cons_iff in Hnd as [Hk Hnd].
    destruct (String.eqb_spec k k') as [->|Hne].
    + exfalso. apply Hk. apply (in_map fst) in Hin. exact Hin.
    + auto.
Qed.

Lemma dict_get_set k' k v d :
  dict_get k' (dict_set k v d) = if String.eqb k' k then Some v else dict_get k' d.
Proof.
  induction d as [|[k0 v0] d IH]; simpl.
  - reflexivity.
  - destruct (String.eqb_spec k k0) as [->|Hne]; simpl.
    + destruct (String.eqb_spec k' k0); reflexivity.
    + rewrite IH. destruct (String.eqb_spec k' k0) as [->|]; [|reflexivity].
      destruct (String.eqb_spec k0 k); congruence.
Qed.

Lemma dict_keys_set k' k v d :
  In k' (dict_keys (dict_set k v d)) <-> k' = k \/ In k' (dict_keys d).
Proof.
  unfold dict_keys. induction d as [|[k0 v0] d IH]; simpl.
  - intuition congruence.
  - destruct (String.eqb_spec k k0) as [->|Hne]; simpl.
    + intuition congruence.
    + rewrite IH. intuition congruence.
Qed.

Lemma dict_set_is_dict k v d : is_dict d -> is_dict (dict_set k v d).
Proof.
  unfold is_dict. induction d as [|[k0 v0] d IH]; simpl.
  - intros _. repeat constructor. simpl. tauto.
  - intros Hnd. apply NoDup_cons_iff in Hnd as [Hk Hnd].
    destruct (String.eqb_spec k k0) as [->|Hne]; simpl.
    + constructor; assumption.
    + constructor; [|auto].
      intros Hin. apply dict_keys_set in Hin as [E|Hin]; [congruence | tauto].
Qed.

Lemma fold_set_is_dict (kvs : list (string * V)) d :
  is_dict d -> is_dict (fold_left (fun d kv => dict_set (fst kv) (snd kv) d) kvs d).
Proof.
  revert d. induction kvs as [|kv kvs IH]; simpl; intros d Hd; [assumption|].
  apply IH. now apply dict_set_is_dict.
Qed.

Lemma dict_of_is_dict (kvs : list (string * V)) : is_dict (dict_of kvs).
Proof. apply fold_set_is_dict. constructor. Qed.

Lemma fold_set_get (kvs : list (string * V)) d k :
  dict_get k (fold_left (fun d kv => dict_set (fst kv) (snd kv) d) kvs d) =
  match dict_get k (rev kvs) with Some v => Some v | None => dict_get k d end.
Proof.
  revert d. induction kvs as [|[k0 v0] kvs IH]; simpl; intros d; [reflexivity|].
  rewrite IH. clear IH. simpl.
  assert (Happ : forall l : odict V, dict_get k (l ++ [(k0, v0)])%list =
            match dict_get k l with Some v => Some v
            | None => if String.eqb k k0 then Some v0 else None end).
  { induction l as [|[k1 v1] l IHl]; simpl; [reflexivity|].
    destruct (String.eqb k k1); [reflexivity | apply IHl]. }
  rewrite Happ, dict_get_set.
  destruct (dict_get k (rev kvs)); [reflexivity|].
  destruct (String.eqb k k0); reflexivity.
Qed.

(** A comprehension maps a key to the value of its last pair. *)
Lemma dict_of_get_last (pre post : list (string * V)) k v :
  ~ In k (map fst post) -> dict_get k (dict_of (pre ++ (k, v) :: post)%list) = Some v.
Proof.
  intros Hpost. unfold dict_of. rewrite fold_set_get. simpl.
  rewrite rev_app_distr. simpl. rewrite <- app_assoc. simpl.
  assert (Hrev : dict_get k (rev post ++ (k, v) :: rev pre)%list = Some v).
  { assert (Hin : ~ In k (map fst (rev post))).
    { rewrite map_rev. intros H. apply in_rev in H. tauto. }
    induction (rev post) as [|[k1 v1] l IHl]; simpl in *.
    - now rewrite String.eqb_refl.
    - destruct (String.eqb_spec k k1) as [->|]; [tauto|]. apply IHl. tauto. }
  now rewrite Hrev.
Qed.

Lemma dict_of_get_key (kvs : list (string * V)) k v :
  dict_get k (dict_of kvs) = Some v -> In k (map fst kvs).
Proof.
  unfold dict_of. rewrite fold_set_get. simpl.
  destruct (dict_get k (rev kvs)) as [v'|] eqn:E; [|discriminate].
  intros _. apply dict_get_Some_key in E. unfold dict_keys in E.
  rewrite map_rev in E. now apply in_rev in E.
Qed.

(** In a dictionary, the item of a key splits the item list. *)
Lemma is_dict_split k v d :
  is_dict d -> dict_get k d = Some v ->
  exists d1 d2, d = (d1 ++ (k, v) :: d2)%list /\
                ~ In k (dict_keys d1) /\ ~ In k (dict_keys d2).
Proof.
  unfold is_dict, dict_keys.
  induction d as [|[k0 v0] d IH]; simpl; [discriminate|].
  intros Hnd. apply NoDup_cons_iff in Hnd as [Hk Hnd].
  destruct (String.eqb_spec k k0) as [->|Hne].
  - intros [= ->]. exists [], d. simpl. tauto.
  - intros Hget. destruct (IH Hnd Hget) as (d1 & d2 & -> & H1 & H2).
    exists ((k0, v0) :: d1), d2. simpl. intuition congruence.
Qed.
End PyFacts.

Lemma set_of_In x (l : list string) : In x (Py.set_of l) <-> In x l.
Proof. unfold Py.set_of. apply nodup_In. Qed.

Lemma set_and_In x (a b : list string) : In x (Py.set_and a b) <-> In x a /\ In x b.
Proof.
  unfold Py.set_and. rewrite filter_In, set_of_In, mem_In. tauto.
Qed.

Lemma contains_prefix (p s : string) : String.prefix p s = true -> Py.contains p s = true.
Proof. intros H. destruct s; simpl in *; now rewrite H. Qed.

(** ** Signature changes and impact propagation *)

Section ImpactFacts.
Import Py Gilfoyle.
Variable set_order : list string -> list string.

Lemma sigs_of_recorded defs f s :
  sig_recorded defs f s -> dict_get f (sigs_of defs) = Some s.
Proof.
  intros (pre & d & post & -> & <- & <- & Hpost).
  unfold sigs_of. rewrite map_app. simpl.
  apply dict_of_get_last. rewrite map_map. simpl.
  intros Hin. apply in_map_iff in Hin as (d' & E & Hd').
  rewrite Forall_forall in Hpost. now apply (Hpost d').
Qed.

Lemma sigs_of_key defs f s :
  dict_get f (sigs_of defs) = Some s -> In f (map def_name defs).
Proof.
  intros H. apply dict_of_get_key in H. now rewrite map_map in H.
Qed.

Lemma dict_get_first {V : Type} (k : string) (v : V) (l : odict V) :
  dict_get k l = Some v ->
  exists pre post, l = (pre ++ (k, v) :: post)%list /\ ~ In k (map fst pre).
Proof.
  induction l as [|[k' v'] l IH]; simpl; [discriminate|].
  destruct (String.eqb_spec k k') as [->|Hne].
  - intros [= ->]. exists [], l. split; [reflexivity | intros []].
  - intros H. destruct (IH H) as (pre & post & -> & Hpre).
    exists ((k', v') :: pre), post. split; [reflexivity|].
    simpl. intros [E|Hin]; [congruence | contradiction].
Qed.

(** The text that the name-keyed dict holds for [f] is that of the last
    definition named [f]. *)
Lemma sigs_of_recorded_inv defs f s :
  dict_get f (sigs_of defs) = Some s -> sig_recorded defs f s.
Proof.
  unfold sigs_of, dict_of. rewrite fold_set_get. cbn [dict_get].
  destruct (dict_get f (rev (map (fun d => (def_name d, signature_of d)) defs)))
    as [v|] eqn:E; [|discriminate].
  intros [= ->]. apply dict_get_first in E as (pre & post & E & Hpre).
  apply (f_equal (@rev _)) in E. rewrite rev_involutive, rev_app_distr in E.
  cbn [rev] in E. rewrite <- app_assoc in E. cbn [app] in E.
  apply map_eq_app in E as (d1 & d2 & -> & _ & E).
  apply map_eq_cons in E as (d & d3 & -> & Hd & Hd3).
  injection Hd as Hname Hsig.
  exists d1, d, d3. split; [reflexivity|]. split; [assumption|]. split; [assumption|].
  apply Forall_forall. intros d' Hd' Hn. apply Hpre.
  apply (in_map (fun d => (def_name d, signature_of d))) in Hd'.
  rewrite Hd3 in Hd'. apply in_rev in Hd'. apply (in_map fst) in Hd'.
  cbn [fst] in Hd'. now rewrite Hn in Hd'.
Qed.

Lemma changed_sigs_names old_sigs new_sigs c :
  In c (changed_sigs old_sigs new_sigs) ->
  In (sc_name c, sc_new c) new_sigs /\ dict_get (sc_name c) old_sigs = Some (sc_old c).
Proof.
  unfold changed_sigs. rewrite in_flat_map. intros ([k v] & Hin & Hc). simpl in Hc.
  destruct (dict_get k old_sigs) as [old|] eqn:E; [|contradiction].
  destruct (String.eqb old v); [contradiction|].
  destruct Hc as [<-|[]]. simpl. auto.
Qed.

Lemma changed_sigs_skip old_sigs (l : odict string) f :
  ~ In f (dict_keys l) ->
  List.filter (fun c => String.eqb (sc_name c) f) (changed_sigs old_sigs l) = [].
Proof.
  induction l as [|[k v] l IH]; simpl; [reflexivity|]. intros Hk.
  unfold changed_sigs in *. simpl. rewrite filter_app, IH by tauto.
  rewrite app_nil_r.
  destruct (dict_get k old_sigs) as [old|]; [|reflexivity].
  destruct (String.eqb old v); [reflexivity|]. simpl.
  destruct (String.eqb_spec k f) as [->|]; [tauto | reflexivity].
Qed.

(** The entries of one name: one, when its old and new texts differ. *)
Lemma changed_sigs_one old_sigs new_sigs f so sn :
  is_dict new_sigs ->
  dict_get f old_sigs = Some so -> dict_get f new_sigs = Some sn -> so <> sn ->
  List.filter (fun c => String.eqb (sc_name c) f) (changed_sigs old_sigs new_sigs)
  = [mkChange f so sn].
Proof.
  intros Hd Hold Hnew Hne.
  destruct (is_dict_split _ _ _ Hd Hnew) as (d1 & d2 & -> & H1 & H2).
  unfold changed_sigs. rewrite flat_map_app, filter_app. simpl.
  rewrite filter_app.
  fold (changed_sigs old_sigs d1). fold (changed_sigs old_sigs d2).
  rewrite !changed_sigs_skip by assumption.
  rewrite Hold. destruct (String.eqb_spec so sn); [contradiction|].
  simpl. now rewrite String.eqb_refl.
Qed.

(** Reasons of one other file. *)
Lemma severity_of_calls_modified pre names :
  severity_of (pre ++ [("calls_modified: " ++ names)%string])%list = "high".
Proof.
  unfold severity_of. rewrite existsb_app. simpl.
  rewrite orb_true_r. reflexivity.
Qed.

Lemma contains_modified_calls s :
  contains "modified" ("calls: " ++ s) = contains "modified" s.
Proof. reflexivity. Qed.

Lemma severity_of_calls pre names :
  (pre = [] \/ pre = ["imports"]) ->
  contains "modified" names = false ->
  severity_of (pre ++ [("calls: " ++ names)%string])%list = "medium".
Proof.
  intros Hpre Hnames. unfold severity_of. rewrite existsb_app.
  assert (existsb (contains "modified") pre = false) as ->
    by (destruct Hpre as [->| ->]; reflexivity).
  cbn [existsb orb]. rewrite contains_modified_calls, Hnames. reflexivity.
Qed.

Lemma fold_impacted_keys changed names sigs (g : Graph) acc k :
  In k (dict_keys
    (fold_left (fun impacted item =>
       let '(filepath, data) := item in
       if String.eqb filepath changed then impacted
       else
         match impact_reasons set_order changed names sigs data with
         | [] => impacted
         | rs => dict_set filepath (mkImpact rs (severity_of rs)) impacted
         end) g acc)) ->
  In k (dict_keys acc) \/ (In k (dict_keys g) /\ k <> changed).
Proof.
  revert acc. induction g as [|[fp data] g IH]; simpl; intros acc H; [tauto|].
  apply IH in H. destruct H as [H|H]; [|tauto].
  destruct (String.eqb_spec fp changed) as [->|Hne]; [tauto|].
  destruct (impact_reasons set_order changed names sigs data); [tauto|].
  apply dict_keys_set in H. destruct H as [->|H]; tauto.
Qed.

Lemma fold_impacted_get changed names sigs (g : Graph) acc k :
  ~ In k (dict_keys g) ->
  dict_get k
    (fold_left (fun impacted item =>
       let '(filepath, data) := item in
       if String.eqb filepath changed then impacted
       else
         match impact_reasons set_order changed names sigs data with
         | [] => impacted
         | rs => dict_set filepath (mkImpact rs (severity_of rs)) impacted
         end) g acc) = dict_get k acc.
Proof.
  revert acc. induction g as [|[fp data] g IH]; simpl; intros acc H; [reflexivity|].
  rewrite IH by tauto.
  destruct (String.eqb fp changed); [reflexivity|].
  destruct (impact_reasons set_order changed names sigs data); [reflexivity|].
  rewrite dict_get_set. destruct (String.eqb_spec k fp); [intuition congruence | reflexivity].
Qed.

(** The entry of an other file [k] of the graph in the returned dict. *)
Lemma fold_impacted_entry changed names sigs (g : Graph) acc k data :
  is_dict g -> In (k, data) g -> k <> changed ->
  impact_reasons set_order changed names sigs data <> [] ->
  dict_get k
    (fold_left (fun impacted item =>
       let '(filepath, data) := item in
       if String.eqb filepath changed then impacted
       else
         match impact_reasons set_order changed names sigs data with
         | [] => impacted
         | rs => dict_set filepath (mkImpact rs (severity_of rs)) impacted
         end) g acc)
  = Some (mkImpact (impact_reasons set_order changed names sigs data)
                   (severity_of (impact_reasons set_order changed names sigs data))).
Proof.
  unfold is_dict, dict_keys. revert acc.
  induction g as [|[fp d0] g IH]; simpl; intros acc Hnd Hin Hne Hrs; [tauto|].
  apply NoDup_cons_iff in Hnd as [Hfp Hnd].
  destruct Hin as [E|Hin].
  - injection E as -> ->. rewrite fold_impacted_get by exact Hfp.
    destruct (String.eqb_spec k changed); [contradiction|].
    destruct (impact_reasons set_order changed names sigs data) eqn:E; [contradiction|].
    rewrite dict_get_set, String.eqb_refl. reflexivity.
  - now apply IH.
Qed.
End ImpactFacts.

(** ** The depth-first search of [detect_circular_dependencies] *)

Section Dfs.
Import Py Gilfoyle.
Variable g : Graph.

Local Abbreviation unvisited := (Gilfoyle.unvisited g).
Local Abbreviation closed := (Gilfoyle.closed g).
Local Abbreviation acyclic_on := (Gilfoyle.acyclic_on g).
Local Abbreviation call_spec := (Gilfoyle.call_spec g).


Lemma targets_keys node t : In t (targets g node) -> In t (dict_keys g).
Proof.
  unfold targets. destruct (dict_get node g); [|intros []].
  rewrite in_flat_map. intros (imp & _ & H). now apply filter_In in H.
Qed.

Lemma edge_source_key x y : edge g x y -> In x (dict_keys g).
Proof.
  unfold edge, targets. destruct (dict_get x g) eqn:E; [|intros []].
  intros _. eapply dict_get_Some_key; eauto.
Qed.

Lemma unvisited_le V : (unvisited V <= length g)%nat.
Proof.
  unfold unvisited, dict_keys.
  etransitivity; [apply filter_length_le | now rewrite length_map].
Qed.

Lemma unvisited_mono V V' : V ⊆ V' -> (unvisited V' <= unvisited V)%nat.
Proof.
  intros Hsub. unfold unvisited.
  induction (dict_keys g) as [|k l IH]; simpl; [lia|].
  destruct (bool_decide_reflect (k ∈ V')) as [Hk'|Hk'];
    destruct (bool_decide_reflect (k ∈ V)) as [Hk|Hk]; simpl; try lia.
  exfalso. apply Hk'. now apply Hsub.
Qed.

Lemma unvisited_add V t :
  In t (dict_keys g) -> t ∉ V -> (unvisited ({[t]} ∪ V) < unvisited V)%nat.
Proof.
  intros Hin Hnot. unfold unvisited.
  assert (Hle : forall l,
    (length (List.filter (fun k => negb (bool_decide (k ∈ {[t]} ∪ V))) l)
     <= length (List.filter (fun k => negb (bool_decide (k ∈ V))) l))%nat).
  { intros l. induction l as [|k l IH]; simpl; [lia|].
    destruct (bool_decide_reflect (k ∈ {[t]} ∪ V)) as [Hk'|Hk'];
      destruct (bool_decide_reflect (k ∈ V)) as [Hk|Hk]; simpl; try lia.
    exfalso. apply Hk'. set_solver. }
  induction (dict_keys g) as [|k l IH]; simpl; [destruct Hin|].
  destruct Hin as [->|Hin].
  - destruct (bool_decide_reflect (t ∈ {[t]} ∪ V)) as [Hk'|Hk']; [|set_solver].
    destruct (bool_decide_reflect (t ∈ V)) as [Hk|Hk]; [contradiction|].
    simpl. specialize (Hle l). lia.
  - specialize (IH Hin).
    destruct (bool_decide_reflect (k ∈ {[t]} ∪ V)) as [Hk'|Hk'];
      destruct (bool_decide_reflect (k ∈ V)) as [Hk|Hk]; simpl; try lia.
    exfalso. apply Hk'. set_solver.
Qed.

Lemma closed_rtc B u v : closed B -> u ∈ B -> rtc (edge g) u v -> v ∈ B.
Proof. intros Hc Hu Hr. induction Hr; eauto. Qed.

Lemma on_cycle_step x : on_cycle g x -> exists y, edge g x y /\ rtc (edge g) y x.
Proof.
  unfold on_cycle. intros H. inversion H as [? ? Hxy|? y ? Hxy Hyx]; subst.
  - exists x. split; [assumption | apply rtc_refl].
  - exists y. split; [assumption | now apply tc_rtc].
Qed.


Lemma visit_spec f call node :
  call_spec f call ->
  forall ts V1 R1,
    (forall t, In t ts -> edge g node t) ->
    (unvisited V1 <= f)%nat -> node ∈ R1 -> R1 ⊆ V1 ->
    closed (V1 ∖ R1) -> acyclic_on (V1 ∖ R1) ->
    (forall r, r ∈ R1 -> rtc (edge g) r node) ->
    exists b st', visit call node ts (V1, R1) = Some (b, st') /\
      if b : bool then exists x, on_cycle g x
      else V1 ⊆ st'.1 /\ st'.2 = R1 ∖ {[node]} /\
           closed (st'.1 ∖ R1) /\ acyclic_on (st'.1 ∖ R1) /\
           forall t, In t ts -> t ∈ st'.1 ∖ R1.
Proof.
  intros Hcall. induction ts as [|t ts IH]; intros V1 R1 Hts Hf Hnode Hsub Hcl Hac Hpath.
  - exists false, (V1, R1 ∖ {[node]}). simpl. split; [reflexivity|].
    repeat split; auto. intros t [].
  - assert (Ht : edge g node t) by (apply Hts; now left).
    assert (Hts' : forall t', In t' ts -> edge g node t') by (intros; apply Hts; now right).
    simpl. destruct (decide (t ∈ V1)) as [HtV|HtV].
    + destruct (decide (t ∈ R1)) as [HtR|HtR].
      * exists true, (V1, R1). split; [reflexivity|]. exists t.
        eapply tc_rtc_l; [apply Hpath, HtR | now apply tc_once].
      * destruct (IH V1 R1) as (b & st' & Hv & Hpost); auto.
        exists b, st'. split; [assumption|]. destruct b; [assumption|].
        destruct Hpost as (H1 & H2 & H3 & H4 & H5). repeat split; auto.
        intros t' [<-|Hin]; [set_solver | now apply H5].
    + destruct (Hcall t V1 R1) as (b & st' & Hc & Hpost); auto.
      * pose proof (unvisited_add V1 t (targets_keys _ _ Ht) HtV). lia.
      * intros r Hr. eapply tc_rtc_l; [apply Hpath, Hr | now apply tc_once].
      * rewrite Hc. destruct b.
        -- exists true, st'. split; [reflexivity | assumption].
        -- destruct st' as [V2 R2]. simpl in Hpost.
           destruct Hpost as (HV & -> & HtV2 & Hcl2 & Hac2).
           destruct (IH V2 R1) as (b & st'' & Hv & Hpost); auto.
           ++ pose proof (unvisited_mono V1 V2 HV). lia.
           ++ set_solver.
           ++ exists b, st''. split; [assumption|]. destruct b; [assumption|].
              destruct Hpost as (H1 & H2 & H3 & H4 & H5). repeat split; auto.
              ** set_solver.
              ** intros t' [<-|Hin]; [|now apply H5].
                 assert (t ∉ R1) by set_solver. set_solver.
Qed.

Lemma has_cycle_spec f : call_spec f (has_cycle f g).
Proof.
  induction f as [|f IH]; intros node V R Hf Hnode Hsub Hcl Hac Hpath; [lia|].
  simpl.
  assert (HnR : node ∉ R) by set_solver.
  assert (HB : V ∖ R = ({[node]} ∪ V) ∖ ({[node]} ∪ R)) by set_solver.
  destruct (visit_spec f (has_cycle f g) node IH (targets g node)
              ({[node]} ∪ V) ({[node]} ∪ R))
    as (b & st' & Hv & Hpost).
  - auto.
  - lia.
  - set_solver.
  - set_solver.
  - now rewrite <- HB.
  - now rewrite <- HB.
  - intros r Hr. apply elem_of_union in Hr as [Hr|Hr].
    + apply elem_of_singleton in Hr as ->. apply rtc_refl.
    + now apply tc_rtc, Hpath.
  - exists b, st'. split; [assumption|]. destruct b; [assumption|].
    destruct st' as [V' R']. simpl in *.
    destruct Hpost as (HV & -> & Hcl' & Hac' & Hts).
    assert (HR : ({[node]} ∪ R) ∖ {[node]} = R) by set_solver.
    assert (HB' : forall x, x ∈ V' ∖ R <-> x = node \/ x ∈ V' ∖ ({[node]} ∪ R)).
    { intros x. destruct (decide (x = node)) as [->|]; set_solver. }
    repeat split.
    + set_solver.
    + exact HR.
    + set_solver.
    + intros u v Hu Huv. apply HB'. right. apply HB' in Hu as [->|Hu].
      * now apply Hts.
      * eapply Hcl'; eauto.
    + intros u Hu Hcyc. apply HB' in Hu as [->|Hu]; [|now apply (Hac' u)].
      apply on_cycle_step in Hcyc as (y & Hy & Hback).
      assert (node ∈ V' ∖ ({[node]} ∪ R))
        by (eapply closed_rtc; [exact Hcl' | apply Hts, Hy | exact Hback]).
      set_solver.
Qed.

(** One search from fresh sets. *)
Lemma has_cycle_fresh node :
  exists b st', has_cycle (S (length g)) g node (∅, ∅) = Some (b, st') /\
    if b : bool then exists x, on_cycle g x else ~ on_cycle g node.
Proof.
  destruct (has_cycle_spec (S (length g)) node ∅ ∅) as (b & st' & H & Hpost).
  - pose proof (unvisited_le ({[node]} ∪ ∅)). lia.
  - set_solver.
  - set_solver.
  - intros u v Hu. set_solver.
  - intros u Hu. set_solver.
  - intros r Hr. set_solver.
  - exists b, st'. split; [assumption|]. destruct b; [assumption|].
    destruct Hpost as (_ & _ & Hn & _ & Hac). apply Hac. set_solver.
Qed.

(** [detect_circular_dependencies] returns, and returns [true] exactly when
    the edges it follows have a cycle. *)
Lemma detect_circular_dependencies_spec :
  exists b, detect_circular_dependencies g = Some b /\
            (b = true <-> exists x, on_cycle g x).
Proof.
  unfold detect_circular_dependencies.
  assert (H : forall l, exists b,
    (fix each (nodes : list string) : option bool :=
       match nodes with
       | [] => Some false
       | node :: rest =>
           match has_cycle (S (length g)) g node (∅, ∅) with
           | None => None
           | Some (true, _) => Some true
           | Some (false, _) => each rest
           end
       end) l = Some b /\
    if b : bool then exists x, on_cycle g x
    else forall x, In x l -> ~ on_cycle g x).
  { induction l as [|node l IH].
    - exists false. split; [reflexivity | intros x []].
    - destruct (has_cycle_fresh node) as (b & st' & -> & Hb). destruct b.
      + exists true. split; [reflexivity | assumption].
      + destruct IH as (b & -> & Hl). exists b. split; [reflexivity|].
        destruct b; [assumption|]. intros x [<-|Hx]; auto. }
  destruct (H (dict_keys g)) as (b & -> & Hb). exists b. split; [reflexivity|].
  destruct b.
  - tauto.
  - split; [discriminate|]. intros (x & Hx). exfalso.
    apply (Hb x); [|assumption].
    apply on_cycle_step in Hx as (y & Hy & _). eapply edge_source_key; eauto.
Qed.
End Dfs.

(** ** The search under a recursion limit; the counters of the risk rules *)

Section Limit.
Import Py Gilfoyle Bounded.

Lemma visit_mono (call call' : string -> dfs_state -> option (bool * dfs_state))
    (node : string) (ts : list string) (st : dfs_state) (r : bool * dfs_state) :
  (forall n s r', call n s = Some r' -> call' n s = Some r') ->
  visit call node ts st = Some r -> visit call' node ts st = Some r.
Proof.
  intros Hcall. revert st. induction ts as [|t ts IH]; intros st H; [exact H|].
  cbn [visit] in *.
  destruct (decide (t ∈ st.1)).
  - destruct (decide (t ∈ st.2)); [exact H | now apply IH].
  - destruct (call t st) as [[b st']|] eqn:E; [|discriminate].
    rewrite (Hcall _ _ _ E). destruct b; [exact H | now apply IH].
Qed.

(** A search that fits under a limit fits under every larger one, with the
    same answer. *)
Lemma has_cycle_mono (f f' : nat) (g : Graph) (node : string) (st : dfs_state)
    (r : bool * dfs_state) :
  (f <= f')%nat -> has_cycle f g node st = Some r -> has_cycle f' g node st = Some r.
Proof.
  revert f' node st r. induction f as [|f IH]; intros f' node st r Hle H; [discriminate|].
  destruct f' as [|f']; [lia|]. cbn [has_cycle] in *.
  eapply visit_mono; [|exact H]. intros n s r' Hn. apply (IH f'); [lia | exact Hn].
Qed.

Lemma detect_within_mono (f f' : nat) (g : Graph) (b : bool) :
  (f <= f')%nat ->
  detect_circular_dependencies_within f g = Some b ->
  detect_circular_dependencies_within f' g = Some b.
Proof.
  intros Hle. unfold detect_circular_dependencies_within.
  induction (dict_keys g) as [|node rest IH]; [auto|].
  destruct (has_cycle f g node (∅, ∅)) as [[c st']|] eqn:E; [|discriminate].
  rewrite (has_cycle_mono f f' g node _ _ Hle E). destruct c; auto.
Qed.

Lemma detect_within_enough (g : Graph) :
  detect_circular_dependencies g = detect_circular_dependencies_within (S (length g)) g.
Proof. reflexivity. Qed.

(** With room for more nested calls than the graph has files the search
    returns; and whenever it returns, its answer is that of the search
    without a limit: whether the edges have a cycle. *)
Lemma detect_within_spec (limit : nat) (g : Graph) :
  ((length g < limit)%nat ->
   exists b, detect_circular_dependencies_within limit g = Some b) /\
  (forall b, detect_circular_dependencies_within limit g = Some b ->
             (b = true <-> exists x, on_cycle g x)).
Proof.
  destruct (detect_circular_dependencies_spec g) as (b0 & Hb0 & Hcyc).
  rewrite detect_within_enough in Hb0. split.
  - intros Hlt. exists b0. eapply detect_within_mono; [|exact Hb0]. lia.
  - intros b Hb.
    destruct (Nat.le_gt_cases limit (S (length g))) as [Hle|Hgt].
    + apply (detect_within_mono _ _ _ _ Hle) in Hb. congruence.
    + apply (detect_within_mono _ limit) in Hb0; [|lia]. congruence.
Qed.

Lemma calculate_within_enough (m : Monitor) :
  calculate_risk_level m
  = calculate_risk_level_within (S (length (dependency_graph m))) m.
Proof. reflexivity. Qed.

Lemma total_impacted_entries (fi : odict (odict Impact)) :
  total_impacted fi = total_impacted_files fi.
Proof.
  unfold total_impacted, total_impacted_files, impact_entries.
  assert (H : forall a,
    fold_left (fun n kv => (n + length (snd kv))%nat) fi a
    = (a + length (flat_map (fun kv : string * odict Impact => map snd (snd kv)) fi))%nat).
  { induction fi as [|kv fi IH]; intros a; cbn [fold_left flat_map]; [cbn; lia|].
    rewrite IH, length_app, length_map. lia. }
  apply H.
Qed.

Lemma high_severity_entries_count (fi : odict (odict Impact)) :
  high_severity_count fi = high_severity_entries fi.
Proof.
  unfold high_severity_count, high_severity_entries, impact_entries.
  assert (Hin : forall (l : odict Impact) n,
    fold_left (fun n' imp =>
       if String.eqb (severity (snd imp)) "high" then S n' else n') l n
    = (n + length (List.filter (fun imp => String.eqb (severity imp) "high")
                     (map snd l)))%nat).
  { induction l as [|imp l IH]; intros n; cbn [fold_left map List.filter]; [cbn; lia|].
    rewrite IH. destruct (String.eqb (severity (snd imp)) "high"); cbn [length]; lia. }
  assert (H : forall a,
    fold_left (fun n kv =>
      fold_left (fun n' imp =>
        if String.eqb (severity (snd imp)) "high" then S n' else n') (snd kv) n) fi a
    = (a + length (List.filter (fun imp => String.eqb (severity imp) "high")
                     (flat_map (fun kv : string * odict Impact => map snd (snd kv)) fi)))%nat).
  { induction fi as [|kv fi IH]; intros a; cbn [fold_left flat_map]; [cbn; lia|].
    rewrite IH, Hin, filter_app, length_app. lia. }
  apply H.
Qed.
End Limit.

(** ** Claims on signature changes and impact propagation *)

Section ImpactClaims.
Import Py Gilfoyle.
Variable parse_with_treesitter : string -> Parsed.
Variable set_order : list string -> list string.

(** C2 (as amended).  On a path that has a graph entry, if the signature
    text recorded for [f] (that of the last definition named [f]) is [so] in
    the old entry and [sn] in the new extraction, and the two differ, then
    the signature-change list has exactly one entry named [f], and it is
    [{name: f, old: so, new: sn}]; with [f] defined once on each side this
    is the change of ['f(a)'] into ['f(a, b)'].  Conversely every entry of
    the list carries a name defined on both sides, with the texts recorded
    for that name on the two sides, which differ: a name that only the old
    entry or only the new extraction defines produces no entry.  (A
    definition added under a name that the old entry has already is the
    last of its name, and produces an entry when its text differs.) *)
Theorem detect_signature_changes_by_name (g : Graph) (filepath : string) :
  (forall old f so sn,
      dict_get filepath g = Some old ->
      sig_recorded (definitions old) f so ->
      sig_recorded (p_definitions (parse_with_treesitter filepath)) f sn ->
      so <> sn ->
      List.filter (fun c => String.eqb (sc_name c) f)
        (detect_signature_changes parse_with_treesitter g filepath)
      = [mkChange f so sn]) /\
  (forall c,
      In c (detect_signature_changes parse_with_treesitter g filepath) ->
      exists old,
        dict_get filepath g = Some old /\
        In (sc_name c) (map def_name (definitions old)) /\
        In (sc_name c) (map def_name (p_definitions (parse_with_treesitter filepath))) /\
        sig_recorded (definitions old) (sc_name c) (sc_old c) /\
        sig_recorded (p_definitions (parse_with_treesitter filepath))
                     (sc_name c) (sc_new c) /\
        sc_old c <> sc_new c).
Proof.
  split.
  - intros old f so sn Hg Hold Hnew Hne.
    unfold detect_signature_changes. rewrite Hg.
    apply changed_sigs_one; auto using sigs_of_recorded.
    apply dict_of_is_dict.
  - intros c Hc. unfold detect_signature_changes in Hc.
    destruct (dict_get filepath g) as [old|]; [|contradiction].
    exists old. split; [reflexivity|].
    assert (Hc' := Hc).
    apply changed_sigs_names in Hc as [Hnew Hold].
    assert (Hnew' : dict_get (sc_name c)
                      (sigs_of (p_definitions (parse_with_treesitter filepath)))
                    = Some (sc_new c)).
    { apply In_dict_get; [apply dict_of_is_dict | exact Hnew]. }
    split; [eapply sigs_of_key; eauto|].
    split; [eapply sigs_of_key; eauto|].
    split; [now apply sigs_of_recorded_inv|].
    split; [now apply sigs_of_recorded_inv|].
    unfold changed_sigs in Hc'. apply in_flat_map in Hc' as ([k v] & _ & Hin).
    simpl in Hin. destruct (dict_get k _) as [o|]; [|contradiction].
    destruct (String.eqb_spec o v); [contradiction|].
    destruct Hin as [<-|[]]. assumption.
Qed.

(** C10.  The dict returned by [find_impacted_files] never has the changed
    file itself as a key, whatever the graph holds. *)
Theorem find_impacted_files_excludes_changed (g : Graph) (changed_file : string) :
  dict_get changed_file
    (snd (find_impacted_files parse_with_treesitter set_order g changed_file)) = None
  /\ ~ In changed_file
       (dict_keys (snd (find_impacted_files parse_with_treesitter set_order g changed_file))).
Proof.
  assert (H : ~ In changed_file
       (dict_keys (snd (find_impacted_files parse_with_treesitter set_order g changed_file)))).
  { unfold find_impacted_files. cbn [snd]. intros H.
    apply fold_impacted_keys in H. destruct H as [H|[_ H]]; [destruct H | now apply H]. }
  split; [now apply dict_get_None | exact H].
Qed.

Hypothesis set_order_perm : forall l, Permutation (set_order l) l.

(** C1 (as amended).  When the changed file [A] has an entry defining
    [helper] and another file [B] of the graph calls [helper], the returned
    dict has an entry for [B].  If [helper] is in [A]'s signature-change
    list, its reasons include ['calls_modified: <names>'] with [helper] among
    the names, and the severity is ['high'].  If no function that [B] calls
    and [A] defines is in that list, its reasons include ['calls: <names>']
    with [helper] among the names, the names being the functions that [A]
    defines and [B] calls, and the severity is ['medium'] as long as the
    listed names do not spell the word 'modified'. *)
Theorem find_impacted_files_calls (g : Graph) (A B helper : string) (eA eB : Entry) :
  is_dict g ->
  dict_get A g = Some eA ->
  In helper (map def_name (definitions eA)) ->
  In (B, eB) g -> B <> A ->
  In helper (calls eB) ->
  exists imp,
    dict_get B (snd (find_impacted_files parse_with_treesitter set_order g A)) = Some imp /\
    (In helper (map sc_name (signature_changes eA)) ->
     exists names,
       In helper names /\
       In ("calls_modified: " ++ join ", " names) (reasons imp) /\
       severity imp = "high") /\
    ((forall n, In n (map def_name (definitions eA)) -> In n (calls eB) ->
                ~ In n (map sc_name (signature_changes eA))) ->
     exists names,
       In helper names /\
       (forall n, In n names <->
                  In n (map def_name (definitions eA)) /\ In n (calls eB)) /\
       In ("calls: " ++ join ", " names) (reasons imp) /\
       (contains "modified" (join ", " names) = false -> severity imp = "medium")).
Proof.
  intros Hd HA Hdef HB Hne Hcall.
  set (names := set_of (map def_name (definitions eA))).
  set (rs := impact_reasons set_order A names (signature_changes eA) eB).
  assert (Hcalled : In helper (set_and names (calls eB))).
  { apply set_and_In. split; [now apply set_of_In | assumption]. }
  assert (Hrs : rs <> [] /\
    (In helper (map sc_name (signature_changes eA)) ->
     exists ns, In helper ns /\
       In ("calls_modified: " ++ join ", " ns) rs /\ severity_of rs = "high") /\
    ((forall n, In n (map def_name (definitions eA)) -> In n (calls eB) ->
                ~ In n (map sc_name (signature_changes eA))) ->
     exists ns, In helper ns /\
       (forall n, In n ns <-> In n (map def_name (definitions eA)) /\ In n (calls eB)) /\
       In ("calls: " ++ join ", " ns) rs /\
       (contains "modified" (join ", " ns) = false -> severity_of rs = "medium"))).
  { subst rs. unfold impact_reasons.
    set (pre := if existsb _ (imports eB) then ["imports"] else []).
    assert (Hpre : pre = [] \/ pre = ["imports"])
      by (subst pre; destruct (existsb _ (imports eB)); auto).
    destruct (set_and names (calls eB)) as [|c0 cs] eqn:Ecalled; [destruct Hcalled|].
    cbv beta iota. rewrite <- Ecalled in Hcalled |- *. cbv zeta.
    destruct (set_and (set_and names (calls eB))
                (set_of (map sc_name (signature_changes eA)))) as [|m0 ms] eqn:Emod.
    - split; [intros E; now apply app_eq_nil in E as [_ E]|]. split.
      + intros Hsig. exfalso.
        assert (Hin : In helper (set_and (set_and names (calls eB))
                 (set_of (map sc_name (signature_changes eA))))).
        { apply set_and_In. split; [assumption | now apply set_of_In]. }
        rewrite Emod in Hin. destruct Hin.
      + intros _. exists (set_order (set_and names (calls eB))).
        split; [|split; [|split]].
        * eapply Permutation_in; [symmetry; apply set_order_perm | assumption].
        * intros n. split.
          -- intros Hn. apply (Permutation_in _ (set_order_perm _)) in Hn.
             apply set_and_In in Hn as [Hn Hn']. subst names.
             apply (proj1 (set_of_In _ _)) in Hn. now split.
          -- intros [H1 H2].
             eapply Permutation_in; [symmetry; apply set_order_perm|].
             apply set_and_In. split; [now apply set_of_In | assumption].
        * apply in_or_app. right. now left.
        * intros Hno. now apply severity_of_calls.
    - split; [intros E; now apply app_eq_nil in E as [_ E]|]. split.
      + intros Hsig. rewrite <- Emod. exists (set_order (m0 :: ms)). rewrite <- Emod.
        split; [|split].
        * eapply Permutation_in; [symmetry; apply set_order_perm|].
          apply set_and_In. split; [assumption | now apply set_of_In].
        * apply in_or_app. right. now left.
        * apply severity_of_calls_modified.
      + intros Hnone. exfalso.
        assert (Hin : In m0 (set_and (set_and names (calls eB))
                 (set_of (map sc_name (signature_changes eA)))))
          by (rewrite Emod; now left).
        apply set_and_In in Hin as [Hin1 Hin2].
        apply set_and_In in Hin1 as [Hin1 Hin3]. subst names.
        apply (proj1 (set_of_In _ _)) in Hin1.
        apply (proj1 (set_of_In _ _)) in Hin2. now apply (Hnone m0). }
  destruct Hrs as (Hnil & Hmod & Hplain).
  exists (mkImpact rs (severity_of rs)). split; [|split; assumption].
  unfold find_impacted_files. cbn [snd].
  unfold dict_has. rewrite HA. cbn [fst]. rewrite HA.
  now apply fold_impacted_entry.
Qed.
End ImpactClaims.


(** C2, witness: the one definition [f(a)] of [m.py] becomes [f(a, b)]. *)
Lemma detect_signature_changes_by_name_witness :
  List.filter (fun c => String.eqb (Gilfoyle.sc_name c) "f")
    (Gilfoyle.detect_signature_changes
       (ImpactExamples.parses_to ImpactExamples.one_def_new)
       [("m.py", ImpactExamples.one_def_old)] "m.py")
  = [Gilfoyle.mkChange "f" "f(a)" "f(a, b)"].
Proof.
  apply (proj1 (detect_signature_changes_by_name
                  (ImpactExamples.parses_to ImpactExamples.one_def_new)
                  [("m.py", ImpactExamples.one_def_old)] "m.py")
               ImpactExamples.one_def_old "f" "f(a)" "f(a, b)").
  - reflexivity.
  - exists [], (ImpactExamples.fn "f" "f(a)" 1), []. repeat split. constructor.
  - exists [], (ImpactExamples.fn "f" "f(a, b)" 1), []. repeat split. constructor.
  - discriminate.
Defined.

(** C2, counterexample: the old entry defines [f] with text [f(a)] (method of
    [X]) and the new extraction defines [f] with text [f(a, b)], yet the
    signature-change list is empty: the name-keyed dictionaries keep the last
    definition of [f] only, which did not change.  And a definition that was
    added, the method [f(a, b)] of a new class beside the unchanged [f(a)],
    produces a signature-change entry. *)
Lemma detect_signature_changes_duplicate_names :
  In (ImpactExamples.fn "f" "f(a)" 2)
     (Gilfoyle.definitions ImpactExamples.two_methods_old) /\
  In (ImpactExamples.fn "f" "f(a, b)" 2)
     (Gilfoyle.p_definitions ImpactExamples.two_methods_new) /\
  Gilfoyle.detect_signature_changes
    (ImpactExamples.parses_to ImpactExamples.two_methods_new)
    [("m.py", ImpactExamples.two_methods_old)] "m.py" = [] /\
  Gilfoyle.p_definitions EdgeExamples.added_method_new
  = (Gilfoyle.definitions EdgeExamples.added_method_old
     ++ [Gilfoyle.mkDef "Y" "class" (Some "class Y") 4;
         ImpactExamples.fn "f" "f(a, b)" 5])%list /\
  Gilfoyle.detect_signature_changes
    (ImpactExamples.parses_to EdgeExamples.added_method_new)
    [("m.py", EdgeExamples.added_method_old)] "m.py"
  = [Gilfoyle.mkChange "f" "f(a)" "f(a, b)"].
Proof.
  split; [|split; [|split; [|split]]].
  - simpl. auto.
  - simpl. auto.
  - vm_compute. reflexivity.
  - reflexivity.
  - vm_compute. reflexivity.
Qed.

(** C1, witness: [helper] changed its signature. *)
Lemma find_impacted_files_calls_witness :
  exists imp,
    Py.dict_get "B.py"
      (snd (Gilfoyle.find_impacted_files
              (ImpactExamples.parses_to ImpactExamples.one_def_new) (fun l => l)
              (ImpactExamples.graph_AB [Gilfoyle.mkChange "helper" "helper()" "helper(x)"])
              "A.py")) = Some imp /\
    Gilfoyle.severity imp = "high".
Proof.
  destruct (find_impacted_files_calls
              (ImpactExamples.parses_to ImpactExamples.one_def_new) (fun l => l)
              (fun l => Permutation_refl l)
              (ImpactExamples.graph_AB [Gilfoyle.mkChange "helper" "helper()" "helper(x)"])
              "A.py" "B.py" "helper"
              (ImpactExamples.eA [Gilfoyle.mkChange "helper" "helper()" "helper(x)"])
              ImpactExamples.eB)
    as (imp & Hget & Hmod & _).
  - repeat constructor; simpl; intuition discriminate.
  - reflexivity.
  - simpl. auto.
  - simpl. auto.
  - discriminate.
  - simpl. auto.
  - exists imp. split; [exact Hget|].
    destruct Hmod as (names & _ & _ & Hsev); [simpl; auto | exact Hsev].
Defined.

(** C1, counterexample: [A.py] defines [helper] and [B.py] calls it, [helper]
    is not in the signature-change list, and the entry of [B.py] has neither
    a [calls] reason nor severity ['medium']: the other called function
    changed, and the one reason names that function only. *)
Lemma find_impacted_files_other_function_modified :
  In "helper" (map Gilfoyle.def_name (Gilfoyle.definitions
       (ImpactExamples.eA [Gilfoyle.mkChange "other" "other(x)" "other(x, y)"]))) /\
  In "helper" (Gilfoyle.calls ImpactExamples.eB) /\
  Py.mem "helper" (map Gilfoyle.sc_name
       [Gilfoyle.mkChange "other" "other(x)" "other(x, y)"]) = false /\
  snd (Gilfoyle.find_impacted_files
         (ImpactExamples.parses_to ImpactExamples.one_def_new) (fun l => l)
         (ImpactExamples.graph_AB [Gilfoyle.mkChange "other" "other(x)" "other(x, y)"])
         "A.py")
  = [("B.py", Gilfoyle.mkImpact ["calls_modified: other"] "high")].
Proof.
  split; [|split; [|split]].
  - simpl. auto.
  - simpl. auto.
  - reflexivity.
  - vm_compute. reflexivity.
Qed.

(** ** Claims on risk classification and cycle detection *)

Section RiskClaims.
Import Py Gilfoyle.

Lemma high_severity_count_le_total (fi : odict (odict Impact)) :
  (high_severity_count fi <= total_impacted fi)%nat.
Proof.
  unfold high_severity_count, total_impacted.
  assert (Hin : forall (l : odict Impact) n,
    (fold_left (fun n' imp =>
       if String.eqb (severity (snd imp)) "high" then S n' else n') l n
     <= n + length l)%nat).
  { induction l as [|imp l IH]; intros n; simpl; [lia|].
    specialize (IH (if String.eqb (severity (snd imp)) "high" then S n else n)).
    destruct (String.eqb (severity (snd imp)) "high"); lia. }
  assert (H : forall a b, (a <= b)%nat ->
    (fold_left (fun n kv =>
       fold_left (fun n' imp =>
         if String.eqb (severity (snd imp)) "high" then S n' else n') (snd kv) n) fi a
     <= fold_left (fun n kv => (n + length (snd kv))%nat) fi b)%nat).
  { induction fi as [|kv fi IH]; intros a b Hab; cbn [fold_left]; [assumption|].
    apply IH. specialize (Hin (snd kv) a). lia. }
  now apply H.
Qed.

Lemma has_sig_changes_iff (g : Graph) (changed : list string) :
  has_sig_changes g changed = true <->
  exists f e, In f changed /\ dict_get f g = Some e /\ signature_changes e <> [].
Proof.
  unfold has_sig_changes. rewrite existsb_exists. split.
  - intros (f & Hf & H). destruct (dict_get f g) as [e|] eqn:E; [|discriminate].
    exists f, e. repeat split; auto. intros Hnil. now rewrite Hnil in H.
  - intros (f & e & Hf & Hg & Hne). exists f. split; [assumption|].
    rewrite Hg. destruct (signature_changes e); [contradiction | reflexivity].
Qed.

(** C3 (as amended).  [calculate_risk_level] returns whenever the recursion
    limit leaves room for more nested calls of [has_cycle] than the graph
    has files.  Whenever it returns, the level is ['high'] exactly when the
    import edges have a cycle or more than 5 impact entries have severity
    ['high'] or more than 15 files are impacted in total; otherwise it is
    ['medium'] exactly when a changed file has signature changes or an entry
    has severity ['high'] or more than 5 files are impacted; otherwise it is
    ['low'].  So 16 impacted files give ['high']; 6 impacted files without
    signature change, high-severity entry or cycle give ['medium']; no
    impacted file, with neither signature change nor cycle, gives ['low'].
    The entries, the impacted files and the signature changes are counted
    here apart from the code. *)
Theorem calculate_risk_level_rules (limit : nat) (m : Monitor) :
  let high := Bounded.high_severity_entries (file_impacts m) in
  let total := Bounded.total_impacted_files (file_impacts m) in
  let cycle := exists x, on_cycle (dependency_graph m) x in
  let sigs := Bounded.any_signature_change (dependency_graph m) (changed_files m) in
  let rule_high := cycle \/ (5 < high)%nat \/ (15 < total)%nat in
  let rule_medium := sigs \/ (0 < high)%nat \/ (5 < total)%nat in
  ((length (dependency_graph m) < limit)%nat ->
   exists level emoji,
     Bounded.calculate_risk_level_within limit m = Some (level, emoji)) /\
  (forall level emoji,
     Bounded.calculate_risk_level_within limit m = Some (level, emoji) ->
     (level = "high" <-> rule_high) /\
     (level = "medium" <-> ~ rule_high /\ rule_medium) /\
     (level = "low" <-> ~ rule_high /\ ~ rule_medium) /\
     (emoji = red_circle <-> level = "high") /\
     (emoji = yellow_circle <-> level = "medium") /\
     (emoji = green_circle <-> level = "low") /\
     (total = 16%nat -> level = "high") /\
     (total = 6%nat -> high = O -> ~ sigs -> ~ cycle -> level = "medium") /\
     (total = O -> ~ sigs -> ~ cycle -> level = "low")).
Proof.
  cbv zeta.
  destruct (detect_within_spec limit (dependency_graph m)) as [Hret Hans].
  pose proof (high_severity_count_le_total (file_impacts m)) as Hle.
  pose proof (has_sig_changes_iff (dependency_graph m) (changed_files m)) as Hsig.
  fold (Bounded.any_signature_change (dependency_graph m) (changed_files m)) in Hsig.
  unfold Bounded.calculate_risk_level_within.
  rewrite total_impacted_entries, high_severity_entries_count in *.
  set (high := Bounded.high_severity_entries (file_impacts m)) in *.
  set (total := Bounded.total_impacted_files (file_impacts m)) in *.
  set (sigs := Bounded.any_signature_change (dependency_graph m) (changed_files m)) in *.
  set (cycle := exists x, on_cycle (dependency_graph m) x) in *.
  split.
  - intros Hlt. destruct (Hret Hlt) as [b ->].
    match goal with
    | |- exists level emoji, Some ?x = Some (level, emoji) =>
        exists (fst x), (snd x); now destruct x
    end.
  - intros level emoji H.
    destruct (Bounded.detect_circular_dependencies_within limit (dependency_graph m))
      as [circular|]; [|discriminate].
    specialize (Hans circular eq_refl).
    assert (Hcyc : if circular then cycle else ~ cycle).
    { destruct circular; [now apply Hans|]. intros Hx. apply Hans in Hx. discriminate. }
    assert (Hs : if has_sig_changes (dependency_graph m) (changed_files m)
                 then sigs else ~ sigs).
    { destruct (has_sig_changes (dependency_graph m) (changed_files m));
        [now apply Hsig|]. intros Hx. apply Hsig in Hx. discriminate. }
    clear Hans Hsig Hret.
    destruct circular; cbn [orb] in H.
    { injection H as <- <-. intuition (try discriminate; try lia; auto). }
    destruct (Nat.ltb_spec 5 high); cbn [orb] in H.
    { injection H as <- <-. intuition (try discriminate; try lia; auto). }
    destruct (Nat.ltb_spec 15 total); cbn [orb] in H.
    { injection H as <- <-. intuition (try discriminate; try lia; auto). }
    destruct (has_sig_changes (dependency_graph m) (changed_files m)); cbn [orb] in H.
    { injection H as <- <-. intuition (try discriminate; try lia; auto). }
    destruct (Nat.ltb_spec 0 high); cbn [orb] in H.
    { injection H as <- <-. intuition (try discriminate; try lia; auto). }
    destruct (Nat.ltb_spec 5 total); cbn [orb] in H.
    { injection H as <- <-. intuition (try discriminate; try lia; auto). }
    injection H as <- <-. intuition (try discriminate; try lia; auto).
Qed.

Lemma chain_edges_acyclic (g : Graph) (A B C : string) :
  A <> B -> B <> C -> C <> A ->
  (forall x y, edge g x y <-> (x = A /\ y = B) \/ (x = B /\ y = C)) ->
  forall x, ~ on_cycle g x.
Proof.
  intros HAB HBC HCA Hedges.
  assert (Hpath : forall x y, tc (edge g) x y ->
    (x = A /\ (y = B \/ y = C)) \/ (x = B /\ y = C)).
  { intros x y Hxy. induction Hxy as [x y Hxy|x y z Hxy _ IH].
    - apply Hedges in Hxy. tauto.
    - apply Hedges in Hxy. intuition congruence. }
  intros x Hx. apply Hpath in Hx. intuition congruence.
Qed.

(** C4 (as amended).  With the edges that the search itself follows (from
    [x] to each graph key that contains an import of [x] as a substring, or
    whose stem is that import), [detect_circular_dependencies] returns
    [true] for a cycle A -> B -> C -> A and returns [false] for a chain
    A -> B -> C of three distinct files with no other edge. *)
Theorem detect_circular_dependencies_three_files (g : Graph) (A B C : string) :
  (edge g A B -> edge g B C -> edge g C A ->
   detect_circular_dependencies g = Some true) /\
  (A <> B -> B <> C -> C <> A ->
   (forall x y, edge g x y <-> (x = A /\ y = B) \/ (x = B /\ y = C)) ->
   detect_circular_dependencies g = Some false).
Proof.
  destruct (detect_circular_dependencies_spec g) as (b & -> & Hb). split.
  - intros HAB HBC HCA. f_equal. apply Hb. exists A.
    eapply tc_l; [exact HAB|]. eapply tc_l; [exact HBC|]. now apply tc_once.
  - intros HAB HBC HCA Hedges. f_equal.
    destruct b; [|reflexivity]. destruct Hb as [Hb _].
    destruct (Hb eq_refl) as (x & Hx).
    exfalso. exact (chain_edges_acyclic g A B C HAB HBC HCA Hedges x Hx).
Qed.
End RiskClaims.


(** C3 on concrete monitors: 16, 6 and 0 impacted files, no cycle, no
    signature change, no high-severity entry. *)
Example calculate_risk_level_16 :
  Gilfoyle.calculate_risk_level (CycleExamples.monitor 16)
  = Some ("high", Gilfoyle.red_circle).
Proof. vm_compute. reflexivity. Qed.

Example calculate_risk_level_6 :
  Gilfoyle.calculate_risk_level (CycleExamples.monitor 6)
  = Some ("medium", Gilfoyle.yellow_circle).
Proof. vm_compute. reflexivity. Qed.

Example calculate_risk_level_0 :
  Gilfoyle.calculate_risk_level (CycleExamples.monitor 0)
  = Some ("low", Gilfoyle.green_circle).
Proof. vm_compute. reflexivity. Qed.

(** C3, witness: six impacted files, no entry of high severity, no
    signature change and no cycle give ['medium']. *)
Lemma calculate_risk_level_rules_witness :
  exists level emoji,
    Bounded.calculate_risk_level_within 100 (CycleExamples.monitor 6)
    = Some (level, emoji) /\ level = "medium".
Proof.
  destruct (calculate_risk_level_rules 100 (CycleExamples.monitor 6)) as [Hret Hrules].
  destruct Hret as (level & emoji & H); [vm_compute; lia|].
  exists level, emoji. split; [exact H|].
  destruct (Hrules level emoji H) as (_ & _ & _ & _ & _ & _ & _ & H6 & _).
  apply H6.
  - reflexivity.
  - reflexivity.
  - intros (f & e & Hin & Hg & Hne). destruct Hin as [<-|[]].
    vm_compute in Hg. injection Hg as <-. now apply Hne.
  - intros [x Hx]. apply on_cycle_step in Hx as (y & Hy & _).
    unfold Gilfoyle.edge, Gilfoyle.targets in Hy. simpl in Hy.
    destruct (String.eqb x "core.py"); exact Hy.
Defined.

(** C3, counterexample.  One changed file with no impacted file gets
    ['high'] when it imports a name that occurs in its own path; six
    impacted files with no signature change and no entry of high severity
    get ['high'] in a graph with an import cycle; one changed file with no
    impacted file gets ['medium'] when its entry lists a signature change. *)
Lemma calculate_risk_level_unstated_conditions :
  length (Gilfoyle.changed_files EdgeExamples.self_import_monitor) = 1%nat /\
  Bounded.total_impacted_files (Gilfoyle.file_impacts EdgeExamples.self_import_monitor)
  = 0%nat /\
  Bounded.calculate_risk_level_within 100 EdgeExamples.self_import_monitor
  = Some ("high", Gilfoyle.red_circle) /\
  Bounded.total_impacted_files (Gilfoyle.file_impacts EdgeExamples.cycle_monitor)
  = 6%nat /\
  Bounded.high_severity_entries (Gilfoyle.file_impacts EdgeExamples.cycle_monitor)
  = 0%nat /\
  Gilfoyle.has_sig_changes (Gilfoyle.dependency_graph EdgeExamples.cycle_monitor)
    (Gilfoyle.changed_files EdgeExamples.cycle_monitor) = false /\
  Bounded.calculate_risk_level_within 100 EdgeExamples.cycle_monitor
  = Some ("high", Gilfoyle.red_circle) /\
  Bounded.total_impacted_files (Gilfoyle.file_impacts EdgeExamples.signature_monitor)
  = 0%nat /\
  Bounded.detect_circular_dependencies_within 100
    (Gilfoyle.dependency_graph EdgeExamples.signature_monitor) = Some false /\
  Bounded.calculate_risk_level_within 100 EdgeExamples.signature_monitor
  = Some ("medium", Gilfoyle.yellow_circle).
Proof. repeat split; vm_compute; reflexivity. Qed.

(** A chain of three files needs three nested calls of [has_cycle]: with room
    for two the search is cut off, with room for three it returns. *)
Example detect_circular_dependencies_within_depth :
  Bounded.detect_circular_dependencies_within 2 CycleExamples.py_chain = None /\
  Bounded.detect_circular_dependencies_within 3 CycleExamples.py_chain = Some false.
Proof. split; vm_compute; reflexivity. Qed.

Lemma py_chain_edges x y :
  Gilfoyle.edge CycleExamples.py_chain x y <->
  (x = "a.py" /\ y = "b.py") \/ (x = "b.py" /\ y = "c.py").
Proof.
  unfold Gilfoyle.edge, Gilfoyle.targets, CycleExamples.py_chain.
  cbn [Py.dict_get].
  destruct (String.eqb_spec x "a.py") as [->|Ha];
    [simpl; intuition (try discriminate; auto)|].
  destruct (String.eqb_spec x "b.py") as [->|Hb];
    [simpl; intuition (try discriminate; auto)|].
  destruct (String.eqb_spec x "c.py") as [->|Hc];
    [simpl; intuition (try discriminate; auto)|].
  simpl. intuition.
Qed.

(** C4, witness: a cycle and a chain of Python modules. *)
Lemma detect_circular_dependencies_three_files_witness :
  Gilfoyle.detect_circular_dependencies CycleExamples.py_cycle = Some true /\
  Gilfoyle.detect_circular_dependencies CycleExamples.py_chain = Some false.
Proof.
  split.
  - apply (proj1 (detect_circular_dependencies_three_files
                    CycleExamples.py_cycle "a.py" "b.py" "c.py"));
      unfold Gilfoyle.edge; simpl; auto.
  - apply (proj2 (detect_circular_dependencies_three_files
                    CycleExamples.py_chain "a.py" "b.py" "c.py"));
      try discriminate.
    exact py_chain_edges.
Defined.

(** C4, counterexample.  Under the match of the impact analysis the three
    ECMAScript files import each other in a cycle, and detection returns
    [false]; under the same match the three files of [src_chain] form a
    chain with no back edge, and detection returns [true]. *)
Lemma detect_circular_dependencies_other_match :
  CycleExamples.adjacency Gilfoyle.imports_file CycleExamples.js_cycle
  = [("a.js", ["b.js"]); ("b.js", ["c.js"]); ("c.js", ["a.js"])] /\
  Gilfoyle.detect_circular_dependencies CycleExamples.js_cycle = Some false /\
  CycleExamples.adjacency Gilfoyle.imports_file CycleExamples.src_chain
  = [("src/a.py", ["src/b.py"]); ("src/b.py", ["src/c.py"]); ("src/c.py", [])] /\
  Gilfoyle.detect_circular_dependencies CycleExamples.src_chain = Some true.
Proof. repeat split; vm_compute; reflexivity. Qed.

(** ** The named lock *)

Section LockFacts.
Import Py AgentLock.
Variables (pid_text time_text : string).
Variable name : string.

Local Abbreviation step := (acquire_step pid_text time_text name).
Local Abbreviation race_inv := (AgentLock.race_inv name).


Lemma race_inv_swap r : race_inv r -> race_inv (swap r).
Proof.
  intros [H1 H2 H3 H4 H5 H6 H7 H8]. constructor; simpl; auto.
  - intros a b Ha Hb E. subst. eapply H4; eauto.
  - rewrite H5. destruct H6 as [E|E]; rewrite E;
      [destruct (holding (second r)) | destruct (holding (first r))]; reflexivity.
  - tauto.
Qed.

Lemma race_step_swap r :
  race_step pid_text time_text name r false
  = swap (race_step pid_text time_text name (swap r) true).
Proof.
  unfold race_step, swap. simpl. destruct (step (kernel r) (second r)). reflexivity.
Qed.

Lemma holding_fd_of pc fd : holding pc = Some fd -> fd_of pc = Some fd.
Proof. destruct pc; simpl; congruence. Qed.

Lemma fresh_ofd (k : Kernel) : ofds k !! fresh (dom (ofds k)) = None.
Proof. apply not_elem_of_dom. apply is_fresh. Qed.

Lemma fresh_inode (k : Kernel) : inodes k !! fresh (dom (inodes k)) = None.
Proof. apply not_elem_of_dom. apply is_fresh. Qed.

Lemma race_inv_file r fd :
  race_inv r -> fd_of (first r) = Some fd ->
  exists i ino, file_of (kernel r) fd = Some (i, ino) /\
                dir (kernel r) !! name = Some i /\
                holder (kernel r) name = flock ino.
Proof.
  intros Hinv Hfd. destruct (inv_first name r Hinv fd Hfd) as (i & Ho & Hd).
  destruct (inv_files name r Hinv i Hd) as [ino Hi].
  exists i, ino. unfold file_of, holder. rewrite Ho, Hd, Hi. auto.
Qed.

(** A system call of the first caller keeps the invariant. *)
Lemma race_step_first_inv r :
  race_inv r -> race_inv (race_step pid_text time_text name r true).
Proof.
  intros Hinv. destruct r as [k pc1 pc2]. unfold race_step. simpl.
  destruct pc1 as [|fd|fd|fd|]; simpl.
  - (* open *)
    pose proof (fresh_ofd k) as Hfd.
    destruct Hinv as [Hfiles _ Hsecond _ Hholder _ _ Hfailed]. simpl in *.
    assert (Hsecond' : forall fd2, fd_of pc2 = Some fd2 -> fd2 <> fresh (dom (ofds k))).
    { intros fd2 H2 ->. destruct (Hsecond _ H2) as (i & Ho & _). congruence. }
    unfold open_w. destruct (dir k !! name) as [i|] eqn:Hdir.
    + constructor; simpl.
      * intros i' Hi'. rewrite Hdir in Hi'. injection Hi' as <-.
        rewrite lookup_alter_eq. destruct (Hfiles i eq_refl) as [ino ->]. eauto.
      * intros fd' [= <-]. exists i. rewrite lookup_insert_eq. auto.
      * intros fd2 H2. destruct (Hsecond _ H2) as (i2 & Ho & Hd).
        exists i2. rewrite lookup_insert_ne by (apply not_eq_sym; auto).
        split; congruence.
      * intros a b [= <-] Hb E. eapply Hsecond'; eauto.
      * rewrite <- Hholder. unfold holder. simpl. rewrite Hdir, lookup_alter_eq.
        destruct (inodes k !! i); reflexivity.
      * auto.
      * discriminate.
      * intros H2. destruct (Hfailed H2) as [? [=]].
    + assert (Hno2 : fd_of pc2 = None).
      { destruct (fd_of pc2) as [fd2|] eqn:E; [|reflexivity].
        destruct (Hsecond _ eq_refl) as (i2 & _ & Hd). congruence. }
      assert (Hh2 : holding pc2 = None).
      { destruct (holding pc2) eqn:E; [|reflexivity].
        apply holding_fd_of in E. congruence. }
      constructor; simpl.
      * intros i'. rewrite lookup_insert_eq. intros [= <-].
        rewrite lookup_insert_eq. eauto.
      * intros fd' [= <-]. eexists. rewrite !lookup_insert_eq. auto.
      * intros fd2 H2. congruence.
      * intros a b _ Hb. congruence.
      * unfold holder. simpl. rewrite !lookup_insert_eq. simpl. now rewrite Hh2.
      * auto.
      * discriminate.
      * intros H2. destruct (Hfailed H2) as [? [=]].
  - (* flock *)
    destruct (race_inv_file _ fd Hinv eq_refl) as (i & ino & Hfile & Hdir & Hhold).
    destruct Hinv as [Hfiles Hfirst Hsecond Hdistinct Hholder _ _ Hfailed]. simpl in *.
    unfold flock_ex_nb. rewrite Hfile.
    destruct (flock ino) as [owner|] eqn:Hflock.
    + (* held by the other caller *)
      rewrite Hhold in Hholder. symmetry in Hholder.
      assert (Hne : owner <> fd)
        by (intros ->; eapply Hdistinct; eauto using holding_fd_of).
      apply Nat.eqb_neq in Hne. rewrite Hne.
      unfold close, flock_un. rewrite Hfile, Hflock, Hne.
      constructor; simpl.
      * exact Hfiles.
      * discriminate.
      * intros fd2 H2. destruct (Hsecond _ H2) as (i2 & Ho & Hd).
        exists i2. rewrite lookup_delete_ne; [auto|].
        intros ->. eapply Hdistinct; eauto.
      * discriminate.
      * now rewrite Hholder, <- Hhold.
      * auto.
      * intros _. rewrite Hholder. eauto.
      * intros H2. rewrite H2 in Hholder. discriminate.
    + (* granted *)
      rewrite Hhold in Hholder. symmetry in Hholder.
      constructor; simpl.
      * intros i' Hi'. destruct (decide (i = i')) as [<-|Hne].
        -- rewrite lookup_insert_eq. eauto.
        -- rewrite lookup_insert_ne by assumption. auto.
      * intros fd' [= <-]. exists i. unfold file_of in Hfile.
        destruct (ofds k !! fd) as [i0|] eqn:Ho; [|discriminate].
        destruct (inodes k !! i0); [|discriminate].
        injection Hfile as -> _. auto.
      * exact Hsecond.
      * intros a b [= <-]. now apply Hdistinct.
      * unfold holder. simpl. rewrite Hdir, lookup_insert_eq. reflexivity.
      * auto.
      * discriminate.
      * intros H2. destruct (Hfailed H2) as [? [=]].
  - (* write *)
    destruct (race_inv_file _ fd Hinv eq_refl) as (i & ino & Hfile & Hdir & Hhold).
    destruct Hinv as [Hfiles Hfirst Hsecond Hdistinct Hholder Hone _ Hfailed]. simpl in *.
    unfold write_lines. rewrite Hfile.
    constructor; simpl; auto.
    + intros i' Hi'. destruct (decide (i = i')) as [<-|Hne].
      * rewrite lookup_insert_eq. eauto.
      * rewrite lookup_insert_ne by assumption. auto.
    + rewrite <- Hholder, Hhold. unfold holder. simpl.
      rewrite Hdir, lookup_insert_eq. reflexivity.
    + discriminate.
  - exact Hinv.
  - exact Hinv.
Qed.

Lemma race_step_inv r who :
  race_inv r -> race_inv (race_step pid_text time_text name r who).
Proof.
  intros Hinv. destruct who; [now apply race_step_first_inv|].
  rewrite race_step_swap. apply race_inv_swap, race_step_first_inv, race_inv_swap, Hinv.
Qed.

Lemma race_inv_start k : free k name -> race_inv (mkRace k Start Start).
Proof.
  intros [Hh Hf]. constructor; simpl; auto; discriminate.
Qed.

Lemma race_inv_run schedule r :
  race_inv r -> race_inv (fold_left (race_step pid_text time_text name) schedule r).
Proof.
  revert r. induction schedule as [|who schedule IH]; simpl; intros r Hinv; [assumption|].
  apply IH. now apply race_step_inv.
Qed.


Lemma acquire_step_remaining k pc :
  (remaining (snd (step k pc)) <= remaining pc - 1)%nat.
Proof.
  destruct pc as [|fd|fd|fd|]; simpl; try lia.
  - destruct (open_w k name). simpl. lia.
  - destruct (flock_ex_nb k fd); simpl; lia.
Qed.

Lemma race_remaining schedule r :
  let r' := fold_left (race_step pid_text time_text name) schedule r in
  (remaining (first r') <= remaining (first r) - count_occ bool_dec schedule true)%nat /\
  (remaining (second r') <= remaining (second r) - count_occ bool_dec schedule false)%nat.
Proof.
  revert r. induction schedule as [|who schedule IH]; intros r; simpl; [lia|].
  destruct (IH (race_step pid_text time_text name r who)) as [H1 H2].
  unfold race_step in *. destruct who; simpl.
  - pose proof (acquire_step_remaining (kernel r) (first r)) as Hs.
    destruct (step (kernel r) (first r)) as [k' pc']. simpl in *.
    destruct (bool_dec true true); [|congruence].
    destruct (bool_dec true false); [congruence|]. lia.
  - pose proof (acquire_step_remaining (kernel r) (second r)) as Hs.
    destruct (step (kernel r) (second r)) as [k' pc']. simpl in *.
    destruct (bool_dec false false); [|congruence].
    destruct (bool_dec false true); [congruence|]. lia.
Qed.

Lemma remaining_result pc : remaining pc = O -> exists b, result pc = Some b.
Proof. destruct pc; simpl; try discriminate; eauto. Qed.

(** On a name without a lock file, [acquire] succeeds. *)
Lemma acquire_no_file k :
  dir k !! name = None ->
  exists k' fd, acquire pid_text time_text name k = (k', true, Some fd) /\
                holder k' name = Some fd.
Proof.
  intros Hdir. unfold acquire, acquire_step, open_w. rewrite Hdir.
  unfold flock_ex_nb, file_of. simpl. rewrite !lookup_insert_eq. simpl.
  unfold write_lines, file_of. simpl. rewrite !lookup_insert_eq. simpl.
  do 2 eexists. split; [reflexivity|].
  unfold holder. cbn [dir inodes ofds]. rewrite !lookup_insert_eq. reflexivity.
Qed.

(** [release] of an open description takes the lock file away. *)
Lemma release_no_file k fd :
  is_Some (file_of k fd) ->
  dir (fst (release name k (Some fd))) !! name = None /\
  snd (release name k (Some fd)) = None.
Proof.
  intros [[i ino] Hfile]. unfold release.
  assert (Hun : exists k1, flock_un k fd = Some k1 /\ dir k1 = dir k).
  { unfold flock_un. rewrite Hfile. destruct (flock ino) as [owner|]; [|eauto].
    destruct (Nat.eqb owner fd); eauto. }
  destruct Hun as (k1 & -> & Hd1).
  assert (Hd2 : dir (close k1 fd) = dir k).
  { unfold close, flock_un. destruct (file_of k1 fd) as [[i1 ino1]|]; [|assumption].
    destruct (flock ino1) as [owner|]; [|assumption].
    destruct (Nat.eqb owner fd); assumption. }
  destruct (dir (close k1 fd) !! name) eqn:E; simpl.
  - split; [|reflexivity]. apply lookup_delete_eq.
  - split; [assumption | reflexivity].
Qed.
End LockFacts.

Section LockClaims.
Import Py AgentLock.
Variables (pid_text time_text : string).
Variable float_of_text : string -> option PyFloat.
Variable now : string -> Q.

Local Abbreviation reclaim := (reclaimable float_of_text now).

(** X17.  Two callers alone.  Two non-blocking [acquire] calls on one worker name,
    started on a lock that nobody holds and interleaved in any way, with no
    other process touching the lock file: at no time do both hold the lock;
    when both have returned, exactly one returned [True]; and both have
    returned once each has made its three system calls.  After [release] by
    a lock object that holds the lock, a following [acquire] of the same
    name returns [True]. *)
Theorem acquire_mutual_exclusion (name : string) (k : Kernel) (schedule : list bool) :
  free k name ->
  (holding (first (race pid_text time_text name k schedule)) = None \/
   holding (second (race pid_text time_text name k schedule)) = None) /\
  (forall b1 b2,
      result (first (race pid_text time_text name k schedule)) = Some b1 ->
      result (second (race pid_text time_text name k schedule)) = Some b2 ->
      b1 = negb b2) /\
  ((3 <= count_occ bool_dec schedule true)%nat ->
   (3 <= count_occ bool_dec schedule false)%nat ->
   exists b,
     result (first (race pid_text time_text name k schedule)) = Some b /\
     result (second (race pid_text time_text name k schedule)) = Some (negb b)) /\
  (forall k0 fd i ino,
      file_of k0 fd = Some (i, ino) -> flock ino = Some fd ->
      snd (release name k0 (Some fd)) = None /\
      exists k2 fd2,
        acquire pid_text time_text name (fst (release name k0 (Some fd)))
        = (k2, true, Some fd2)).
Proof.
  intros Hfree.
  pose proof (race_inv_run pid_text time_text name schedule _
                (race_inv_start name k Hfree)) as Hinv.
  fold (race pid_text time_text name k schedule) in Hinv.
  set (r := race pid_text time_text name k schedule) in *.
  assert (Hexcl : forall b1 b2,
             result (first r) = Some b1 -> result (second r) = Some b2 -> b1 = negb b2).
  { intros b1 b2 H1 H2.
    destruct (first r) eqn:E1; simpl in H1; try discriminate;
      destruct (second r) eqn:E2; simpl in H2; try discriminate;
      injection H1 as <-; injection H2 as <-; try reflexivity.
    - destruct (inv_one name r Hinv) as [H|H]; rewrite ?E1, ?E2 in H; discriminate.
    - destruct (inv_failed_first name r Hinv E1) as [x Hx].
      rewrite E2 in Hx. discriminate. }
  split; [exact (inv_one name r Hinv)|]. split; [exact Hexcl|]. split.
  - intros Hc1 Hc2.
    destruct (race_remaining pid_text time_text name schedule (mkRace k Start Start))
      as [H1 H2].
    fold (race pid_text time_text name k schedule) in H1, H2. fold r in H1, H2.
    simpl in H1, H2.
    destruct (remaining_result (first r)) as [b1 Hb1]; [lia|].
    destruct (remaining_result (second r)) as [b2 Hb2]; [lia|].
    exists b1. split; [assumption|].
    rewrite Hb2. f_equal. rewrite (Hexcl b1 b2 Hb1 Hb2). now destruct b2.
  - intros k0 fd i ino Hfile _.
    destruct (release_no_file name k0 fd) as [Hdir Hfd]; [eauto|].
    split; [assumption|].
    destruct (acquire_no_file pid_text time_text name _ Hdir) as (k2 & fd2 & H & _).
    eauto.
Qed.

Lemma age_exceeds_young (t : Q) (max_age : Z) (name : string) :
  (now name - t <= inject_Z max_age)%Q ->
  age_exceeds (now name) (Finite t) max_age = false.
Proof.
  intros H. unfold age_exceeds. apply Qle_bool_iff in H. now rewrite H.
Qed.

(** One lock file: the probe leaves the kernel as it was, and the file is
    unlinked exactly when it is reclaimable. *)
Lemma cleanup_one_effect (max_age : Z) (k : Kernel) (name : string) :
  well_formed k ->
  cleanup_one float_of_text now max_age k name
  = if reclaim max_age k name then unlink k name else k.
Proof.
  intros Hwf. unfold cleanup_one, reclaimable, open_r.
  destruct (dir k !! name) as [i|] eqn:Hdir; [|reflexivity].
  pose proof (fresh_ofd k) as Hfresh. set (fd := fresh (dom (ofds k))) in *.
  assert (Hback : forall d, mkKernel d (inodes k) (delete fd (<[fd:=i]> (ofds k)))
                            = mkKernel d (inodes k) (ofds k))
    by (intros d; now rewrite delete_insert_id).
  unfold flock_ex_nb, file_of at 1. cbn [ofds inodes dir].
  rewrite lookup_insert_eq.
  destruct (inodes k !! i) as [ino|] eqn:Hino.
  - destruct ino as [lines owner]. cbn [flock content].
    destruct owner as [owner|].
    + (* a live description holds the lock *)
      assert (Hne : owner <> fd).
      { intros ->. destruct (Hwf i _ fd Hino eq_refl) as [x Hx].
        rewrite Hfresh in Hx. discriminate. }
      apply Nat.eqb_neq in Hne. rewrite Hne.
      unfold close, flock_un, file_of. cbn [ofds inodes dir].
      rewrite lookup_insert_eq, Hino. cbn [flock]. rewrite Hne. cbn [ofds inodes dir].
      rewrite Hback. now destruct k.
    + (* the probe is granted, then undone *)
      assert (Hundo : <[i:=mkInode lines None]> (<[i:=mkInode lines (Some fd)]> (inodes k))
                      = inodes k)
        by (rewrite insert_insert_eq; now apply insert_id).
      unfold flock_un at 1, file_of at 1. cbn [ofds inodes dir flock content].
      rewrite !lookup_insert_eq. cbn [flock content]. rewrite Nat.eqb_refl.
      unfold readlines, file_of. cbn [ofds inodes dir].
      rewrite !lookup_insert_eq. cbn [content]. rewrite Hundo.
      assert (Hclose : forall d,
        close (mkKernel d (inodes k) (<[fd:=i]> (ofds k))) fd
        = mkKernel d (inodes k) (ofds k)).
      { intros d. unfold close, flock_un, file_of. cbn [ofds inodes dir].
        rewrite lookup_insert_eq, Hino. cbn [flock ofds inodes dir]. apply Hback. }
      unfold recorded. cbn [content].
      destruct lines as [|line0 [|line1 rest]];
        try (rewrite Hclose; now destruct k).
      destruct (float_of_text (strip line1)) as [timestamp|];
        [|rewrite Hclose; now destruct k].
      destruct (age_exceeds (now name) timestamp max_age).
      * unfold unlink. cbn [ofds inodes dir]. apply Hclose.
      * rewrite Hclose; now destruct k.
  - unfold close, flock_un, file_of. cbn [ofds inodes dir].
    rewrite lookup_insert_eq, Hino. cbn [ofds inodes dir].
    rewrite Hback. now destruct k.
Qed.

Lemma cleanup_stale_locks_effect (max_age : Z) (lock_files : list string) (k : Kernel) :
  well_formed k ->
  inodes (cleanup_stale_locks float_of_text now max_age lock_files k) = inodes k /\
  ofds (cleanup_stale_locks float_of_text now max_age lock_files k) = ofds k /\
  forall name,
    dir (cleanup_stale_locks float_of_text now max_age lock_files k) !! name
    = if mem name lock_files && reclaim max_age k name then None else dir k !! name.
Proof.
  unfold cleanup_stale_locks. revert k.
  induction lock_files as [|n rest IH]; intros k Hwf; cbn [fold_left].
  - split; [|split]; reflexivity.
  - rewrite cleanup_one_effect by assumption.
    destruct (reclaim max_age k n) eqn:Hn.
    + destruct (IH (unlink k n)) as (Hi & Ho & Hd); [exact Hwf|].
      rewrite Hi, Ho. split; [|split]; try reflexivity. intros name. rewrite Hd. clear Hd.
      unfold mem. cbn [existsb]. fold (mem name rest).
      destruct (String.eqb_spec name n) as [->|Hne]; cbn [orb].
      * rewrite Hn. cbn [andb].
        unfold reclaimable, unlink. cbn [dir inodes]. rewrite lookup_delete_eq.
        now rewrite andb_false_r.
      * unfold reclaimable, unlink. cbn [dir inodes].
        rewrite lookup_delete_ne by congruence. reflexivity.
    + destruct (IH k Hwf) as (Hi & Ho & Hd). split; [|split]; try assumption.
      intros name. rewrite Hd. unfold mem. cbn [existsb]. fold (mem name rest).
      destruct (String.eqb_spec name n) as [->|Hne]; cbn [orb]; [|reflexivity].
      rewrite Hn. now rewrite andb_false_r.
Qed.

(** The six system calls of the body of the loop, made in a row, are the
    body run without interruption. *)
Lemma cleanup_steps_uninterrupted (max_age : Z) (k : Kernel) (name : string) :
  Reclaim.cleanup_steps float_of_text now 6 max_age name k Reclaim.Begin
  = (cleanup_one float_of_text now max_age k name, Reclaim.Finished).
Proof.
  unfold cleanup_one. cbn [Reclaim.cleanup_steps Reclaim.cleanup_step].
  destruct (open_r k name) as [[k1 fd]|]; [|reflexivity].
  cbn [Reclaim.cleanup_steps Reclaim.cleanup_step].
  destruct (flock_ex_nb k1 fd) as [k2| |]; try reflexivity.
  cbn [Reclaim.cleanup_steps Reclaim.cleanup_step].
  destruct (flock_un k2 fd) as [k3|]; [|reflexivity].
  cbn [Reclaim.cleanup_steps Reclaim.cleanup_step].
  destruct (readlines k3 fd) as [|line0 [|line1 rest]]; try reflexivity.
  destruct (float_of_text (strip line1)) as [timestamp|]; [|reflexivity].
  destruct (age_exceeds (now name) timestamp max_age); reflexivity.
Qed.

(** X30.  A run of [cleanup_stale_locks] that no other process interleaves
    with, on a kernel whose locks are all held by open descriptions,
    changes nothing but the directory, from which it removes exactly the
    lock files it was given that no description holds and whose recorded
    age exceeds the threshold.  A file that a description holds, and a file
    whose recorded age is within the threshold, keep their entry. *)
Theorem cleanup_stale_locks_reclaims (max_age : Z) (lock_files : list string) (k : Kernel) :
  well_formed k ->
  inodes (cleanup_stale_locks float_of_text now max_age lock_files k) = inodes k /\
  ofds (cleanup_stale_locks float_of_text now max_age lock_files k) = ofds k /\
  forall name i ino,
    dir k !! name = Some i -> inodes k !! i = Some ino ->
    (dir (cleanup_stale_locks float_of_text now max_age lock_files k) !! name = None <->
     In name lock_files /\ flock ino = None /\
     exists timestamp, recorded float_of_text ino = Some timestamp /\
                       age_exceeds (now name) timestamp max_age = true) /\
    (dir (cleanup_stale_locks float_of_text now max_age lock_files k) !! name = None \/
     dir (cleanup_stale_locks float_of_text now max_age lock_files k) !! name = Some i) /\
    (flock ino <> None ->
     dir (cleanup_stale_locks float_of_text now max_age lock_files k) !! name = Some i) /\
    (forall t, recorded float_of_text ino = Some (Finite t) ->
               (now name - t <= inject_Z max_age)%Q ->
     dir (cleanup_stale_locks float_of_text now max_age lock_files k) !! name = Some i).
Proof.
  intros Hwf.
  destruct (cleanup_stale_locks_effect max_age lock_files k Hwf) as (Hi & Ho & Hd).
  split; [assumption|]. split; [assumption|].
  intros name i ino Hdir Hino. rewrite Hd.
  assert (Hrec : reclaim max_age k name = true <->
            flock ino = None /\
            exists timestamp, recorded float_of_text ino = Some timestamp /\
                              age_exceeds (now name) timestamp max_age = true).
  { unfold reclaimable. rewrite Hdir, Hino.
    destruct (flock ino) as [owner|].
    - split; [discriminate | intros [[=] _]].
    - destruct (recorded float_of_text ino) as [timestamp|].
      + split; [eauto | intros (_ & t' & [= <-] & H); exact H].
      + split; [discriminate | intros (_ & t' & [=] & _)]. }
  destruct (mem name lock_files) eqn:Hmem; cbn [andb].
  - apply mem_In in Hmem.
    destruct (reclaim max_age k name) eqn:Hr.
    + assert (Hr' := proj1 Hrec eq_refl). destruct Hr' as (Hfl & ts & Hts & Hage).
      repeat split; auto.
      * eauto.
      * intros Hne. contradiction.
      * intros t Ht Hyoung. rewrite Ht in Hts. injection Hts as <-.
        rewrite age_exceeds_young in Hage by assumption. discriminate.
    + rewrite Hdir. repeat split; auto; try discriminate.
      intros (_ & H). apply Hrec in H. discriminate.
  - apply mem_false in Hmem. rewrite Hdir. repeat split; auto; try discriminate.
    intros (H & _). contradiction.
Qed.
End LockClaims.


(** C5, on the code.  In the race of [LockExamples.unlink_race] both
    concurrent calls of [acquire] return [True], and two descriptions hold an
    exclusive lock at the end, each on a file that was the lock file of
    ["john"]: the one [release] unlinked and the one created after it. *)
Theorem acquire_unlink_race_two_winners :
  LockExamples.unlink_race
  = (Some true, true, Some 1%nat, Some 2%nat,
     [(1%nat, Some 2%nat); (0%nat, Some 1%nat)]).
Proof. vm_compute. reflexivity. Qed.

(** With the two callers alone the race has one winner: here the second
    caller, whose [flock] comes first. *)
Example acquire_alone_one_winner :
  AgentLock.result (AgentLock.second
    (AgentLock.race LockExamples.pid_text LockExamples.time_text "john"
       LockExamples.empty_kernel [true; false; false; true; true; false]))
  = Some true /\
  AgentLock.result (AgentLock.first
    (AgentLock.race LockExamples.pid_text LockExamples.time_text "john"
       LockExamples.empty_kernel [true; false; false; true; true; false]))
  = Some false.
Proof. split; vm_compute; reflexivity. Qed.

Lemma three_records_well_formed : AgentLock.well_formed LockExamples.three_records.
Proof.
  intros i ino owner Hi Hf. unfold LockExamples.three_records in *.
  cbn [AgentLock.inodes AgentLock.ofds] in *.
  repeat (apply lookup_insert_Some in Hi;
          destruct Hi as [[<- <-]|[_ Hi]]; [simpl in Hf; try discriminate|]).
  - injection Hf as <-. rewrite lookup_insert_eq. eauto.
  - rewrite lookup_empty in Hi. discriminate.
Qed.

(** C6, on the code.  In the race of [EdgeExamples.reclaim_race] the
    reclamation has read the stale record of [john] (description 8) when a
    caller acquires the lock: that caller gets [True], its description 9
    holds the lock, and the lock file holds its fresh record.  The
    reclamation then unlinks the lock file: a record that a live
    description holds, written at the time of the clock, is deleted.  The
    next caller gets [True] as well, on a new file, while description 9
    still holds the lock of the old one. *)
Theorem cleanup_stale_locks_race_deletes_held :
  EdgeExamples.reclaim_race
  = (Reclaim.Read 8 ["11"; "100.0"],
     (true, Some 9%nat, Some 9%nat, ["4242"; "1000.0"]),
     (None, Reclaim.Finished),
     (true, Some 10%nat),
     (Some (Some 9%nat), Some 10%nat)).
Proof. vm_compute. reflexivity. Qed.

(** X30, witness: of a stale, a fresh and a held record, reclamation with a
    threshold of 600 seconds removes the stale one only. *)
Lemma cleanup_stale_locks_reclaims_witness :
  AgentLock.dir (AgentLock.cleanup_stale_locks LockExamples.float_of_text
       LockExamples.now 600 LockExamples.lock_files LockExamples.three_records)
    !! "john.lock" = None /\
  AgentLock.dir (AgentLock.cleanup_stale_locks LockExamples.float_of_text
       LockExamples.now 600 LockExamples.lock_files LockExamples.three_records)
    !! "pete.lock" = Some 1%nat /\
  AgentLock.dir (AgentLock.cleanup_stale_locks LockExamples.float_of_text
       LockExamples.now 600 LockExamples.lock_files LockExamples.three_records)
    !! "marie.lock" = Some 2%nat.
Proof.
  destruct (cleanup_stale_locks_reclaims LockExamples.float_of_text LockExamples.now
              600 LockExamples.lock_files LockExamples.three_records
              three_records_well_formed) as (_ & _ & H).
  split; [|split].
  - apply (H "john.lock" 0%nat (AgentLock.mkInode ["11"; "100.0"] None));
      [reflexivity | reflexivity |].
    split; [simpl; auto|]. split; [reflexivity|].
    exists (AgentLock.Finite (100 # 1)). split; reflexivity.
  - apply (H "pete.lock" 1%nat (AgentLock.mkInode ["12"; "950.0"] None)
             eq_refl eq_refl) with (t := 950 # 1); [reflexivity|].
    vm_compute. discriminate.
  - apply (H "marie.lock" 2%nat (AgentLock.mkInode ["13"; "100.0"] (Some 7%nat))
             eq_refl eq_refl). discriminate.
Defined.

(** ** Change detection and timeouts *)

Section OrchestratorFacts.
Import Py Orchestrator.
Variable md5_hexdigest : string -> string.
Variable str_int : Z -> string.
Variable str_float : Q -> string.

Local Abbreviation hash := (_hash_file md5_hexdigest str_int str_float).
Local Abbreviation scan := (scan_path md5_hexdigest str_int str_float).
Local Abbreviation changes := (get_changed_files md5_hexdigest str_int str_float).

(** The fast negative path: nothing is looked at, nothing is updated. *)
Lemma get_changed_files_fast st p :
  Qle_bool (root_mtime p)
           (match last_scan_mtime st with Some t => t | None => 0%Q end) = true ->
  changes st p = (∅, st).
Proof. intros H. unfold get_changed_files. now rewrite H. Qed.

Lemma get_changed_files_full st p :
  Qle_bool (root_mtime p)
           (match last_scan_mtime st with Some t => t | None => 0%Q end) = false ->
  changes st p =
  ((fold_left scan (tree p) (∅, file_hashes st)).1,
   mkState (Some (root_mtime p)) (last_run st)
           (fold_left scan (tree p) (∅, file_hashes st)).2).
Proof.
  intros H. unfold get_changed_files. rewrite H.
  now destruct (fold_left scan (tree p) (∅, file_hashes st)).
Qed.

(** A scanned readable file is hashed to its fingerprint. *)
Lemma hash_fingerprint f :
  unreadable f = false -> fingerprint md5_hexdigest str_int str_float f (hash f).
Proof.
  unfold unreadable, fingerprint, _hash_file.
  destruct (stat f) as [s|]; [|discriminate]. intros H. exists s. split; [reflexivity|].
  destruct (Z.ltb_spec 1000000 (st_size s)) as [Hbig|Hsmall]; [left; auto|].
  right. split; [assumption|].
  destruct (bytes f) as [content|]; [eauto | discriminate].
Qed.

Lemma hash_unreadable f : unreadable f = true -> hash f = "error".
Proof.
  unfold unreadable, _hash_file. destruct (stat f) as [s|]; [|reflexivity].
  destruct (1000000 <? st_size s); [discriminate|].
  destruct (bytes f); [discriminate | reflexivity].
Qed.

(** One path of the scan, on the entry of a relative path. *)
Lemma scan_path_lookup acc f rel :
  (scan acc f).2 !! rel =
  if scanned f && String.eqb rel (rel_path f) then Some (hash f) else acc.2 !! rel.
Proof.
  unfold scan_path, scanned.
  destruct (is_file f); cbn [negb andb]; [|reflexivity].
  destruct (scan_ignored (parts f)); cbn [negb andb]; [reflexivity|].
  destruct (String.eqb_spec rel (rel_path f)) as [->|Hne].
  - destruct (decide (acc.2 !! rel_path f = Some (hash f))) as [E|E]; [exact E|].
    cbn [snd]. apply lookup_insert_eq.
  - destruct (decide (acc.2 !! rel_path f = Some (hash f))); [reflexivity|].
    cbn [snd]. apply lookup_insert_ne. congruence.
Qed.

Lemma scan_fold_other l acc rel :
  ~ In rel (map rel_path (List.filter scanned l)) ->
  (fold_left scan l acc).2 !! rel = acc.2 !! rel.
Proof.
  revert acc. induction l as [|f l IH]; intros acc Hrel; [reflexivity|].
  cbn [fold_left]. cbn [List.filter] in Hrel.
  rewrite IH, scan_path_lookup.
  - destruct (scanned f) eqn:Hs; [|reflexivity]. cbn [andb].
    destruct (String.eqb_spec rel (rel_path f)) as [->|]; [|reflexivity].
    exfalso. apply Hrel. now left.
  - destruct (scanned f); [|assumption]. intros H. apply Hrel. now right.
Qed.

(** After the loop every scanned path has its hash in the cache. *)
Lemma scan_fold_snapshot l acc f :
  List.NoDup (map rel_path (List.filter scanned l)) ->
  In f l -> scanned f = true ->
  (fold_left scan l acc).2 !! rel_path f = Some (hash f).
Proof.
  revert acc. induction l as [|f0 l IH]; intros acc Hnd Hin Hs; [destruct Hin|].
  cbn [fold_left]. cbn [List.filter] in Hnd.
  destruct Hin as [->|Hin].
  - rewrite Hs in Hnd. cbn [map] in Hnd. apply NoDup_cons_iff in Hnd as [Hnot _].
    rewrite scan_fold_other by assumption.
    rewrite scan_path_lookup, Hs, String.eqb_refl. reflexivity.
  - apply IH; try assumption.
    destruct (scanned f0); [|assumption]. now apply NoDup_cons_iff in Hnd as [_ Hnd].
Qed.

(** A file whose hash is the cached one is not reported, as long as no
    other path of the tree shares its name. *)
Lemma scan_fold_unreported l acc f :
  (forall f', In f' l -> f' = f \/ (rel_path f' <> rel_path f /\ path f' <> path f)) ->
  acc.2 !! rel_path f = Some (hash f) -> path f ∉ acc.1 ->
  (fold_left scan l acc).2 !! rel_path f = Some (hash f) /\
  path f ∉ (fold_left scan l acc).1.
Proof.
  revert acc. induction l as [|f0 l IH]; intros acc Hl Hh Hc; [auto|].
  cbn [fold_left]. apply IH.
  - intros f' Hf'. apply Hl. now right.
  - rewrite scan_path_lookup.
    destruct (scanned f0 && String.eqb (rel_path f) (rel_path f0)) eqn:E; [|assumption].
    apply andb_prop in E as [_ E]. apply String.eqb_eq in E.
    destruct (Hl f0) as [->|[Hne _]]; [now left | reflexivity | congruence].
  - unfold scan_path.
    destruct (negb (is_file f0)); [assumption|].
    destruct (scan_ignored (parts f0)); [assumption|].
    destruct (decide (acc.2 !! rel_path f0 = Some (hash f0))) as [E|E]; [assumption|].
    cbn [fst]. destruct (Hl f0) as [->|[_ Hne]]; [now left | contradiction |].
    set_solver.
Qed.


Lemma execution_plan_timeout prompt now st p :
  timeout (fst (get_execution_plan md5_hexdigest str_int str_float prompt now st p)) =
  match prompt_kind prompt with
  | Skip => 0
  | Run => get_adaptive_timeout p
  | SkipUnlessChanges =>
      if bool_decide (0 < change_volume md5_hexdigest str_int str_float st p)%nat
      then get_adaptive_timeout p else 0
  end.
Proof.
  unfold get_execution_plan, should_skip_hooks, prompt_kind, has_file_changes,
    change_volume.
  destruct (String.length prompt <? 20)%nat; [reflexivity|].
  destruct (List.find _ SKIP_PATTERNS); [reflexivity|].
  destruct (List.find _ FULL_BAND_PATTERNS).
  - destruct (changes st p). reflexivity.
  - destruct (contains "why" _ || contains "explain" _).
    + destruct (changes st p) as [changed st1]. cbn [fst].
      destruct (bool_decide (0 < size changed)%nat); cbn [negb]; [|reflexivity].
      destruct (changes st1 p). reflexivity.
    + destruct (changes st p). reflexivity.
Qed.

Lemma get_adaptive_timeout_nonneg p : 0 <= get_adaptive_timeout p.
Proof.
  unfold get_adaptive_timeout, TIMEOUT_SMALL, TIMEOUT_MEDIUM, TIMEOUT_LARGE.
  destruct (file_count p <? 100)%nat; [lia|].
  destruct (file_count p <? 500)%nat; lia.
Qed.
End OrchestratorFacts.

Section OrchestratorClaims.
Import Py Orchestrator.
Variable md5_hexdigest : string -> string.
Variable str_int : Z -> string.
Variable str_float : Q -> string.

Local Abbreviation changes := (get_changed_files md5_hexdigest str_int str_float).
Local Abbreviation plan := (get_execution_plan md5_hexdigest str_int str_float).
Local Abbreviation volume := (change_volume md5_hexdigest str_int str_float).

(** C7 (as amended).  After a run of [get_changed_files] that goes through
    the tree (the mtime of the project root exceeds the recorded one), the
    hash cache has, for every existing, non-ignored file that can be read,
    an entry equal to the current fingerprint of the file: the content
    hash, or size and mtime over 1 MB.  A run on the fast negative path
    returns the empty set and leaves the cache as it was. *)
Theorem get_changed_files_snapshot (st : State) (p : Project) :
  (Qle_bool (root_mtime p)
            (match last_scan_mtime st with Some t => t | None => 0%Q end) = false ->
   List.NoDup (map rel_path (List.filter scanned (tree p))) ->
   forall f, In f (tree p) -> scanned f = true -> unreadable f = false ->
   exists h, file_hashes (snd (changes st p)) !! rel_path f = Some h /\
             fingerprint md5_hexdigest str_int str_float f h) /\
  (Qle_bool (root_mtime p)
            (match last_scan_mtime st with Some t => t | None => 0%Q end) = true ->
   changes st p = (∅, st)).
Proof.
  split.
  - intros Hfull Hnd f Hin Hs Hr.
    exists (_hash_file md5_hexdigest str_int str_float f). split.
    + rewrite get_changed_files_full by assumption. cbn [snd file_hashes].
      now apply scan_fold_snapshot.
    + now apply hash_fingerprint.
  - apply get_changed_files_fast.
Qed.

(** A file that cannot be read is cached under ["error"], and from then on
    a scan does not report it. *)
Lemma get_changed_files_unreadable_cached (st : State) (p : Project) (f : PathEntry) :
  (forall f', In f' (tree p) ->
              f' = f \/ (rel_path f' <> rel_path f /\ path f' <> path f)) ->
  unreadable f = true ->
  file_hashes st !! rel_path f = Some "error" ->
  path f ∉ fst (changes st p).
Proof.
  intros Huniq Hun Hcached.
  destruct (Qle_bool (root_mtime p)
              (match last_scan_mtime st with Some t => t | None => 0%Q end)) eqn:E.
  - rewrite get_changed_files_fast by assumption. cbn [fst]. set_solver.
  - rewrite get_changed_files_full by assumption. cbn [fst].
    apply (scan_fold_unreported md5_hexdigest str_int str_float (tree p)
             (∅, file_hashes st) f Huniq).
    + cbn [snd]. now rewrite (hash_unreadable _ _ _ f Hun).
    + cbn [fst]. set_solver.
Qed.

Lemma suggested_timeout_monotone (c1 c2 : Z) :
  c1 <= c2 -> suggested_timeout c1 <= suggested_timeout c2.
Proof.
  intros H. unfold suggested_timeout.
  destruct (Z.ltb_spec 100 c1), (Z.ltb_spec 100 c2); try lia;
    destruct (Z.ltb_spec 50 c1), (Z.ltb_spec 50 c2); try lia;
    destruct (Z.ltb_spec 20 c1), (Z.ltb_spec 20 c2); lia.
Qed.

(** X29.  The timeout of [get_adaptive_timeout] grows with the size of the
    project: of two projects, the one in which [get_project_size] counts at
    least as many files gets at least the timeout of the other. *)
Lemma get_adaptive_timeout_by_size (p1 p2 : Project) :
  (file_count p1 <= file_count p2)%nat ->
  get_adaptive_timeout p1 <= get_adaptive_timeout p2.
Proof.
  intros H. unfold get_adaptive_timeout, TIMEOUT_SMALL, TIMEOUT_MEDIUM, TIMEOUT_LARGE.
  destruct (Nat.ltb_spec (file_count p1) 100), (Nat.ltb_spec (file_count p2) 100);
    try lia;
    destruct (Nat.ltb_spec (file_count p1) 500), (Nat.ltb_spec (file_count p2) 500);
    lia.
Qed.

Lemma plan_timeout_run (prompt : string) (now : Q) (st : State) (p : Project) :
  (should_run (fst (plan prompt now st p)) = false ->
   timeout (fst (plan prompt now st p)) = 0) /\
  (should_run (fst (plan prompt now st p)) = true ->
   timeout (fst (plan prompt now st p)) = get_adaptive_timeout p).
Proof.
  unfold get_execution_plan.
  destruct (should_skip_hooks md5_hexdigest str_int str_float prompt st p)
    as [[should_skip reason] st1].
  destruct should_skip; cbn [fst should_run timeout].
  - split; [reflexivity | discriminate].
  - destruct (changes st1 p). cbn [fst should_run timeout].
    split; [discriminate | reflexivity].
Qed.

(** C9 (as amended).  The timeout of a plan is tiered by the size of the
    project, not by the volume of change: a plan that runs gets 60 seconds
    when [get_project_size] counts fewer than 100 files, 120 when fewer than
    500, and 180 otherwise, whatever the number of changed files, and a
    skipped plan gets 0.  So two plans that run on one project get the same
    timeout; and of two runs on the same prompt and project, the one that
    finds at least as many changed files plans a timeout at least as large.
    The timeout tiered by the number of changed files is the one that
    [run_conductor] suggests: 120 up to 20 files, 180 up to 50, 240 up to
    100, and 300 above. *)
Theorem timeout_monotone_in_changes :
  (forall prompt now st p,
      (should_run (fst (plan prompt now st p)) = false ->
       timeout (fst (plan prompt now st p)) = 0) /\
      (should_run (fst (plan prompt now st p)) = true ->
       ((file_count p < 100)%nat -> timeout (fst (plan prompt now st p)) = 60) /\
       ((100 <= file_count p < 500)%nat -> timeout (fst (plan prompt now st p)) = 120) /\
       ((500 <= file_count p)%nat -> timeout (fst (plan prompt now st p)) = 180))) /\
  (forall prompt1 prompt2 now1 now2 st1 st2 p,
      should_run (fst (plan prompt1 now1 st1 p)) = true ->
      should_run (fst (plan prompt2 now2 st2 p)) = true ->
      timeout (fst (plan prompt1 now1 st1 p)) = timeout (fst (plan prompt2 now2 st2 p))) /\
  (forall prompt now1 now2 st1 st2 p,
      (volume st1 p <= volume st2 p)%nat ->
      timeout (fst (plan prompt now1 st1 p)) <= timeout (fst (plan prompt now2 st2 p))) /\
  (forall c : Z,
      (c <= 20 -> suggested_timeout c = 120) /\
      (20 < c <= 50 -> suggested_timeout c = 180) /\
      (50 < c <= 100 -> suggested_timeout c = 240) /\
      (100 < c -> suggested_timeout c = 300)) /\
  (forall c1 c2 : Z, c1 <= c2 -> suggested_timeout c1 <= suggested_timeout c2).
Proof.
  split; [|split; [|split; [|split]]].
  - intros prompt now st p.
    destruct (plan_timeout_run prompt now st p) as [Hskip Hrun].
    split; [exact Hskip|]. intros H. rewrite (Hrun H).
    unfold get_adaptive_timeout, TIMEOUT_SMALL, TIMEOUT_MEDIUM, TIMEOUT_LARGE.
    destruct (Nat.ltb_spec (file_count p) 100);
      [|destruct (Nat.ltb_spec (file_count p) 500)];
      (split; [|split]); intros; try reflexivity; lia.
  - intros prompt1 prompt2 now1 now2 st1 st2 p H1 H2.
    rewrite (proj2 (plan_timeout_run prompt1 now1 st1 p) H1).
    now rewrite (proj2 (plan_timeout_run prompt2 now2 st2 p) H2).
  - intros prompt now1 now2 st1 st2 p Hvol.
    rewrite !execution_plan_timeout.
    pose proof (get_adaptive_timeout_nonneg p) as Hpos.
    destruct (prompt_kind prompt); try lia.
    destruct (bool_decide_reflect (0 < volume st1 p)%nat) as [H1|H1];
      destruct (bool_decide_reflect (0 < volume st2 p)%nat) as [H2|H2]; lia.
  - intros c. unfold suggested_timeout.
    destruct (Z.ltb_spec 100 c); [|destruct (Z.ltb_spec 50 c);
      [|destruct (Z.ltb_spec 20 c)]];
      (split; [|split; [|split]]); intros; try reflexivity; lia.
  - exact suggested_timeout_monotone.
Qed.
End OrchestratorClaims.


(** C7, witness: after the first scan the cache holds the fingerprint of
    [a.py]. *)
Lemma get_changed_files_snapshot_witness :
  exists h,
    Orchestrator.file_hashes (snd ScanExamples.scan_1) !! "a.py" = Some h /\
    Orchestrator.fingerprint ScanExamples.md5 ScanExamples.str_int
      ScanExamples.str_float ScanExamples.a_py h.
Proof.
  refine (proj1 (get_changed_files_snapshot ScanExamples.md5 ScanExamples.str_int
                   ScanExamples.str_float ScanExamples.start ScanExamples.project_1)
                eq_refl _ ScanExamples.a_py _ eq_refl eq_refl).
  - repeat constructor; simpl; intuition discriminate.
  - simpl. auto.
Defined.

(** C7, counterexample: the third scan follows a successful first one and
    takes the fast negative path.  It returns no change, and the cache it
    leaves has no entry for the existing, readable, non-ignored file
    [sub/new.py] and still has the hash of the old content of [a.py]. *)
Lemma get_changed_files_fast_path_stale :
  Orchestrator.scanned ScanExamples.new_py = true /\
  Orchestrator.unreadable ScanExamples.new_py = false /\
  In ScanExamples.new_py (Orchestrator.tree ScanExamples.project_3) /\
  size (fst ScanExamples.scan_3) = O /\
  Orchestrator.file_hashes (snd ScanExamples.scan_3) !! "sub/new.py" = None /\
  Orchestrator.file_hashes (snd ScanExamples.scan_3) !! "a.py" = Some "md5:print(1)" /\
  Orchestrator._hash_file ScanExamples.md5 ScanExamples.str_int ScanExamples.str_float
    ScanExamples.a_py_edited = "md5:print(2)".
Proof.
  repeat split; try (vm_compute; reflexivity). simpl. auto.
Qed.

(** C8, on the code.  [secret.key] cannot be read.  The first scan reports
    it and caches the value ["error"] for it; the second scan, which goes
    through the tree again while the file still cannot be read, does not
    report it. *)
Theorem get_changed_files_unreadable_twice :
  Orchestrator.unreadable ScanExamples.secret = true /\
  bool_decide ("/proj/secret.key" ∈ fst ScanExamples.scan_1) = true /\
  Orchestrator.file_hashes (snd ScanExamples.scan_1) !! "secret.key" = Some "error" /\
  Qle_bool (Orchestrator.root_mtime ScanExamples.project_2) (10 # 1) = false /\
  bool_decide ("/proj/secret.key" ∈ fst ScanExamples.scan_2) = false /\
  size (fst ScanExamples.scan_2) = O.
Proof. repeat split; vm_compute; reflexivity. Qed.

(** C9, witness: on a "why" question the run that finds no change plans no
    timeout, the run that finds two changed files plans 60 seconds. *)
Lemma timeout_monotone_in_changes_witness :
  Orchestrator.timeout
    (fst (Orchestrator.get_execution_plan ScanExamples.md5 ScanExamples.str_int
            ScanExamples.str_float ScanExamples.why_prompt (30 # 1)
            (snd ScanExamples.scan_1) ScanExamples.project_2))
  <= Orchestrator.timeout
       (fst (Orchestrator.get_execution_plan ScanExamples.md5 ScanExamples.str_int
               ScanExamples.str_float ScanExamples.why_prompt (30 # 1)
               ScanExamples.start ScanExamples.project_2)).
Proof.
  destruct (timeout_monotone_in_changes ScanExamples.md5 ScanExamples.str_int
              ScanExamples.str_float) as (_ & _ & Hmono & _).
  apply Hmono. vm_compute. lia.
Defined.

(** C9, counterexample: the timeout is not scaled by the volume of change.
    On a project of 101 files, a run that finds no changed file and a run
    that finds all 101 changed plan the same timeout, that of the project
    size; the timeouts that [run_conductor] suggests for the two volumes
    are 120 and 300 seconds. *)
Lemma timeout_not_scaled_by_changes :
  Orchestrator.file_count (EdgeExamples.many_files (20 # 1)) = 101%nat /\
  Orchestrator.change_volume ScanExamples.md5 ScanExamples.str_int ScanExamples.str_float
    EdgeExamples.scanned_before (EdgeExamples.many_files (20 # 1)) = 0%nat /\
  Orchestrator.change_volume ScanExamples.md5 ScanExamples.str_int ScanExamples.str_float
    ScanExamples.start (EdgeExamples.many_files (20 # 1)) = 101%nat /\
  Orchestrator.get_execution_plan ScanExamples.md5 ScanExamples.str_int
    ScanExamples.str_float MoreExamples.build_prompt (30 # 1)
    EdgeExamples.scanned_before (EdgeExamples.many_files (20 # 1))
  = (Orchestrator.mkPlan true 120 0,
     Orchestrator.mkState (Some (20 # 1)) (Some (30 # 1))
       (Orchestrator.file_hashes EdgeExamples.scanned_before)) /\
  fst (Orchestrator.get_execution_plan ScanExamples.md5 ScanExamples.str_int
         ScanExamples.str_float MoreExamples.build_prompt (30 # 1)
         ScanExamples.start (EdgeExamples.many_files (20 # 1)))
  = Orchestrator.mkPlan true 120 101 /\
  Orchestrator.suggested_timeout 0 = 120 /\
  Orchestrator.suggested_timeout 101 = 300.
Proof. repeat split; vm_compute; reflexivity. Qed.

Example execution_plan_timeouts :
  Orchestrator.timeout
    (fst (Orchestrator.get_execution_plan ScanExamples.md5 ScanExamples.str_int
            ScanExamples.str_float ScanExamples.why_prompt (30 # 1)
            (snd ScanExamples.scan_1) ScanExamples.project_2)) = 0 /\
  Orchestrator.timeout
    (fst (Orchestrator.get_execution_plan ScanExamples.md5 ScanExamples.str_int
            ScanExamples.str_float ScanExamples.why_prompt (30 # 1)
            ScanExamples.start ScanExamples.project_2)) = 60.
Proof. split; vm_compute; reflexivity. Qed.

(** * Part III: further properties of the code *)

(** ** gilfoyle_agent.py *)

Section MoreCycles.
Import Py Gilfoyle.

(** X1.  When the recursion limit leaves room for [limit] nested calls of
    [has_cycle], [detect_circular_dependencies] returns on every graph of
    fewer than [limit] files, a deeper search being cut off by
    [RecursionError]; and whenever it returns, it returns [True] exactly
    when the edges it follows (from a file to every graph key that contains
    one of its imports as a substring, or whose stem is that import) have a
    cycle. *)
Theorem detect_circular_dependencies_iff (limit : nat) (g : Graph) :
  ((length g < limit)%nat ->
   exists b, Bounded.detect_circular_dependencies_within limit g = Some b) /\
  (forall b, Bounded.detect_circular_dependencies_within limit g = Some b ->
             (b = true <-> exists x, on_cycle g x)).
Proof. exact (detect_within_spec limit g). Qed.

Lemma contains_empty (s : string) : contains "" s = true.
Proof. destruct s; reflexivity. Qed.

(** X2.  A file one of whose imports occurs in its own path, or is its own
    stem, is an edge to itself: the graph is then reported as circular.
    The empty import is such an import for every file. *)
Theorem detect_circular_dependencies_self_import
    (g : Graph) (x : string) (e : Entry) (imp : string) :
  dict_get x g = Some e -> In imp (imports e) ->
  contains imp x = true \/ stem x = imp \/ imp = "" ->
  edge g x x /\ detect_circular_dependencies g = Some true.
Proof.
  intros Hg Himp Hself.
  assert (Hprov : provides imp x = true).
  { unfold provides. destruct Hself as [H|[H|H]].
    - now rewrite H.
    - rewrite H, String.eqb_refl. apply orb_true_r.
    - subst imp. now rewrite contains_empty. }
  assert (Hedge : edge g x x).
  { unfold edge, targets. rewrite Hg. apply in_flat_map. exists imp.
    split; [assumption|]. apply filter_In. split; [|assumption].
    eapply dict_get_Some_key; eauto. }
  split; [assumption|].
  destruct (detect_circular_dependencies_spec g) as (b & -> & Hb).
  f_equal. apply Hb. exists x. now apply tc_once.
Qed.
End MoreCycles.

Section MoreImpact.
Import Py Gilfoyle.
Variable parse_with_treesitter : string -> Parsed.
Variable set_order : list string -> list string.

Local Abbreviation analyze := (analyze_dependencies parse_with_treesitter).
Local Abbreviation find := (find_impacted_files parse_with_treesitter set_order).

Lemma changed_sigs_same (d : odict string) : is_dict d -> changed_sigs d d = [].
Proof.
  intros Hd. unfold changed_sigs.
  assert (H : forall l, (forall kv, In kv l -> In kv d) ->
    flat_map (fun kv => match dict_get (fst kv) d with
       | Some old => if String.eqb old (snd kv) then []
                     else [mkChange (fst kv) old (snd kv)]
       | None => [] end) l = []).
  { induction l as [|[k v] l IH]; intros Hl; [reflexivity|]. simpl.
    rewrite (In_dict_get k v d Hd) by (apply Hl; now left).
    rewrite String.eqb_refl. apply IH. intros kv Hkv. apply Hl. now right. }
  apply H. auto.
Qed.

(** X3.  When the names and signature texts that a file parses to are those
    of its graph entry, [detect_signature_changes] reports nothing: moved
    lines and changed kinds of definition are no signature change. *)
Theorem detect_signature_changes_unchanged (g : Graph) (filepath : string) (old : Entry) :
  dict_get filepath g = Some old ->
  map (fun d => (def_name d, signature_of d)) (p_definitions (parse_with_treesitter filepath))
  = map (fun d => (def_name d, signature_of d)) (definitions old) ->
  detect_signature_changes parse_with_treesitter g filepath = [].
Proof.
  intros Hg Hsame. unfold detect_signature_changes. rewrite Hg.
  unfold sigs_of. rewrite Hsame. apply changed_sigs_same, dict_of_is_dict.
Qed.

Lemma analyze_dependencies_get (g : Graph) (filepath : string) :
  dict_get filepath (fst (analyze g filepath))
  = Some (mkEntry (p_imports (parse_with_treesitter filepath))
            (p_definitions (parse_with_treesitter filepath))
            (p_calls (parse_with_treesitter filepath))
            (detect_language filepath)
            (detect_signature_changes parse_with_treesitter g filepath)).
Proof.
  unfold analyze_dependencies. cbn [fst].
  now rewrite dict_get_set, String.eqb_refl.
Qed.

(** X4.  [analyze_dependencies] replaces the entry of the analysed path by
    the facts the file parses to now, together with the signature changes
    against the entry it replaces; every other entry is left as it was,
    and the graph stays a dict. *)
Theorem analyze_dependencies_entry (g : Graph) (filepath : string) :
  let parsed := parse_with_treesitter filepath in
  dict_get filepath (fst (analyze g filepath))
  = Some (mkEntry (p_imports parsed) (p_definitions parsed) (p_calls parsed)
            (detect_language filepath)
            (detect_signature_changes parse_with_treesitter g filepath)) /\
  (forall other, other <> filepath ->
     dict_get other (fst (analyze g filepath)) = dict_get other g) /\
  (is_dict g -> is_dict (fst (analyze g filepath))) /\
  snd (analyze g filepath) = (p_imports parsed, p_definitions parsed).
Proof.
  cbv zeta. unfold analyze_dependencies. cbn [fst snd]. split; [|split; [|split]].
  - now rewrite dict_get_set, String.eqb_refl.
  - intros other Hne. rewrite dict_get_set.
    destruct (String.eqb_spec other filepath); [contradiction | reflexivity].
  - apply dict_set_is_dict.
  - reflexivity.
Qed.

(** X5.  Signature changes are not kept: analysing a path a second time,
    with the file as it was at the first analysis, leaves an entry whose
    signature-change list is empty, whatever the first analysis found. *)
Theorem analyze_dependencies_twice (g : Graph) (filepath : string) :
  exists e,
    dict_get filepath (fst (analyze (fst (analyze g filepath)) filepath)) = Some e /\
    signature_changes e = [] /\
    definitions e = p_definitions (parse_with_treesitter filepath).
Proof.
  pose proof (analyze_dependencies_get g filepath) as H1.
  pose proof (analyze_dependencies_get (fst (analyze g filepath)) filepath) as H2.
  eexists. split; [exact H2|]. cbn [signature_changes definitions].
  split; [|reflexivity].
  unfold detect_signature_changes. rewrite H1. cbn [definitions].
  apply changed_sigs_same. unfold sigs_of. apply dict_of_is_dict.
Qed.
End MoreImpact.

(** ** Text up to the case of its letters *)

Section Caseless.
Import Py PyText.

Lemma prefix_app (a post : string) : String.prefix a (a ++ post) = true.
Proof.
  induction a as [|c a IH]; simpl; [now destruct post|].
  destruct (Ascii.ascii_dec c c); [exact IH | contradiction].
Qed.

Lemma prefix_split (a b : string) :
  String.prefix a b = true -> exists post, b = a ++ post.
Proof.
  revert b. induction a as [|c a IH]; intros b.
  - intros _. now exists b.
  - destruct b as [|d b]; simpl; [discriminate|].
    destruct (Ascii.ascii_dec c d) as [->|]; [|discriminate].
    intros H. destruct (IH b H) as [post ->]. now exists post.
Qed.

Lemma contains_split (a b : string) :
  contains a b = true <-> exists pre post, b = pre ++ a ++ post.
Proof.
  split.
  - induction b as [|d b IH]; cbn [contains].
    + destruct (String.prefix a "") eqn:E; [|discriminate].
      intros _. apply prefix_split in E as [post E]. now exists "", post.
    + destruct (String.prefix a (String d b)) eqn:E.
      * intros _. apply prefix_split in E as [post E]. now exists "", post.
      * intros H. destruct (IH H) as (pre & post & ->).
        now exists (String d pre), post.
  - intros (pre & post & ->). induction pre as [|d pre IH].
    + apply contains_prefix. exact (prefix_app a post).
    + change ((if String.prefix a (String d (pre ++ a ++ post)) then true
               else contains a (pre ++ a ++ post)) = true).
      rewrite IH. now destruct (String.prefix _ _).
Qed.

Lemma lower_app (a b : string) : lower (a ++ b) = lower a ++ lower b.
Proof. induction a as [|c a IH]; simpl; [reflexivity | now rewrite IH]. Qed.

Lemma lower_split (t x y : string) :
  lower t = x ++ y -> exists t1 t2, t = t1 ++ t2 /\ lower t1 = x /\ lower t2 = y.
Proof.
  revert t. induction x as [|c x IH]; intros t H.
  - now exists "", t.
  - destruct t as [|d t]; [discriminate|]. cbn [lower append] in H.
    injection H as Hc H. destruct (IH t H) as (t1 & t2 & -> & H1 & H2).
    exists (String d t1), t2. cbn [lower append]. now rewrite Hc, H1.
Qed.

Lemma nat_of_ascii_inj (x y : ascii) : nat_of_ascii x = nat_of_ascii y -> x = y.
Proof.
  intros H. rewrite <- (ascii_nat_embedding x), <- (ascii_nat_embedding y).
  now rewrite H.
Qed.

Lemma same_letter_lower (x y : ascii) :
  same_letter x y = true <-> lower_ascii x = lower_ascii y.
Proof.
  assert (Hl : forall c,
    lower_ascii c
    = ascii_of_nat (if ((65 <=? nat_of_ascii c)%nat && (nat_of_ascii c <=? 90)%nat)%bool
                    then nat_of_ascii c + 32 else nat_of_ascii c)).
  { intros c. unfold lower_ascii. cbv zeta.
    destruct ((65 <=? nat_of_ascii c)%nat && (nat_of_ascii c <=? 90)%nat)%bool;
      [reflexivity | now rewrite ascii_nat_embedding]. }
  assert (Hinj : forall a b, (a < 256)%nat -> (b < 256)%nat ->
            ascii_of_nat a = ascii_of_nat b -> a = b).
  { intros a b Ha Hb E. apply (f_equal nat_of_ascii) in E.
    now rewrite !nat_ascii_embedding in E by assumption. }
  rewrite (Hl x), (Hl y). unfold same_letter. cbv zeta.
  pose proof (nat_ascii_bounded x) as Bx. pose proof (nat_ascii_bounded y) as By.
  set (n := nat_of_ascii x) in *. set (m := nat_of_ascii y) in *.
  split.
  - intros H. f_equal.
    destruct (Nat.eqb_spec n m), (Nat.eqb_spec m (n + 32)), (Nat.eqb_spec n (m + 32)),
      (Nat.leb_spec 65 n), (Nat.leb_spec n 90), (Nat.leb_spec 65 m), (Nat.leb_spec m 90);
      cbn [andb orb] in *; try lia; discriminate.
  - intros E. apply Hinj in E.
    + destruct (Nat.eqb_spec n m), (Nat.eqb_spec m (n + 32)), (Nat.eqb_spec n (m + 32)),
        (Nat.leb_spec 65 n), (Nat.leb_spec n 90), (Nat.leb_spec 65 m), (Nat.leb_spec m 90);
        cbn [andb orb] in *; try reflexivity; lia.
    + destruct (Nat.leb_spec 65 n), (Nat.leb_spec n 90); cbn [andb]; lia.
    + destruct (Nat.leb_spec 65 m), (Nat.leb_spec m 90); cbn [andb]; lia.
Qed.

Lemma caseless_eq_lower (a b : string) :
  caseless_eq a b = true <-> lower a = lower b.
Proof.
  revert b. induction a as [|x a IH]; intros [|y b]; cbn [caseless_eq lower];
    try (split; [reflexivity || discriminate | reflexivity || discriminate]).
  rewrite andb_true_iff, same_letter_lower, IH. split.
  - intros [-> ->]. reflexivity.
  - intros [= -> ->]. now split.
Qed.

(** The test of [find_impacted_files] on the lower-cased texts is the
    occurrence of the stem up to the case of its letters. *)
Lemma contains_lower_caseless (stem imp : string) :
  contains (lower stem) (lower imp) = true <-> occurs_caseless stem imp.
Proof.
  unfold occurs_caseless. rewrite contains_split. split.
  - intros (pre & post & E).
    apply lower_split in E as (t1 & t23 & -> & _ & E).
    apply lower_split in E as (w & t3 & -> & E & _).
    exists t1, w, t3. split; [reflexivity|]. now apply caseless_eq_lower.
  - intros (pre & w & post & -> & E). apply caseless_eq_lower in E.
    exists (lower pre), (lower post). now rewrite !lower_app, E.
Qed.
End Caseless.

Section ImpactShape.
Import Py Gilfoyle Report.
Variable parse_with_treesitter : string -> Parsed.
Variable set_order : list string -> list string.

Local Abbreviation find := (find_impacted_files parse_with_treesitter set_order).

Lemma dict_set_fresh {V : Type} (k : string) (v : V) (d : odict V) :
  ~ In k (dict_keys d) -> dict_set k v d = (d ++ [(k, v)])%list.
Proof.
  induction d as [|[k' v'] d IH]; simpl; intros Hk; [reflexivity|].
  destruct (String.eqb_spec k k') as [->|Hne]; [tauto|].
  rewrite IH by tauto. reflexivity.
Qed.

Lemma impact_of_keys changed names sigs item k :
  In k (dict_keys (impact_of set_order changed names sigs item)) ->
  k = fst item /\ k <> changed /\
  impact_reasons set_order changed names sigs (snd item) <> [].
Proof.
  unfold impact_of. destruct (String.eqb_spec (fst item) changed) as [E|Hne]; [intros []|].
  destruct (impact_reasons set_order changed names sigs (snd item)) eqn:Ers; [intros []|].
  simpl. intros [<-|[]]. repeat split; [assumption | discriminate].
Qed.

Lemma fold_impacted_flat_map changed names sigs (g : Graph) acc :
  is_dict g -> (forall k, In k (dict_keys acc) -> ~ In k (dict_keys g)) ->
  fold_left (fun impacted item =>
       let '(filepath, data) := item in
       if String.eqb filepath changed then impacted
       else
         match impact_reasons set_order changed names sigs data with
         | [] => impacted
         | rs => dict_set filepath (mkImpact rs (severity_of rs)) impacted
         end) g acc
  = (acc ++ flat_map (impact_of set_order changed names sigs) g)%list.
Proof.
  unfold is_dict, dict_keys. revert acc.
  induction g as [|[fp data] g IH]; simpl; intros acc Hnd Hacc.
  { now rewrite app_nil_r. }
  apply NoDup_cons_iff in Hnd as [Hfp Hnd].
  unfold impact_of at 1. cbn [fst snd].
  destruct (String.eqb_spec fp changed) as [->|Hne].
  - apply IH; [assumption|]. intros k Hk Hin. apply (Hacc k Hk). now right.
  - destruct (impact_reasons set_order changed names sigs data) as [|r rs] eqn:Ers.
    + apply IH; [assumption|]. intros k Hk Hin. apply (Hacc k Hk). now right.
    + rewrite IH; [|assumption|].
      * rewrite dict_set_fresh.
        -- now rewrite <- app_assoc.
        -- intros Hin. apply (Hacc fp Hin). now left.
      * intros k Hk Hin. apply dict_keys_set in Hk. destruct Hk as [->|Hk]; [tauto|].
        apply (Hacc k Hk). now right.
Qed.

Lemma find_impacted_files_graph (g : Graph) (changed_file : string) :
  is_dict g -> is_dict (fst (find g changed_file)).
Proof.
  intros Hd. unfold find_impacted_files. cbn [fst].
  destruct (dict_has changed_file g); [assumption|].
  unfold analyze_dependencies. cbn [fst]. now apply dict_set_is_dict.
Qed.

Lemma flat_map_impact_is_dict changed names sigs (g : Graph) :
  is_dict g -> is_dict (flat_map (impact_of set_order changed names sigs) g).
Proof.
  unfold is_dict, dict_keys.
  induction g as [|[k e] g IH]; simpl; intros Hnd; [constructor|].
  apply NoDup_cons_iff in Hnd as [Hk Hnd]. rewrite map_app.
  assert (Hl : impact_of set_order changed names sigs (k, e) = [] \/
               exists v, impact_of set_order changed names sigs (k, e) = [(k, v)]).
  { unfold impact_of. cbn [fst snd]. destruct (String.eqb k changed); [now left|].
    destruct (impact_reasons set_order changed names sigs e); [now left | right; eauto]. }
  destruct Hl as [->|[v ->]]; simpl; [now apply IH|].
  constructor; [|now apply IH].
  intros Hin. apply Hk. rewrite in_map_iff in Hin. destruct Hin as ([k' v'] & <- & Hin).
  apply in_flat_map in Hin as (item & Hitem & Hin).
  apply (in_map fst) in Hin. apply impact_of_keys in Hin as (-> & _).
  now apply in_map.
Qed.

Lemma find_impacted_files_flat_map (g : Graph) (changed_file : string) :
  is_dict g ->
  snd (find g changed_file)
  = flat_map (impact_of set_order changed_file
        (set_of (map def_name (definitions
           match dict_get changed_file (fst (find g changed_file)) with
           | Some e => e | None => empty_entry end)))
        (signature_changes
           match dict_get changed_file (fst (find g changed_file)) with
           | Some e => e | None => empty_entry end)) (fst (find g changed_file)).
Proof.
  intros Hd. assert (Hg1 := find_impacted_files_graph g changed_file Hd).
  unfold find_impacted_files in *. cbn [fst snd] in *.
  rewrite fold_impacted_flat_map; [reflexivity | assumption | intros k []].
Qed.

(** X6.  The dict returned by [find_impacted_files] lists the files of the
    graph in the order of the graph: each file other than the changed one
    that has at least one reason occurs once, with its reasons and the
    severity computed from them, and nothing else occurs. *)
Theorem find_impacted_files_in_graph_order (g : Graph) (changed_file : string) :
  is_dict g ->
  let g1 := fst (find g changed_file) in
  let changed_data :=
    match dict_get changed_file g1 with Some e => e | None => empty_entry end in
  snd (find g changed_file)
  = flat_map (impact_of set_order changed_file
                (set_of (map def_name (definitions changed_data)))
                (signature_changes changed_data)) g1 /\
  is_dict (snd (find g changed_file)).
Proof.
  intros Hd. cbv zeta. split; [now apply find_impacted_files_flat_map|].
  rewrite find_impacted_files_flat_map by assumption.
  apply flat_map_impact_is_dict. now apply find_impacted_files_graph.
Qed.

Lemma impact_reasons_nil changed names sigs (data : Entry) :
  impact_reasons set_order changed names sigs data = [] <->
  existsb (fun imp => contains (lower (stem changed)) (lower imp)) (imports data) = false /\
  (forall n, In n names -> ~ In n (calls data)).
Proof.
  unfold impact_reasons.
  destruct (existsb _ (imports data)).
  - split; [discriminate | intros [? _]; discriminate].
  - cbn [app].
    destruct (set_and names (calls data)) as [|c cs] eqn:Ecalled.
    + split; [|reflexivity]. intros _. split; [reflexivity|].
      intros n Hn Hc. assert (Hin : In n (set_and names (calls data)))
        by (apply set_and_In; now split).
      rewrite Ecalled in Hin. destruct Hin.
    + split.
      * cbv zeta. destruct (set_and (c :: cs) _); discriminate.
      * intros [_ Hno]. exfalso.
        assert (Hin : In c (set_and names (calls data))) by (rewrite Ecalled; now left).
        apply set_and_In in Hin as [H1 H2]. now apply (Hno c).
Qed.

Lemma find_impacted_files_keys (g : Graph) (changed_file B : string) (eC : Entry) :
  is_dict g -> dict_get changed_file g = Some eC ->
  (In B (dict_keys (snd (find g changed_file))) <->
   B <> changed_file /\
   exists eB, dict_get B g = Some eB /\
     (imports_file g B changed_file = true \/
      exists n, In n (map def_name (definitions eC)) /\ In n (calls eB))).
Proof.
  intros Hd HC.
  rewrite find_impacted_files_flat_map by assumption.
  assert (Hfst : fst (find g changed_file) = g).
  { unfold find_impacted_files, dict_has. now rewrite HC. }
  rewrite Hfst, HC. clear Hfst.
  set (names := set_of (map def_name (definitions eC))).
  assert (Hrs : forall eB,
    impact_reasons set_order changed_file names (signature_changes eC) eB <> [] <->
    existsb (fun imp => contains (lower (stem changed_file)) (lower imp)) (imports eB) = true \/
    exists n, In n (map def_name (definitions eC)) /\ In n (calls eB)).
  { intros eB. rewrite impact_reasons_nil. split.
    - intros Hno. destruct (existsb _ (imports eB)); [now left|]. right.
      destruct (set_and names (calls eB)) as [|n ns] eqn:En.
      + exfalso. apply Hno. split; [reflexivity|]. intros n Hn Hc.
        assert (Hin : In n (set_and names (calls eB))) by (apply set_and_In; now split).
        rewrite En in Hin. destruct Hin.
      + exists n. assert (Hin : In n (set_and names (calls eB))) by (rewrite En; now left).
        apply set_and_In in Hin as [H1 H2]. split; [|assumption].
        now apply (proj1 (set_of_In _ _)) in H1.
    - intros [Himp|(n & Hn & Hc)] [Hex Hno]; [congruence|].
      apply (Hno n); [now apply set_of_In | assumption]. }
  split.
  - intros Hin. unfold dict_keys in Hin. rewrite in_map_iff in Hin.
    destruct Hin as ([k v] & <- & Hin). cbn [fst].
    apply in_flat_map in Hin as ([k' eB] & Hitem & Hin).
    apply (in_map fst) in Hin. apply impact_of_keys in Hin as (Hk & Hne & Hnil).
    cbn [fst snd] in *. subst k'. split; [assumption|]. exists eB.
    split; [now apply In_dict_get|].
    apply Hrs in Hnil. unfold imports_file.
    rewrite (In_dict_get k eB g Hd Hitem). exact Hnil.
  - intros (Hne & eB & HB & Hwhy).
    assert (Hnil : impact_reasons set_order changed_file names (signature_changes eC) eB <> []).
    { apply Hrs. unfold imports_file in Hwhy. now rewrite HB in Hwhy. }
    unfold dict_keys. rewrite in_map_iff.
    destruct (impact_reasons set_order changed_file names (signature_changes eC) eB)
      as [|r rs] eqn:Ers; [contradiction|].
    exists (B, mkImpact (r :: rs) (severity_of (r :: rs))). split; [reflexivity|].
    apply in_flat_map. exists (B, eB). split; [now apply dict_get_In|].
    unfold impact_of. cbn [fst snd].
    destruct (String.eqb_spec B changed_file); [contradiction|].
    rewrite Ers. now left.
Qed.
(** X7.  When the changed file has an entry, and its stem and the imports
    recorded in the graph are ASCII text, a file is a key of the dict
    returned by [find_impacted_files] exactly when it is another file of the
    graph and either the stem of the changed file occurs in one of its
    imports, up to the case of the letters, or it calls a name that the
    changed file defines. *)
Theorem find_impacted_files_iff (g : Graph) (changed_file B : string) (eC : Entry) :
  is_dict g -> dict_get changed_file g = Some eC ->
  PyText.isascii (stem changed_file) = true ->
  (forall f e imp, In (f, e) g -> In imp (imports e) -> PyText.isascii imp = true) ->
  (In B (dict_keys (snd (find g changed_file))) <->
   B <> changed_file /\
   exists eB, dict_get B g = Some eB /\
     ((exists imp, In imp (imports eB) /\
                   PyText.occurs_caseless (stem changed_file) imp) \/
      exists n, In n (map def_name (definitions eC)) /\ In n (calls eB))).
Proof.
  intros Hd HC _ _. rewrite (find_impacted_files_keys g changed_file B eC Hd HC).
  assert (Himp : forall eB,
    dict_get B g = Some eB ->
    (imports_file g B changed_file = true <->
     exists imp, In imp (imports eB) /\
                 PyText.occurs_caseless (stem changed_file) imp)).
  { intros eB HB. unfold imports_file. rewrite HB, existsb_exists.
    split; intros (imp & Hin & H); exists imp; (split; [exact Hin|]);
      now apply contains_lower_caseless. }
  split; intros (Hne & eB & HB & H); (split; [exact Hne|]); exists eB;
    (split; [exact HB|]); rewrite (Himp eB HB) in *; exact H.
Qed.
End ImpactShape.

Section ReportLoop.
Import Py Gilfoyle Report.
Variable parse_with_treesitter : string -> Parsed.
Variable set_order : list string -> list string.

Local Abbreviation analyze := (analyze_dependencies parse_with_treesitter).
Local Abbreviation find := (find_impacted_files parse_with_treesitter set_order).
Local Abbreviation step := (generate_report_step parse_with_treesitter set_order).
Local Abbreviation loop := (generate_report_loop parse_with_treesitter set_order).

Lemma find_after_analyze (g : Graph) (f : string) :
  fst (find (fst (analyze g f)) f) = fst (analyze g f).
Proof.
  unfold find_impacted_files at 1. cbn [fst].
  assert (H : dict_has f (fst (analyze g f)) = true).
  { unfold dict_has, analyze_dependencies. cbn [fst].
    now rewrite dict_get_set, String.eqb_refl. }
  now rewrite H.
Qed.

Lemma step_graph (st : Graph * odict (odict Impact)) (f : string) :
  fst (step st f)
  = if String.eqb (detect_language f) "unknown" then st.1 else fst (analyze st.1 f).
Proof.
  unfold generate_report_step.
  destruct (String.eqb (detect_language f) "unknown"); [reflexivity|].
  cbn [fst]. apply find_after_analyze.
Qed.

Lemma loop_snoc g fi l x : loop g fi (l ++ [x]) = step (loop g fi l) x.
Proof. unfold generate_report_loop. now rewrite fold_left_app. Qed.

(** X8.  When the loop of [generate_report] ends, every changed file of a
    known language has a graph entry that holds the imports, definitions and
    calls the file parses to, and its language; the entry of any other path
    is the one the graph had before, and the graph is still a dict.  (The
    call of [find_impacted_files] inside the loop never analyses a file
    itself: the entry is always there.) *)
Theorem generate_report_loop_graph (g : Graph) (fi : odict (odict Impact))
    (changed : list string) (f : string) :
  let g' := fst (loop g fi changed) in
  (In f changed /\ known f ->
   exists sc, dict_get f g'
     = Some (mkEntry (p_imports (parse_with_treesitter f))
                     (p_definitions (parse_with_treesitter f))
                     (p_calls (parse_with_treesitter f)) (detect_language f) sc)) /\
  (~ (In f changed /\ known f) -> dict_get f g' = dict_get f g) /\
  (is_dict g -> is_dict g').
Proof.
  cbv zeta. induction changed as [|x l IH] using rev_ind.
  - simpl. split; [intros [[] _]|]. split; [reflexivity | auto].
  - rewrite loop_snoc, step_graph. destruct IH as (IHa & IHb & IHc).
    unfold known in *.
    destruct (String.eqb_spec (detect_language x) "unknown") as [Hu|Hk].
    + split; [|split; [|exact IHc]].
      * intros [Hin Hf]. apply IHa. split; [|assumption].
        apply in_app_or in Hin as [Hin|[->|[]]]; [assumption | contradiction].
      * intros Hno. apply IHb. intros [Hin Hf]. apply Hno.
        split; [apply in_or_app; now left | assumption].
    + unfold analyze_dependencies. cbn [fst]. split; [|split].
      * intros [Hin Hf]. rewrite dict_get_set.
        destruct (String.eqb_spec f x) as [->|Hne]; [eauto|].
        apply IHa. split; [|assumption].
        apply in_app_or in Hin as [Hin|[->|[]]]; [assumption | contradiction].
      * intros Hno. rewrite dict_get_set.
        destruct (String.eqb_spec f x) as [->|Hne].
        -- exfalso. apply Hno. split; [apply in_or_app; right; now left | assumption].
        -- apply IHb. intros [Hin Hf]. apply Hno.
           split; [apply in_or_app; now left | assumption].
      * intros Hd. apply dict_set_is_dict. auto.
Qed.

Lemma step_impacts (st : Graph * odict (odict Impact)) (x f : string) :
  dict_get f (snd (step st x))
  = if String.eqb (detect_language x) "unknown" then dict_get f st.2
    else if String.eqb f x
         then Some (snd (find (fst (analyze st.1 x)) x))
         else dict_get f st.2.
Proof.
  unfold generate_report_step.
  destruct (String.eqb (detect_language x) "unknown"); [reflexivity|].
  cbn [snd]. now rewrite dict_get_set.
Qed.

(** X9.  When the loop of [generate_report] ends, [file_impacts] has an
    entry for every changed file of a known language, and in none of the
    entries the loop wrote is a changed file impacted by itself; the entry
    of any other name is the one [file_impacts] had before. *)
Theorem generate_report_loop_impacts (g : Graph) (fi : odict (odict Impact))
    (changed : list string) (f : string) :
  let fi' := snd (loop g fi changed) in
  (In f changed /\ known f ->
   exists impacted, dict_get f fi' = Some impacted /\ dict_get f impacted = None) /\
  (~ (In f changed /\ known f) -> dict_get f fi' = dict_get f fi).
Proof.
  cbv zeta. induction changed as [|x l IH] using rev_ind.
  - simpl. split; [intros [[] _] | reflexivity].
  - rewrite loop_snoc, step_impacts. destruct IH as (IHa & IHb). unfold known in *.
    destruct (String.eqb_spec (detect_language x) "unknown") as [Hu|Hk].
    + split.
      * intros [Hin Hf]. apply IHa. split; [|assumption].
        apply in_app_or in Hin as [Hin|[->|[]]]; [assumption | contradiction].
      * intros Hno. apply IHb. intros [Hin Hf]. apply Hno.
        split; [apply in_or_app; now left | assumption].
    + destruct (String.eqb_spec f x) as [->|Hne]; split.
      * intros _. eexists. split; [reflexivity|].
        apply dict_get_None. intros Hin.
        apply fold_impacted_keys in Hin. destruct Hin as [[]|[_ Hin]]. now apply Hin.
      * intros Hno. exfalso. apply Hno.
        split; [apply in_or_app; right; now left | assumption].
      * intros [Hin Hf]. apply IHa. split; [|assumption].
        apply in_app_or in Hin as [Hin|[->|[]]]; [assumption | contradiction].
      * intros Hno. apply IHb. intros [Hin Hf]. apply Hno.
        split; [apply in_or_app; now left | assumption].
Qed.
End ReportLoop.

Section RiskOrder.
Import Py Gilfoyle Report.

(** X10.  The risk level never falls when files are added to the impacted
    ones: of two monitors with the same graph and changed files, the one
    with at least as many impacted files and at least as many impacts of
    high severity has at least the risk level of the other, whenever the two
    calls of [calculate_risk_level] return; and both return when the
    recursion limit leaves room for more nested calls of [has_cycle] than
    the graph has files. *)
Theorem calculate_risk_level_monotone (limit : nat) (m m' : Monitor) :
  dependency_graph m' = dependency_graph m ->
  changed_files m' = changed_files m ->
  (total_impacted (file_impacts m) <= total_impacted (file_impacts m'))%nat ->
  (high_severity_count (file_impacts m) <= high_severity_count (file_impacts m'))%nat ->
  ((length (dependency_graph m) < limit)%nat ->
   exists l e l' e',
     Bounded.calculate_risk_level_within limit m = Some (l, e) /\
     Bounded.calculate_risk_level_within limit m' = Some (l', e')) /\
  (forall l e l' e',
     Bounded.calculate_risk_level_within limit m = Some (l, e) ->
     Bounded.calculate_risk_level_within limit m' = Some (l', e') ->
     (risk_rank l <= risk_rank l')%nat).
Proof.
  intros Hg Hc Ht Hh. unfold Bounded.calculate_risk_level_within. rewrite Hg, Hc.
  destruct (detect_within_spec limit (dependency_graph m)) as [Hret _].
  set (t := total_impacted (file_impacts m)) in *.
  set (t' := total_impacted (file_impacts m')) in *.
  set (h := high_severity_count (file_impacts m)) in *.
  set (h' := high_severity_count (file_impacts m')) in *.
  set (s := has_sig_changes (dependency_graph m) (changed_files m)).
  split.
  - intros Hlt. destruct (Hret Hlt) as [b ->].
    match goal with
    | |- exists l e l' e', Some ?x = Some (l, e) /\ Some ?y = Some (l', e') =>
        exists (fst x), (snd x), (fst y), (snd y); now destruct x, y
    end.
  - intros l e l' e'.
    destruct (Bounded.detect_circular_dependencies_within limit (dependency_graph m))
      as [b|]; [|discriminate].
    destruct b, s; cbn [orb];
      destruct (Nat.ltb_spec 5 h), (Nat.ltb_spec 5 h'), (Nat.ltb_spec 15 t),
        (Nat.ltb_spec 15 t'), (Nat.ltb_spec 0 h), (Nat.ltb_spec 0 h'),
        (Nat.ltb_spec 5 t), (Nat.ltb_spec 5 t');
      cbn [orb]; try lia;
      (intros [= <- <-] [= <- <-]; vm_compute; lia).
Qed.
End RiskOrder.

(** ** agent_lock.py *)

Section MoreLock.
Import Py AgentLock LockUse.
Variables (pid_text time_text : string).

Local Abbreviation acquire := (AgentLock.acquire pid_text time_text).

Lemma well_formed_fresh (k : Kernel) i ino owner :
  well_formed k -> inodes k !! i = Some ino -> flock ino = Some owner ->
  owner <> fresh (dom (ofds k)).
Proof.
  intros Hwf Hino Hf ->. destruct (Hwf i ino _ Hino Hf) as [x Hx].
  rewrite fresh_ofd in Hx. discriminate.
Qed.

(** The probe of [is_locked] answers whether a description holds the
    lock, and leaves the kernel as it was. *)
Lemma is_locked_holder (name : string) (k : Kernel) :
  well_formed k ->
  is_locked name k = (k, match holder k name with Some _ => true | None => false end).
Proof.
  intros Hwf. unfold is_locked, holder, open_r.
  destruct (dir k !! name) as [i|] eqn:Hdir; [|reflexivity].
  pose proof (fresh_ofd k) as Hfresh. set (fd := fresh (dom (ofds k))) in *.
  assert (Hback : delete fd (<[fd:=i]> (ofds k)) = ofds k)
    by now rewrite delete_insert_id.
  unfold flock_ex_nb, file_of at 1. cbn [ofds inodes dir].
  rewrite lookup_insert_eq.
  destruct (inodes k !! i) as [ino|] eqn:Hino.
  - destruct ino as [lines owner]. cbn [flock content].
    destruct owner as [owner|].
    + assert (Hne : owner <> fd) by (eapply well_formed_fresh; eauto).
      apply Nat.eqb_neq in Hne. rewrite Hne.
      unfold close, flock_un, file_of. cbn [ofds inodes dir].
      rewrite lookup_insert_eq, Hino. cbn [flock]. rewrite Hne. cbn [ofds inodes dir].
      rewrite Hback. now destruct k.
    + assert (Hundo : <[i:=mkInode lines None]> (<[i:=mkInode lines (Some fd)]> (inodes k))
                      = inodes k)
        by (rewrite insert_insert_eq; now apply insert_id).
      unfold flock_un at 1, file_of at 1. cbn [ofds inodes dir flock content].
      rewrite !lookup_insert_eq. cbn [flock content]. rewrite Nat.eqb_refl.
      rewrite Hundo.
      unfold close, flock_un, file_of. cbn [ofds inodes dir].
      rewrite lookup_insert_eq, Hino. cbn [flock ofds inodes dir].
      rewrite Hback. now destruct k.
  - unfold close, flock_un, file_of. cbn [ofds inodes dir].
    rewrite lookup_insert_eq, Hino. cbn [ofds inodes dir].
    rewrite Hback. now destruct k.
Qed.

(** [acquire] against a lock that a description holds. *)
Lemma acquire_held (name : string) (k : Kernel) i ino owner :
  well_formed k ->
  dir k !! name = Some i -> inodes k !! i = Some ino -> flock ino = Some owner ->
  acquire name k
  = (mkKernel (dir k) (<[i := mkInode [] (Some owner)]> (inodes k)) (ofds k), false, None).
Proof.
  intros Hwf Hdir Hino Hf.
  assert (Hne : owner <> fresh (dom (ofds k))) by (eapply well_formed_fresh; eauto).
  pose proof (fresh_ofd k) as Hfresh. set (fd := fresh (dom (ofds k))) in *.
  apply Nat.eqb_neq in Hne.
  assert (Halter : alter (fun ino => mkInode [] (flock ino)) i (inodes k)
                   = <[i := mkInode [] (Some owner)]> (inodes k)).
  { apply map_eq. intros j. destruct (decide (j = i)) as [->|Hj].
    - rewrite lookup_alter_eq, lookup_insert_eq, Hino. simpl. now rewrite Hf.
    - now rewrite lookup_alter_ne, lookup_insert_ne by congruence. }
  unfold AgentLock.acquire, acquire_step, open_w. rewrite Hdir. fold fd.
  rewrite Halter.
  unfold flock_ex_nb, file_of. cbn [ofds inodes dir].
  rewrite !lookup_insert_eq. cbn [flock]. rewrite Hne.
  unfold close, flock_un, file_of. cbn [ofds inodes dir].
  rewrite !lookup_insert_eq. cbn [flock]. rewrite Hne. cbn [ofds inodes dir].
  now rewrite delete_insert_id.
Qed.

(** [acquire] on a lock file that no description holds. *)
Lemma acquire_unheld (name : string) (k : Kernel) i ino :
  dir k !! name = Some i -> inodes k !! i = Some ino -> flock ino = None ->
  acquire name k
  = (mkKernel (dir k)
              (<[i := mkInode [pid_text; time_text] (Some (fresh (dom (ofds k))))]> (inodes k))
              (<[fresh (dom (ofds k)) := i]> (ofds k)),
     true, Some (fresh (dom (ofds k)))).
Proof.
  intros Hdir Hino Hf. set (fd := fresh (dom (ofds k))) in *.
  unfold AgentLock.acquire, acquire_step, open_w. rewrite Hdir. fold fd.
  unfold flock_ex_nb, file_of. cbn [ofds inodes dir].
  rewrite !lookup_insert_eq, lookup_alter_eq, Hino. cbn [fmap option_fmap option_map flock content].
  rewrite Hf.
  unfold write_lines, file_of. cbn [ofds inodes dir].
  rewrite !lookup_insert_eq. cbn [flock content length skipn app].
  do 2 f_equal. f_equal. apply map_eq. intros j.
  destruct (decide (j = i)) as [->|Hj].
  - now rewrite !lookup_insert_eq.
  - now rewrite !lookup_insert_ne, lookup_alter_ne by congruence.
Qed.

(** [acquire] on a name without a lock file. *)
Lemma acquire_absent (name : string) (k : Kernel) :
  dir k !! name = None ->
  acquire name k
  = (mkKernel (<[name := fresh (dom (inodes k))]> (dir k))
              (<[fresh (dom (inodes k))
                 := mkInode [pid_text; time_text] (Some (fresh (dom (ofds k))))]> (inodes k))
              (<[fresh (dom (ofds k)) := fresh (dom (inodes k))]> (ofds k)),
     true, Some (fresh (dom (ofds k)))).
Proof.
  intros Hdir. unfold AgentLock.acquire, acquire_step, open_w. rewrite Hdir.
  unfold flock_ex_nb, file_of. cbn [ofds inodes dir].
  rewrite !lookup_insert_eq. cbn [flock content].
  unfold write_lines, file_of. cbn [ofds inodes dir].
  rewrite !lookup_insert_eq. cbn [flock content length skipn app].
  do 2 f_equal. f_equal. now rewrite !insert_insert_eq.
Qed.
(** What a successful [acquire] leaves: a new description [fd] on the file
    [i] that [name] names, holding its lock, the record written afresh. *)
Lemma acquire_free (name : string) (k : Kernel) :
  free k name ->
  exists k1 fd i,
    acquire name k = (k1, true, Some fd) /\
    ofds k !! fd = None /\
    ofds k1 = <[fd := i]> (ofds k) /\
    dir k1 = <[name := i]> (dir k) /\
    inodes k1 !! i = Some (mkInode [pid_text; time_text] (Some fd)) /\
    (forall j, j <> i -> inodes k1 !! j = inodes k !! j).
Proof.
  intros [Hholder Hfiles]. unfold holder in Hholder.
  destruct (dir k !! name) as [i|] eqn:Hdir.
  - destruct (Hfiles i eq_refl) as [ino Hino]. rewrite Hino in Hholder.
    rewrite (acquire_unheld name k i ino Hdir Hino Hholder).
    do 3 eexists. split; [reflexivity|]. cbn [dir inodes ofds].
    split; [apply fresh_ofd|]. split; [reflexivity|].
    split; [now rewrite insert_id|]. split; [apply lookup_insert_eq|].
    intros j Hj. now rewrite lookup_insert_ne by congruence.
  - rewrite (acquire_absent name k Hdir).
    do 3 eexists. split; [reflexivity|]. cbn [dir inodes ofds].
    split; [apply fresh_ofd|]. split; [reflexivity|].
    split; [reflexivity|]. split; [apply lookup_insert_eq|].
    intros j Hj. now rewrite lookup_insert_ne by congruence.
Qed.

Lemma acquire_free_holder (name : string) (k k1 : Kernel) fd i :
  dir k1 = <[name := i]> (dir k) ->
  inodes k1 !! i = Some (mkInode [pid_text; time_text] (Some fd)) ->
  holder k1 name = Some fd.
Proof.
  intros Hd Hi. unfold holder. now rewrite Hd, lookup_insert_eq, Hi.
Qed.

Lemma acquire_free_well_formed (k k1 : Kernel) fd i :
  well_formed k ->
  ofds k !! fd = None ->
  ofds k1 = <[fd := i]> (ofds k) ->
  inodes k1 !! i = Some (mkInode [pid_text; time_text] (Some fd)) ->
  (forall j, j <> i -> inodes k1 !! j = inodes k !! j) ->
  well_formed k1.
Proof.
  intros Hwf Hfd Ho Hi Hother j ino owner Hj Hf. rewrite Ho.
  destruct (decide (j = i)) as [->|Hne].
  - rewrite Hi in Hj. injection Hj as <-. injection Hf as <-.
    rewrite lookup_insert_eq. eauto.
  - rewrite Hother in Hj by assumption.
    destruct (Hwf j ino owner Hj Hf) as [x Hx].
    rewrite lookup_insert_ne; [eauto|]. intros <-. congruence.
Qed.

(** [release] by the lock object that has just acquired. *)
Lemma release_acquired (name : string) (k k1 : Kernel) fd i :
  ofds k !! fd = None ->
  ofds k1 = <[fd := i]> (ofds k) ->
  dir k1 = <[name := i]> (dir k) ->
  inodes k1 !! i = Some (mkInode [pid_text; time_text] (Some fd)) ->
  release name k1 (Some fd)
  = (mkKernel (delete name (dir k))
              (<[i := mkInode [pid_text; time_text] None]> (inodes k1))
              (ofds k), None).
Proof.
  intros Hfd Ho Hd Hi. destruct k1 as [d1 n1 o1]. cbn [dir inodes ofds] in *. subst d1 o1.
  unfold release, flock_un, file_of. cbn [dir inodes ofds].
  rewrite lookup_insert_eq, Hi. cbn [flock content]. rewrite Nat.eqb_refl.
  unfold close, flock_un, file_of. cbn [dir inodes ofds].
  rewrite !lookup_insert_eq. cbn [flock dir inodes ofds].
  rewrite lookup_insert_eq. unfold unlink. cbn [dir inodes ofds].
  now rewrite delete_insert_eq, delete_insert_id.
Qed.

Lemma acquire_held_fails (name : string) (k : Kernel) (owner : nat) :
  well_formed k -> holder k name = Some owner ->
  exists k', acquire name k = (k', false, None) /\ holder k' name = Some owner.
Proof.
  intros Hwf Hholder. unfold holder in Hholder.
  destruct (dir k !! name) as [i|] eqn:Hdir; [|discriminate].
  destruct (inodes k !! i) as [ino|] eqn:Hino; [|discriminate].
  rewrite (acquire_held name k i ino owner Hwf Hdir Hino Hholder).
  eexists. split; [reflexivity|].
  unfold holder. cbn [dir inodes]. now rewrite Hdir, lookup_insert_eq.
Qed.

(** X11.  On a kernel whose locks are held by open descriptions only,
    [acquire] returns [True] exactly when no description holds the lock of
    the name, be there a lock file or not.  It then keeps a new description
    that holds the lock, and the lock file holds the record of this call
    alone: the process identifier and the time.  The kernel it leaves is
    again one whose locks are held by open descriptions only. *)
Theorem acquire_succeeds_iff_unheld (name : string) (k : Kernel) :
  well_formed k ->
  (forall i, dir k !! name = Some i -> is_Some (inodes k !! i)) ->
  exists k' b fd,
    acquire name k = (k', b, fd) /\
    (b = true <-> holder k name = None) /\
    (b = true ->
     exists d i, fd = Some d /\ ofds k !! d = None /\
       holder k' name = Some d /\ dir k' !! name = Some i /\
       inodes k' !! i = Some (mkInode [pid_text; time_text] (Some d))) /\
    (b = false -> fd = None) /\
    well_formed k'.
Proof.
  intros Hwf Hfiles. destruct (holder k name) as [owner|] eqn:Hholder.
  - unfold holder in Hholder.
    destruct (dir k !! name) as [i|] eqn:Hdir; [|discriminate].
    destruct (inodes k !! i) as [ino|] eqn:Hino; [|discriminate].
    rewrite (acquire_held name k i ino owner Hwf Hdir Hino Hholder).
    do 3 eexists. split; [reflexivity|].
    split; [split; discriminate|]. split; [discriminate|]. split; [reflexivity|].
    intros j ino' owner' Hj Hf. cbn [inodes ofds] in *.
    destruct (decide (j = i)) as [->|Hne].
    + rewrite lookup_insert_eq in Hj. injection Hj as <-. injection Hf as <-.
      exact (Hwf i ino owner Hino Hholder).
    + rewrite lookup_insert_ne in Hj by congruence. exact (Hwf j ino' owner' Hj Hf).
  - destruct (acquire_free name k) as (k1 & fd & i & -> & Hfd & Ho & Hd & Hi & Hother);
      [now split|].
    exists k1, true, (Some fd). split; [reflexivity|]. split; [tauto|].
    split; [|split; [discriminate|]].
    + intros _. exists fd, i. split; [reflexivity|]. split; [assumption|].
      split; [eapply acquire_free_holder; eauto|].
      split; [now rewrite Hd, lookup_insert_eq | assumption].
    + eapply acquire_free_well_formed; eauto.
Qed.

(** X12.  An [acquire] that fails against a held lock leaves the holder,
    the directory and the descriptions as they were, but it has emptied the
    lock file: the record of the holder is gone. *)
Theorem acquire_held_erases_record (name : string) (k : Kernel) (owner : nat) :
  well_formed k -> holder k name = Some owner ->
  exists k' i,
    acquire name k = (k', false, None) /\
    dir k' = dir k /\ ofds k' = ofds k /\ holder k' name = Some owner /\
    dir k !! name = Some i /\
    inodes k' !! i = Some (mkInode [] (Some owner)) /\
    (forall j, j <> i -> inodes k' !! j = inodes k !! j).
Proof.
  intros Hwf Hholder. unfold holder in Hholder.
  destruct (dir k !! name) as [i|] eqn:Hdir; [|discriminate].
  destruct (inodes k !! i) as [ino|] eqn:Hino; [|discriminate].
  rewrite (acquire_held name k i ino owner Hwf Hdir Hino Hholder).
  do 2 eexists. split; [reflexivity|]. cbn [dir inodes ofds].
  split; [reflexivity|]. split; [reflexivity|].
  split; [unfold holder; cbn [dir inodes]; now rewrite Hdir, lookup_insert_eq|].
  split; [reflexivity|]. split; [apply lookup_insert_eq|].
  intros j Hj. now rewrite lookup_insert_ne by congruence.
Qed.

(** X13.  On a kernel whose locks are held by open descriptions only,
    [is_locked] answers [True] exactly when a description holds the lock of
    the name (a name without a lock file is not locked), and the probe
    leaves the kernel exactly as it was. *)
Theorem is_locked_iff_held (name : string) (k : Kernel) :
  well_formed k ->
  fst (is_locked name k) = k /\
  (snd (is_locked name k) = true <-> exists owner, holder k name = Some owner) /\
  (dir k !! name = None -> snd (is_locked name k) = false).
Proof.
  intros Hwf. rewrite (is_locked_holder name k Hwf). cbn [fst snd].
  split; [reflexivity|]. split.
  - destruct (holder k name) as [owner|]; split; eauto; try discriminate.
    intros [owner [=]].
  - intros Hdir. unfold holder. now rewrite Hdir.
Qed.

(** X14.  From a lock that nobody holds: [acquire] succeeds; while the lock
    object has not released, [is_locked] answers [True] and a second
    [acquire] of the name fails; [release] then removes the lock file and
    closes the description, so that the directory has no lock file of the
    name and the descriptions are those from before, and [is_locked]
    answers [False]. *)
Theorem acquire_release_round_trip (name : string) (k : Kernel) :
  well_formed k -> free k name ->
  exists k1 fd,
    acquire name k = (k1, true, Some fd) /\
    snd (is_locked name k1) = true /\
    snd (fst (acquire name k1)) = false /\
    snd (release name k1 (Some fd)) = None /\
    dir (fst (release name k1 (Some fd))) = delete name (dir k) /\
    ofds (fst (release name k1 (Some fd))) = ofds k /\
    snd (is_locked name (fst (release name k1 (Some fd)))) = false.
Proof.
  intros Hwf Hfree.
  destruct (acquire_free name k Hfree) as (k1 & fd & i & E & Hfd & Ho & Hd & Hi & Hother).
  assert (Hwf1 : well_formed k1) by (eapply acquire_free_well_formed; eauto).
  assert (Hh1 : holder k1 name = Some fd) by (eapply acquire_free_holder; eauto).
  exists k1, fd. split; [exact E|].
  split; [now rewrite (is_locked_holder name k1 Hwf1), Hh1|].
  split.
  { destruct (acquire_held_fails name k1 fd Hwf1 Hh1) as (k' & -> & _).
    reflexivity. }
  rewrite (release_acquired name k k1 fd i Hfd Ho Hd Hi). cbn [fst snd dir ofds].
  split; [reflexivity|]. split; [reflexivity|]. split; [reflexivity|].
  unfold is_locked. cbn [dir]. now rewrite lookup_delete_eq.
Qed.
(** X15.  A locked worker ([run_john_locked] and its siblings) returns
    [None], without doing its work, exactly when a description holds the
    lock of its name; the holder then still holds it.  Otherwise the work
    is done on the kernel that [acquire] left and its result is returned;
    if the work leaves the description of the lock open, the lock file is
    gone when the worker returns. *)
Theorem run_locked_skips_iff_held {A : Type} (name : string)
    (run : Kernel -> Kernel * A) (k : Kernel) :
  well_formed k ->
  (forall i, dir k !! name = Some i -> is_Some (inodes k !! i)) ->
  (snd (run_locked pid_text time_text name run k) = None <->
   exists owner, holder k name = Some owner) /\
  (forall owner, holder k name = Some owner ->
     holder (fst (run_locked pid_text time_text name run k)) name = Some owner) /\
  (holder k name = None ->
   exists k1 fd,
     acquire name k = (k1, true, Some fd) /\
     snd (run_locked pid_text time_text name run k) = Some (snd (run k1)) /\
     (is_Some (file_of (fst (run k1)) fd) ->
      dir (fst (run_locked pid_text time_text name run k)) !! name = None)).
Proof.
  intros Hwf Hfiles. unfold run_locked.
  destruct (holder k name) as [owner|] eqn:Hholder.
  - destruct (acquire_held_fails name k owner Hwf Hholder) as (k' & -> & Hk').
    cbn [fst snd]. split; [split; eauto|]. split; [|discriminate].
    now intros owner' [= <-].
  - destruct (acquire_free name k) as (k1 & fd & i & -> & _); [now split|].
    destruct (run k1) as [k2 r] eqn:Erun. cbn [fst snd].
    split; [split; [discriminate | intros [owner [=]]]|].
    split; [discriminate|]. intros _. exists k1, fd.
    split; [reflexivity|]. rewrite Erun. cbn [fst snd]. split; [reflexivity|].
    intros Hopen. now apply release_no_file.
Qed.

Lemma skipped_fold (agents : list string) (k : Kernel) (acc : list string) :
  well_formed k ->
  fold_left (fun (st : Kernel * list string) agent =>
    let '(k', locked) := is_locked (lock_file agent) st.1 in
    (k', if locked then (st.2 ++ [agent])%list else st.2)) agents (k, acc)
  = (k, (acc ++ List.filter (fun agent =>
            match holder k (lock_file agent) with Some _ => true | None => false end)
          agents)%list).
Proof.
  intros Hwf. revert acc. induction agents as [|a agents IH]; intros acc; cbn [fold_left].
  - cbn [List.filter]. now rewrite app_nil_r.
  - cbn [fst snd]. rewrite (is_locked_holder _ k Hwf). rewrite IH. cbn [List.filter].
    destruct (holder k (lock_file a)); [|reflexivity].
    now rewrite <- app_assoc.
Qed.

(** X16.  The stop hook skips exactly the workers whose lock a description
    holds, in the order in which it probes them, and its probes leave the
    kernel as it was. *)
Theorem skipped_iff_held (agents : list string) (k : Kernel) :
  well_formed k ->
  skipped agents k
  = (k, List.filter (fun agent =>
          match holder k (lock_file agent) with Some _ => true | None => false end)
        agents).
Proof. intros Hwf. unfold skipped. now rewrite skipped_fold. Qed.
End MoreLock.

(** ** smart_orchestrator.py *)

Section MoreScans.
Import Py Orchestrator.
Variable md5_hexdigest : string -> string.
Variable str_int : Z -> string.
Variable str_float : Q -> string.

Local Abbreviation hash := (_hash_file md5_hexdigest str_int str_float).
Local Abbreviation scan := (scan_path md5_hexdigest str_int str_float).
Local Abbreviation changes := (get_changed_files md5_hexdigest str_int str_float).
Local Abbreviation has_changes := (has_file_changes md5_hexdigest str_int str_float).
Local Abbreviation plan := (get_execution_plan md5_hexdigest str_int str_float).

Local Abbreviation full st p :=
  (Qle_bool (root_mtime p)
            (match last_scan_mtime st with Some t => t | None => 0%Q end) = false).

Lemma Qle_bool_refl (q : Q) : Qle_bool q q = true.
Proof. apply Qle_bool_iff. apply Qle_refl. Qed.

(** A scan right after a scan of the same project is on the fast path. *)
Lemma get_changed_files_again st p :
  changes (snd (changes st p)) p = (∅, snd (changes st p)).
Proof.
  destruct (Qle_bool (root_mtime p)
              (match last_scan_mtime st with Some t => t | None => 0%Q end)) eqn:E.
  - rewrite (get_changed_files_fast _ _ _ st p E). cbn [snd].
    now apply get_changed_files_fast.
  - rewrite (get_changed_files_full _ _ _ st p E). cbn [snd].
    apply get_changed_files_fast. cbn [last_scan_mtime]. apply Qle_bool_refl.
Qed.

(** X18.  A scan that directly follows a scan of the same project, the
    mtime of the root being the same, reports no file and leaves the state
    as it is, whatever the first scan reported; [has_file_changes] then
    answers [False]. *)
Theorem get_changed_files_idempotent (st : State) (p : Project) :
  changes (snd (changes st p)) p = (∅, snd (changes st p)) /\
  has_changes (snd (changes st p)) p = (false, snd (changes st p)).
Proof.
  split; [apply get_changed_files_again|].
  unfold has_file_changes. rewrite get_changed_files_again.
  f_equal.
Qed.

(** The paths one scan of a list of paths adds to [changed]. *)
Lemma scan_fold_changed l acc x :
  List.NoDup (map rel_path (List.filter scanned l)) ->
  x ∈ (fold_left scan l acc).1 <->
  x ∈ acc.1 \/
  exists f, In f l /\ scanned f = true /\ path f = x /\
            acc.2 !! rel_path f <> Some (hash f).
Proof.
  revert acc. induction l as [|f0 l IH]; intros acc Hnd; cbn [fold_left].
  { split; [auto | intros [H|(f & [] & _)]; exact H]. }
  cbn [List.filter] in Hnd.
  assert (Hnd' : List.NoDup (map rel_path (List.filter scanned l)))
    by (destruct (scanned f0); [now apply NoDup_cons_iff in Hnd as [_ ?] | assumption]).
  assert (Hother : forall f, In f l -> scanned f = true ->
            (scan acc f0).2 !! rel_path f = acc.2 !! rel_path f).
  { intros f Hin Hs. rewrite scan_path_lookup.
    destruct (scanned f0) eqn:Hs0; [|reflexivity]. cbn [andb].
    destruct (String.eqb_spec (rel_path f) (rel_path f0)) as [E|]; [|reflexivity].
    cbn [map] in Hnd. apply NoDup_cons_iff in Hnd as [Hnot _]. exfalso. apply Hnot.
    rewrite <- E. apply in_map. apply filter_In. now split. }
  rewrite IH by assumption. clear IH.
  assert (Hhead : x ∈ (scan acc f0).1 <->
            x ∈ acc.1 \/ (scanned f0 = true /\ path f0 = x /\
                          acc.2 !! rel_path f0 <> Some (hash f0))).
  { unfold scan_path, scanned.
    destruct (is_file f0); cbn [negb andb]; [|intuition discriminate].
    destruct (scan_ignored (parts f0)); cbn [negb]; [intuition discriminate|].
    destruct (decide (acc.2 !! rel_path f0 = Some (hash f0))) as [E|E].
    - intuition.
    - cbn [fst]. rewrite elem_of_union, elem_of_singleton. intuition. }
  rewrite Hhead. clear Hhead. split.
  - intros [[H|(Hs & Hp & Hc)]|(f & Hin & Hs & Hp & Hc)].
    + now left.
    + right. exists f0. split; [now left | auto].
    + right. exists f. split; [now right|]. rewrite <- (Hother f Hin Hs). auto.
  - intros [H|(f & [<-|Hin] & Hs & Hp & Hc)].
    + left. now left.
    + left. right. auto.
    + right. exists f. rewrite (Hother f Hin Hs). auto.
Qed.

(** X19.  A scan that goes through the tree reports exactly the paths of
    the existing, non-ignored files whose cache entry is missing or differs
    from the hash of the file now.  Directories and ignored files are never
    reported. *)
Theorem get_changed_files_reports (st : State) (p : Project) (x : string) :
  full st p ->
  List.NoDup (map rel_path (List.filter scanned (tree p))) ->
  (x ∈ fst (changes st p) <->
   exists f, In f (tree p) /\ is_file f = true /\ scan_ignored (parts f) = false /\
             path f = x /\ file_hashes st !! rel_path f <> Some (hash f)).
Proof.
  intros Hfull Hnd. rewrite get_changed_files_full by assumption. cbn [fst].
  rewrite scan_fold_changed by assumption. cbn [fst snd]. split.
  - intros [H|(f & Hin & Hs & Hp & Hc)]; [set_solver|].
    unfold scanned in Hs. apply andb_prop in Hs as [H1 H2].
    apply negb_true_iff in H2. eauto 10.
  - intros (f & Hin & H1 & H2 & Hp & Hc). right. exists f.
    unfold scanned. rewrite H1, H2. auto.
Qed.

Lemma scan_fold_keeps l acc rel :
  is_Some (acc.2 !! rel) -> is_Some ((fold_left scan l acc).2 !! rel).
Proof.
  revert acc. induction l as [|f l IH]; intros acc H; [exact H|].
  cbn [fold_left]. apply IH. rewrite scan_path_lookup.
  destruct (scanned f && String.eqb rel (rel_path f)); [eauto | assumption].
Qed.

(** X20.  The hash cache never forgets: a scan keeps an entry for every
    path that had one, and it leaves as it is the entry of every path that
    is not the path of an existing, non-ignored file, such as a file that
    was deleted. *)
Theorem get_changed_files_keeps_entries (st : State) (p : Project) (rel : string) :
  (is_Some (file_hashes st !! rel) ->
   is_Some (file_hashes (snd (changes st p)) !! rel)) /\
  (~ In rel (map rel_path (List.filter scanned (tree p))) ->
   file_hashes (snd (changes st p)) !! rel = file_hashes st !! rel).
Proof.
  destruct (Qle_bool (root_mtime p)
              (match last_scan_mtime st with Some t => t | None => 0%Q end)) eqn:E.
  - rewrite (get_changed_files_fast _ _ _ st p E). cbn [snd]. auto.
  - rewrite (get_changed_files_full _ _ _ st p E). cbn [snd file_hashes]. split.
    + intros H. now apply scan_fold_keeps.
    + intros H. now rewrite scan_fold_other.
Qed.

(** X21.  After a scan that went through the tree, a scan of a project with
    the same files reports nothing, whatever the mtime of its root: also a
    file that could not be read is not reported again. *)
Theorem get_changed_files_unchanged_tree (st : State) (p p' : Project) :
  full st p ->
  List.NoDup (map rel_path (List.filter scanned (tree p))) ->
  tree p' = tree p ->
  fst (changes (snd (changes st p)) p') = ∅.
Proof.
  intros Hfull Hnd Htree.
  destruct (Qle_bool (root_mtime p')
              (match last_scan_mtime (snd (changes st p)) with
               | Some t => t | None => 0%Q end)) eqn:E.
  - now rewrite get_changed_files_fast.
  - apply set_eq. intros x. rewrite get_changed_files_full by assumption. cbn [fst].
    rewrite scan_fold_changed by (now rewrite Htree). cbn [fst snd].
    split; [|set_solver].
    intros [H|(f & Hin & Hs & Hp & Hc)]; [set_solver|]. exfalso. apply Hc.
    rewrite get_changed_files_full by assumption. cbn [snd file_hashes].
    rewrite Htree in Hin. now apply scan_fold_snapshot.
Qed.

Lemma scan_fold_size l acc :
  (size (fold_left scan l acc).1 <= size acc.1 + length (List.filter scanned l))%nat.
Proof.
  revert acc. induction l as [|f l IH]; intros acc; cbn [fold_left List.filter].
  { cbn [length]. lia. }
  specialize (IH (scan acc f)).
  assert (Hstep : (size (scan acc f).1 <= size acc.1 + if scanned f then 1 else 0)%nat).
  { unfold scan_path, scanned.
    destruct (is_file f); cbn [negb andb]; [|lia].
    destruct (scan_ignored (parts f)); cbn [negb]; [lia|].
    destruct (decide (acc.2 !! rel_path f = Some (hash f))); [lia|].
    cbn [fst]. rewrite size_union_alt, size_singleton.
    assert (Hsub : acc.1 ∖ {[path f]} ⊆ acc.1) by set_solver.
    apply subseteq_size in Hsub. lia. }
  destruct (scanned f); cbn [length]; lia.
Qed.

Lemma scanned_counted (f : PathEntry) :
  scanned f = true -> is_file f && negb (size_ignored (parts f)) = true.
Proof.
  unfold scanned, scan_ignored, size_ignored.
  destruct (is_file f); cbn [andb]; [|discriminate].
  destruct (existsb (fun part => startswith part ".") (parts f)
            && negb (existsb (fun part => String.eqb part ".claude") (parts f)));
    cbn [orb negb]; [discriminate|].
  destruct (mem "node_modules" (parts f)); cbn [orb negb]; [discriminate | reflexivity].
Qed.

Lemma filter_length_le {A : Type} (test1 test2 : A -> bool) (l : list A) :
  (forall x, test1 x = true -> test2 x = true) ->
  (length (List.filter test1 l) <= length (List.filter test2 l))%nat.
Proof.
  intros Himp. induction l as [|x l IH]; [reflexivity|]. cbn [List.filter].
  destruct (test1 x) eqn:E1.
  - rewrite (Himp x E1). cbn [length]. lia.
  - destruct (test2 x); cbn [length]; lia.
Qed.

Lemma scanned_le_file_count (p : Project) :
  (length (List.filter scanned (tree p)) <= file_count p)%nat.
Proof. unfold file_count. apply filter_length_le. exact scanned_counted. Qed.

(** X22.  A scan never reports more files than [get_project_size] counts:
    every file a scan looks at is a file that the project size counts. *)
Theorem get_changed_files_le_file_count (st : State) (p : Project) :
  (size (fst (changes st p)) <= file_count p)%nat /\
  (forall f, scanned f = true -> is_file f && negb (size_ignored (parts f)) = true).
Proof.
  split.
  - destruct (Qle_bool (root_mtime p)
                (match last_scan_mtime st with Some t => t | None => 0%Q end)) eqn:E.
    + rewrite (get_changed_files_fast _ _ _ st p E). cbn [fst].
      rewrite size_empty. lia.
    + rewrite (get_changed_files_full _ _ _ st p E). cbn [fst].
      pose proof (scan_fold_size (tree p) (∅, file_hashes st)) as H.
      cbn [fst] in H. rewrite size_empty in H.
      pose proof (scanned_le_file_count p). lia.
  - exact scanned_counted.
Qed.

(** X23.  For a prompt of ASCII text whose fate [should_skip_hooks] leaves
    to the presence of changes (a question with "why" or "explain" that
    matches no pattern), the plan always says that no file changed: when
    the scan of [should_skip_hooks] finds changes the plan runs, and the
    scan of the plan, coming second, finds none. *)
Theorem get_execution_plan_explanatory (prompt : string) (now : Q) (st : State)
    (p : Project) :
  PyText.isascii prompt = true ->
  prompt_kind prompt = SkipUnlessChanges ->
  changed_files (fst (plan prompt now st p)) = O /\
  (should_run (fst (plan prompt now st p)) = true <->
   fst (changes st p) <> ∅).
Proof.
  intros _.
  unfold prompt_kind, get_execution_plan, should_skip_hooks, has_file_changes.
  destruct (String.length prompt <? 20)%nat; [discriminate|].
  destruct (List.find _ SKIP_PATTERNS); [discriminate|].
  destruct (List.find _ FULL_BAND_PATTERNS); [discriminate|].
  destruct (contains "why" _ || contains "explain" _); [|discriminate].
  intros _. pose proof (get_changed_files_again st p) as Hagain.
  destruct (changes st p) as [changed st1] eqn:E. cbn [fst snd] in *.
  destruct (bool_decide_reflect (0 < size changed)%nat) as [Hpos|Hzero]; cbn [negb].
  - rewrite Hagain. cbn [fst changed_files should_run]. rewrite size_empty.
    split; [reflexivity|]. split; [|reflexivity]. intros _ ->.
    rewrite size_empty in Hpos. lia.
  - cbn [fst changed_files should_run]. split; [reflexivity|].
    split; [discriminate|]. intros Hne. exfalso. apply Hzero.
    destruct (decide (size changed = 0)%nat) as [H0|H0]; [|lia].
    apply size_empty_iff in H0. apply leibniz_equiv in H0. contradiction.
Qed.

(** X24.  A plan either runs, with the timeout of the project size, and
    records the time of the run; or it is skipped, with timeout zero and no
    changed file, and leaves the time of the last run as it was. *)
Theorem get_execution_plan_run_or_skip (prompt : string) (now : Q) (st : State)
    (p : Project) :
  (should_run (fst (plan prompt now st p)) = true /\
   timeout (fst (plan prompt now st p)) = get_adaptive_timeout p /\
   60 <= timeout (fst (plan prompt now st p)) <= 180 /\
   last_run (snd (plan prompt now st p)) = Some now) \/
  (should_run (fst (plan prompt now st p)) = false /\
   timeout (fst (plan prompt now st p)) = 0 /\
   changed_files (fst (plan prompt now st p)) = O /\
   last_run (snd (plan prompt now st p)) = last_run st).
Proof.
  assert (Hrange : 60 <= get_adaptive_timeout p <= 180).
  { unfold get_adaptive_timeout, TIMEOUT_SMALL, TIMEOUT_MEDIUM, TIMEOUT_LARGE.
    destruct (file_count p <? 100)%nat; [lia|].
    destruct (file_count p <? 500)%nat; lia. }
  assert (Hlast : forall s, last_run (snd (changes s p)) = last_run s).
  { intros s. unfold get_changed_files.
    destruct (Qle_bool _ _); [reflexivity|].
    destruct (fold_left _ _ _). reflexivity. }
  unfold get_execution_plan, should_skip_hooks, has_file_changes.
  destruct (String.length prompt <? 20)%nat; [right; auto|].
  destruct (List.find _ SKIP_PATTERNS); [right; auto|].
  destruct (List.find _ FULL_BAND_PATTERNS).
  - destruct (changes st p). left. cbn. auto.
  - destruct (contains "why" _ || contains "explain" _).
    + specialize (Hlast st). destruct (changes st p) as [changed st1].
      cbn [snd] in Hlast.
      destruct (bool_decide (0 < size changed)%nat); cbn [negb].
      * destruct (changes st1 p). left. cbn. auto.
      * right. cbn. auto.
    + destruct (changes st p). left. cbn. auto.
Qed.
End MoreScans.

Section AgentChoice.
Import Py Orchestrator Selection.

Ltac split_ifs :=
  repeat match goal with
         | |- context [if ?c then _ else _] => destruct c
         end.

(** The four tests of [select_agents], then the test of its last line. *)
Ltac agents_cases prompt :=
  destruct ((100 <? String.length prompt)%nat || contains "previous" (lower prompt)
            || contains "we discussed" (lower prompt));
  destruct (existsb (fun pattern => contains pattern (lower prompt)) FULL_BAND_PATTERNS);
  destruct (existsb (fun word => contains word (lower prompt)) PAUL_WORDS);
  cbn [app length Nat.eqb andb].

Lemma size_nonempty (X : gset string) : X <> ∅ -> (0 < size X)%nat.
Proof.
  intros Hne. destruct (decide (size X = 0)%nat) as [H0|H0]; [|lia].
  apply size_empty_iff in H0. apply leibniz_equiv in H0. contradiction.
Qed.

(** X25.  [select_agents] looks at the changed files only to see whether
    there are any: two sets that are both empty or both non-empty select the
    same agents.  The test for more than ten changed files never decides,
    since with a changed file John is selected besides Ringo. *)
Theorem select_agents_size_irrelevant (prompt : string) (changed changed' : gset string)
    (st : State) :
  (changed = ∅ <-> changed' = ∅) ->
  select_agents prompt changed st = select_agents prompt changed' st.
Proof.
  intros Hiff. unfold select_agents.
  destruct (decide (changed = ∅)) as [E|E].
  - assert (E' : changed' = ∅) by tauto. subst. reflexivity.
  - assert (E' : changed' <> ∅) by tauto.
    rewrite !bool_decide_eq_false_2 by assumption. cbn [negb orb app].
    agents_cases prompt; reflexivity.
Qed.

(** X26.  For a prompt of ASCII text, Paul is among the selected agents
    exactly when the prompt asks for him by one of his words, or when
    nothing else was selected (no changed file and no word for John, George
    or Pete) and no earlier run is recorded; in light mode he is never among
    the agents.  Ringo is always selected. *)
Theorem select_agents_paul (prompt : string) (changed : gset string) (st : State) :
  PyText.isascii prompt = true ->
  (In "paul" (select_agents prompt changed st) <->
   wants_paul prompt = true \/
   (changed = ∅ /\ wants_john prompt = false /\ wants_george prompt = false /\
    wants_pete prompt = false /\ truthy (last_run st) = false)) /\
  ~ In "paul" (light_agents prompt) /\
  In "ringo" (select_agents prompt changed st).
Proof.
  intros _.
  unfold select_agents, light_agents, wants_paul, wants_john, wants_george, wants_pete.
  destruct (decide (changed = ∅)) as [E|E].
  - subst. rewrite bool_decide_eq_true_2 by reflexivity. rewrite size_empty.
    cbn [negb orb].
    destruct (contains "structure" (lower prompt) || contains "files" (lower prompt));
    destruct ((100 <? String.length prompt)%nat || contains "previous" (lower prompt)
              || contains "we discussed" (lower prompt));
    destruct (existsb (fun pattern => contains pattern (lower prompt)) FULL_BAND_PATTERNS);
    destruct (existsb (fun word => contains word (lower prompt)) PAUL_WORDS);
    destruct (truthy (last_run st));
    destruct (contains "code" (lower prompt) || contains "implement" (lower prompt));
    destruct (contains "structure" (lower prompt));
    cbn; intuition congruence.
  - rewrite bool_decide_eq_false_2 by assumption. cbn [negb orb app].
    destruct ((100 <? String.length prompt)%nat || contains "previous" (lower prompt)
              || contains "we discussed" (lower prompt));
    destruct (existsb (fun pattern => contains pattern (lower prompt)) FULL_BAND_PATTERNS);
    destruct (existsb (fun word => contains word (lower prompt)) PAUL_WORDS);
    destruct (contains "code" (lower prompt) || contains "implement" (lower prompt));
    destruct (contains "structure" (lower prompt));
    cbn; intuition congruence.
Qed.

Lemma select_agents_shape (prompt : string) (changed : gset string) (st : State) :
  In "ringo" (select_agents prompt changed st) /\
  List.NoDup (select_agents prompt changed st) /\
  (forall a, In a (select_agents prompt changed st) -> In a ALL_AGENTS).
Proof.
  unfold select_agents, ALL_AGENTS.
  destruct (negb (bool_decide (changed = ∅)) || contains "structure" (lower prompt)
            || contains "files" (lower prompt));
    agents_cases prompt; split_ifs;
    (split; [cbn; tauto|]; split;
     [repeat constructor; cbn; intuition discriminate | cbn; tauto]).
Qed.

Lemma light_agents_shape (prompt : string) :
  In "ringo" (light_agents prompt) /\ List.NoDup (light_agents prompt) /\
  length (light_agents prompt) = 2%nat /\ ~ In "paul" (light_agents prompt) /\
  (forall a, In a (light_agents prompt) -> In a ALL_AGENTS).
Proof.
  unfold light_agents, ALL_AGENTS.
  split_ifs;
    (split; [cbn; tauto|]; split; [repeat constructor; cbn; intuition discriminate|];
     split; [reflexivity|]; split; [cbn; intuition discriminate | cbn; tauto]).
Qed.

End AgentChoice.

Section MoreSelection.
Import Py Orchestrator Selection.
Variable md5_hexdigest : string -> string.
Variable str_int : Z -> string.
Variable str_float : Q -> string.
Variable text_lines : PathEntry -> option nat.

Local Abbreviation changes := (get_changed_files md5_hexdigest str_int str_float).
Local Abbreviation plan := (get_execution_plan md5_hexdigest str_int str_float).
Local Abbreviation plan_agents :=
  (execution_plan_agents text_lines md5_hexdigest str_int str_float).

(** X27.  The agents of a plan: none exactly when the plan is skipped;
    otherwise Ringo is among them, no agent is listed twice, and all are of
    the five; in light mode they are Ringo and one more, never Paul. *)
Theorem execution_plan_agents_shape (prompt : string) (now now' : Q) (st : State)
    (p : Project) :
  let agents := fst (plan_agents prompt now st p) in
  let light_mode := snd (plan_agents prompt now st p) in
  (agents = [] <-> should_run (fst (plan prompt now' st p)) = false) /\
  (agents <> [] ->
   In "ringo" agents /\ List.NoDup agents /\
   (forall a, In a agents -> In a ALL_AGENTS) /\
   (light_mode = true -> length agents = 2%nat /\ ~ In "paul" agents)).
Proof.
  cbv zeta. unfold execution_plan_agents, get_execution_plan.
  destruct (should_skip_hooks md5_hexdigest str_int str_float prompt st p)
    as [[should_skip reason] st1].
  destruct should_skip; cbn [fst snd should_run].
  { split; [tauto | congruence]. }
  destruct (changes st1 p) as [changed st2]. cbn [fst snd should_run].
  destruct (should_use_light_mode text_lines now st2 p).
  - destruct (light_agents_shape prompt) as (H1 & H2 & H3 & H4 & H5).
    split; [split; [|discriminate]|].
    + intros E. rewrite E in H1. destruct H1.
    + intros _. auto.
  - destruct (select_agents_shape prompt changed st2) as (H1 & H2 & H3).
    split; [split; [|discriminate]|].
    + intros E. rewrite E in H1. destruct H1.
    + intros _. split; [assumption|]. split; [assumption|]. split; [assumption|].
      discriminate.
Qed.

Lemma plan_last_run (prompt : string) (now : Q) (st : State) (p : Project) :
  should_run (fst (plan prompt now st p)) = true ->
  last_run (snd (plan prompt now st p)) = Some now.
Proof.
  unfold get_execution_plan.
  destruct (should_skip_hooks md5_hexdigest str_int str_float prompt st p)
    as [[should_skip reason] st1].
  destruct should_skip; [discriminate|].
  destruct (changes st1 p). reflexivity.
Qed.

(** X28.  After a plan that runs, [should_use_light_mode] answers [True] on
    the state the plan left whenever it is asked less than 300 seconds after
    the time the plan recorded (the epoch itself apart, which reads as no
    run), whatever the project. *)
Theorem light_mode_after_run (prompt : string) (now now' : Q) (st : State)
    (p p' : Project) :
  should_run (fst (plan prompt now st p)) = true ->
  ~ (now == 0)%Q -> (now' - now < 300 # 1)%Q ->
  should_use_light_mode text_lines now' (snd (plan prompt now st p)) p' = true.
Proof.
  intros Hrun Hnz Hrecent. apply plan_last_run in Hrun.
  unfold should_use_light_mode, get_project_size. rewrite Hrun.
  destruct ((500 <? file_count p')%nat || (50000 <? Z.of_nat (total_lines text_lines p')));
    [reflexivity|].
  unfold truthy.
  destruct (Qeq_bool now 0) eqn:E; [apply Qeq_bool_iff in E; contradiction|].
  cbn [negb]. apply negb_true_iff.
  destruct (Qle_bool (300 # 1) (now' - now)) eqn:E'; [|reflexivity].
  apply Qle_bool_iff in E'. exfalso. apply (Qlt_not_le _ _ Hrecent). exact E'.
Qed.
End MoreSelection.

(** ** The further properties on the concrete inputs *)

(** X2, witness: [utils/os_utils.py] imports [os], and is reported as a
    circular dependency. *)
Lemma detect_circular_dependencies_self_import_witness :
  Gilfoyle.detect_circular_dependencies MoreExamples.os_utils = Some true.
Proof.
  apply (detect_circular_dependencies_self_import MoreExamples.os_utils
           "utils/os_utils.py" (CycleExamples.importing "python" ["os"]) "os").
  - reflexivity.
  - simpl. auto.
  - left. reflexivity.
Defined.

(** X3, witness: the definition moved from line 1 to line 7. *)
Lemma detect_signature_changes_unchanged_witness :
  Gilfoyle.detect_signature_changes
    (ImpactExamples.parses_to MoreExamples.moved_def)
    [("m.py", ImpactExamples.one_def_old)] "m.py" = [].
Proof.
  apply (detect_signature_changes_unchanged
           (ImpactExamples.parses_to MoreExamples.moved_def)
           [("m.py", ImpactExamples.one_def_old)] "m.py" ImpactExamples.one_def_old).
  - reflexivity.
  - reflexivity.
Defined.

Lemma graph_import_is_dict : Py.is_dict MoreExamples.graph_import.
Proof. repeat constructor; simpl; intuition discriminate. Qed.

(** X6, witness: the files impacted by [core.py]. *)
Lemma find_impacted_files_in_graph_order_witness :
  Py.is_dict
    (snd (Gilfoyle.find_impacted_files
            (ImpactExamples.parses_to MoreExamples.moved_def) (fun l => l)
            MoreExamples.graph_import "core.py")).
Proof.
  exact (proj2 (find_impacted_files_in_graph_order
                  (ImpactExamples.parses_to MoreExamples.moved_def) (fun l => l)
                  MoreExamples.graph_import "core.py" graph_import_is_dict)).
Defined.

Lemma graph_case_is_dict : Py.is_dict EdgeExamples.graph_case.
Proof. repeat constructor; simpl; intuition discriminate. Qed.

Lemma graph_case_ascii (f : string) (e : Gilfoyle.Entry) (imp : string) :
  In (f, e) EdgeExamples.graph_case -> In imp (Gilfoyle.imports e) ->
  PyText.isascii imp = true.
Proof.
  intros Hin Himp. unfold EdgeExamples.graph_case in Hin. simpl in Hin.
  destruct Hin as [E|[E|[E|[]]]]; injection E as <- <-; simpl in Himp.
  - destruct Himp.
  - destruct Himp as [<-|[]]. reflexivity.
  - destruct Himp as [<-|[]]. reflexivity.
Qed.

(** X7, witness: [app.py] imports [CORE.utils] and is impacted by
    [lib/Core.py]. *)
Lemma find_impacted_files_iff_witness :
  In "app.py"
    (Py.dict_keys
       (snd (Gilfoyle.find_impacted_files
               (ImpactExamples.parses_to MoreExamples.moved_def) (fun l => l)
               EdgeExamples.graph_case "lib/Core.py"))).
Proof.
  apply (proj2 (find_impacted_files_iff
                  (ImpactExamples.parses_to MoreExamples.moved_def) (fun l => l)
                  EdgeExamples.graph_case "lib/Core.py" "app.py"
                  (Gilfoyle.mkEntry [] [ImpactExamples.fn "run" "run()" 1] [] "python" [])
                  graph_case_is_dict eq_refl eq_refl graph_case_ascii)).
  split; [discriminate|].
  exists (Gilfoyle.mkEntry ["CORE.utils"] [] [] "python" []).
  split; [reflexivity|]. left. exists "CORE.utils". split; [simpl; auto|].
  exists "", "CORE", ".utils". split; reflexivity.
Defined.

(** X10, witness: three impacted files against seven. *)
Lemma calculate_risk_level_monotone_witness :
  exists l e l' e',
    Bounded.calculate_risk_level_within 100 (CycleExamples.monitor 3) = Some (l, e) /\
    Bounded.calculate_risk_level_within 100 (CycleExamples.monitor 7) = Some (l', e') /\
    (Report.risk_rank l <= Report.risk_rank l')%nat.
Proof.
  destruct (calculate_risk_level_monotone 100 (CycleExamples.monitor 3)
              (CycleExamples.monitor 7)) as [Hret Hrank].
  - reflexivity.
  - reflexivity.
  - vm_compute. lia.
  - vm_compute. lia.
  - destruct Hret as (l & e & l' & e' & H1 & H2); [vm_compute; lia|].
    exists l, e, l', e'. split; [exact H1|]. split; [exact H2|].
    exact (Hrank l e l' e' H1 H2).
Defined.

Lemma three_records_files (name : string) (i : nat) :
  AgentLock.dir LockExamples.three_records !! name = Some i ->
  is_Some (AgentLock.inodes LockExamples.three_records !! i).
Proof.
  unfold LockExamples.three_records. cbn [AgentLock.dir AgentLock.inodes].
  intros H.
  repeat (apply lookup_insert_Some in H; destruct H as [[_ <-]|[_ H]];
          [vm_compute; eauto|]).
  rewrite lookup_empty in H. discriminate.
Qed.

(** X11, witness: the lock file of [john] is there and nobody holds it. *)
Lemma acquire_succeeds_iff_unheld_witness :
  exists k' b fd,
    AgentLock.acquire LockExamples.pid_text LockExamples.time_text "john.lock"
      LockExamples.three_records = (k', b, fd) /\
    (b = true <-> AgentLock.holder LockExamples.three_records "john.lock" = None).
Proof.
  destruct (acquire_succeeds_iff_unheld LockExamples.pid_text LockExamples.time_text
              "john.lock" LockExamples.three_records three_records_well_formed
              (three_records_files "john.lock"))
    as (k' & b & fd & H1 & H2 & _).
  exists k', b, fd. split; assumption.
Defined.

(** X12, witness: the lock of [marie] is held by description 7. *)
Lemma acquire_held_erases_record_witness :
  exists k' i,
    AgentLock.acquire LockExamples.pid_text LockExamples.time_text "marie.lock"
      LockExamples.three_records = (k', false, None) /\
    AgentLock.dir LockExamples.three_records !! "marie.lock" = Some i /\
    AgentLock.inodes k' !! i = Some (AgentLock.mkInode [] (Some 7%nat)).
Proof.
  destruct (acquire_held_erases_record LockExamples.pid_text LockExamples.time_text
              "marie.lock" LockExamples.three_records 7%nat
              three_records_well_formed eq_refl)
    as (k' & i & H1 & _ & _ & _ & H2 & H3 & _).
  exists k', i. split; [|split]; assumption.
Defined.

(** X13, witness: [marie] is locked. *)
Lemma is_locked_iff_held_witness :
  fst (LockUse.is_locked "marie.lock" LockExamples.three_records)
  = LockExamples.three_records /\
  snd (LockUse.is_locked "marie.lock" LockExamples.three_records) = true.
Proof.
  destruct (is_locked_iff_held "marie.lock" LockExamples.three_records
              three_records_well_formed) as (H1 & H2 & _).
  split; [exact H1|]. apply H2. exists 7%nat. reflexivity.
Defined.

(** X14, witness: the stale lock file of [john]. *)
Lemma acquire_release_round_trip_witness :
  exists k1 fd,
    AgentLock.acquire LockExamples.pid_text LockExamples.time_text "john.lock"
      LockExamples.three_records = (k1, true, Some fd) /\
    snd (LockUse.is_locked "john.lock" k1) = true /\
    AgentLock.dir (fst (AgentLock.release "john.lock" k1 (Some fd)))
    = delete "john.lock" (AgentLock.dir LockExamples.three_records).
Proof.
  destruct (acquire_release_round_trip LockExamples.pid_text LockExamples.time_text
              "john.lock" LockExamples.three_records three_records_well_formed
              (conj eq_refl (three_records_files "john.lock")))
    as (k1 & fd & H1 & H2 & _ & _ & H3 & _).
  exists k1, fd. split; [|split]; assumption.
Defined.

(** X15, witness: the worker of [marie] is skipped. *)
Lemma run_locked_skips_iff_held_witness :
  snd (LockUse.run_locked LockExamples.pid_text LockExamples.time_text "marie.lock"
         MoreExamples.work LockExamples.three_records) = None.
Proof.
  apply (proj1 (run_locked_skips_iff_held LockExamples.pid_text LockExamples.time_text
                  "marie.lock" MoreExamples.work LockExamples.three_records
                  three_records_well_formed (three_records_files "marie.lock"))).
  exists 7%nat. reflexivity.
Defined.

(** X16, witness: of the three workers the stop hook skips [marie]. *)
Lemma skipped_iff_held_witness :
  LockUse.skipped MoreExamples.workers LockExamples.three_records
  = (LockExamples.three_records, ["marie"]).
Proof.
  exact (eq_trans (skipped_iff_held MoreExamples.workers LockExamples.three_records
                     three_records_well_formed) eq_refl).
Defined.

(** X17, witness: two callers on a name without a lock file. *)
Lemma acquire_mutual_exclusion_witness :
  exists b,
    AgentLock.result (AgentLock.first
      (AgentLock.race LockExamples.pid_text LockExamples.time_text "john"
         LockExamples.empty_kernel [true; false; false; true; true; false])) = Some b /\
    AgentLock.result (AgentLock.second
      (AgentLock.race LockExamples.pid_text LockExamples.time_text "john"
         LockExamples.empty_kernel [true; false; false; true; true; false]))
    = Some (negb b).
Proof.
  assert (Hfree : AgentLock.free LockExamples.empty_kernel "john").
  { split; [reflexivity|]. intros i H. vm_compute in H. discriminate. }
  apply (acquire_mutual_exclusion LockExamples.pid_text LockExamples.time_text "john"
           LockExamples.empty_kernel [true; false; false; true; true; false] Hfree).
  - vm_compute. lia.
  - vm_compute. lia.
Defined.

Lemma project_1_paths :
  List.NoDup (map Orchestrator.rel_path
                (List.filter Orchestrator.scanned (Orchestrator.tree ScanExamples.project_1))).
Proof. repeat constructor; simpl; intuition discriminate. Qed.

(** X19, witness: the first scan reports [a.py]. *)
Lemma get_changed_files_reports_witness :
  "/proj/a.py" ∈ fst ScanExamples.scan_1.
Proof.
  apply (proj2 (get_changed_files_reports ScanExamples.md5 ScanExamples.str_int
                  ScanExamples.str_float ScanExamples.start ScanExamples.project_1
                  "/proj/a.py" eq_refl project_1_paths)).
  exists ScanExamples.a_py.
  split; [simpl; auto|]. split; [reflexivity|]. split; [reflexivity|].
  split; [reflexivity|]. vm_compute. discriminate.
Defined.

(** X21, witness: the second scan, of the same files. *)
Lemma get_changed_files_unchanged_tree_witness :
  fst ScanExamples.scan_2 = ∅.
Proof.
  exact (get_changed_files_unchanged_tree ScanExamples.md5 ScanExamples.str_int
           ScanExamples.str_float ScanExamples.start ScanExamples.project_1
           ScanExamples.project_2 eq_refl project_1_paths eq_refl).
Defined.

(** X23, witness: a "why" question on a project never scanned. *)
Lemma get_execution_plan_explanatory_witness :
  Orchestrator.changed_files
    (fst (Orchestrator.get_execution_plan ScanExamples.md5 ScanExamples.str_int
            ScanExamples.str_float ScanExamples.why_prompt (30 # 1)
            ScanExamples.start ScanExamples.project_2)) = O.
Proof.
  apply (get_execution_plan_explanatory ScanExamples.md5 ScanExamples.str_int
           ScanExamples.str_float ScanExamples.why_prompt (30 # 1)
           ScanExamples.start ScanExamples.project_2).
  - reflexivity.
  - vm_compute. reflexivity.
Defined.

(** X25, witness: one changed file and eleven select the same agents. *)
Lemma select_agents_size_irrelevant_witness :
  Selection.select_agents "fix it" MoreExamples.one_changed ScanExamples.start
  = Selection.select_agents "fix it" MoreExamples.many_changed ScanExamples.start.
Proof.
  apply select_agents_size_irrelevant.
  split; intros H; apply (f_equal size) in H; vm_compute in H; discriminate.
Defined.

(** X26, witness: a prompt that asks for a wild idea selects Paul. *)
Lemma select_agents_paul_witness :
  In "paul" (Selection.select_agents EdgeExamples.idea_prompt ∅ ScanExamples.start).
Proof.
  apply (proj1 (select_agents_paul EdgeExamples.idea_prompt ∅ ScanExamples.start
                  eq_refl)).
  left. reflexivity.
Defined.

(** X28, witness: a second prompt 100 seconds after a plan that ran. *)
Lemma light_mode_after_run_witness :
  Selection.should_use_light_mode MoreExamples.no_text (1100 # 1)
    (snd (Orchestrator.get_execution_plan ScanExamples.md5 ScanExamples.str_int
            ScanExamples.str_float MoreExamples.build_prompt (1000 # 1)
            ScanExamples.start ScanExamples.project_1))
    ScanExamples.project_3 = true.
Proof.
  apply (light_mode_after_run ScanExamples.md5 ScanExamples.str_int
           ScanExamples.str_float MoreExamples.no_text MoreExamples.build_prompt
           (1000 # 1) (1100 # 1) ScanExamples.start ScanExamples.project_1
           ScanExamples.project_3).
  - vm_compute. reflexivity.
  - vm_compute. discriminate.
  - vm_compute. reflexivity.
Defined.

(** X29, witness: the project of two files and the one of three. *)
Lemma get_adaptive_timeout_by_size_witness :
  Orchestrator.get_adaptive_timeout ScanExamples.project_1
  <= Orchestrator.get_adaptive_timeout ScanExamples.project_3.
Proof.
  apply get_adaptive_timeout_by_size. vm_compute. lia.
Defined.
